(* ===== verification/_CoqProject ===== *)
-Q . S2P
Prelude.v
Grid.v
Tank.v
Bullet.v
Vision.v
Random.v
Mersenne.v
Resolver.v
Render.v
Session.v
Restart.v
Game.v
Program.v
