(* ===== verification/Prelude.v ===== *)
(** * A verification development of the Tank Game (src/TankGame.py)

    ** The program

    [src/TankGame.py] is a single pygame script: a 15x15 grid maze with
    random walls, a player tank driven by the arrow keys and the space
    bar, an opponent tank driven by a line-of-sight heuristic, and
    bullets that advance one cell per frame.  All of its state lives in
    module globals ([maze], [player_tank], [ai_tank], [bullets],
    [player_turn], [game_over], [result_text], [running]) that the
    frame loop (lines 162-231) mutates in place.  Its parts are:
    - the grid: the constants [ROWS], [COLS], [TILE_SIZE] and the
      maze generator [generate_maze] (lines 7-11, 84-91);
    - the tank class [Tank] with [Tank.move] (lines 32-54) and
      [Tank.draw] (lines 56-59);
    - the bullet class [Bullet] with [Bullet.move] and [Bullet.draw]
      (lines 62-81);
    - the opponent: [ai_can_see_player] (lines 94-109) and [ai_move]
      (lines 112-123);
    - the session: [reset_game] (lines 126-134), the initialisation
      (lines 136, 159-161), the event loop with the restart button
      (lines 150-156, 179-185), the turn controller (lines 187-213) and
      the bullet resolver (lines 215-229);
    - the drawing: [draw_maze] (lines 139-147), [draw_restart_button]
      (lines 150-156) and the top of each frame (lines 163-177), which
      also assigns the global [button_rect] that the event loop reads;
    - the script around them: the pygame set-up and the two sprite
      loads (lines 20-29), the pause [time.sleep(0.1)] after a turn
      (lines 209, 213), the pacing [clock.tick(30)] (line 231) and the
      exit [pygame.quit()], [sys.exit()] (lines 233-234);
    - the library it calls for chance: [random.randint] (lines 87-88)
      and [random.shuffle] (line 117), CPython's Mersenne Twister seeded
      from [os.urandom] at import.

    ** The library, file by file (in dependency order)
    - [Prelude] (this file): Python's list semantics on which the
      whole script relies, as partial functions of the [option] monad
      whose [None] is the exception Python raises: [py_get] is
      [l[i]] (negative indices wrap, out of range is an [IndexError]),
      [py_set] is [l[i] = x], [py_remove] is [list.remove] (a
      [ValueError] when absent).  The [random] module is the interface
      [RandomSource] ([randint], [shuffle] threading a generator state)
      with its laws [RandomLaws] (a draw lies in its range, a shuffle
      is a permutation); the theorems are proved against the laws, and
      the instance [scripted_random] replays a script of numbers for
      concrete runs.  [py_range] is [range], and [for_out] a [for]
      loop whose body emits output and may raise.  Also the [tank]
      hint database and the tactics.
    - [Random] (Module [Random]): CPython 3.11's [randrange], [randint]
      and [shuffle] (the Fisher-Yates loop, with its tuple swap) over
      the primitive [_randbelow], and the instance [cpython_random] of
      [RandomSource] built from a total [_randbelow] ([RandBelow] with
      its law [RandBelowLaws]).
    - [Mersenne] (Module [Mersenne]): CPython's generator: the state
      [MTState] (624 words and an index), [init_genrand],
      [init_by_array], [seed] ([random.seed(n)]), [seed_urandom] (the
      seeding at import), [genrand_uint32] with [twist] and [temper],
      [getrandbits] and [randbelow] ([_randbelow_with_getrandbits]),
      all with [uint32_t] wrap-around ([u32]), and examples checking
      them against the outputs of CPython 3.11.
    - [Grid] (Module [Grid]): the constants, the maze as
      [list (list Z)] read with [maze_get] ([maze[y][x]]) and written
      with [maze_set], the bounds test [in_bounds], well-formedness
      [maze_wf] (decidable), and [generate_maze] with its loop
      [place_walls].
    - [Tank] (Module [Tank]): [Direction] (the strings 'UP', 'DOWN',
      'LEFT', 'RIGHT' as an inductive type, with [direction_name] its
      string), the [Tank] record and [Tank.move] as [tank_move], which
      returns the updated object.
    - [Bullet] (Module [Bullet]): the [Bullet] record, [bullet_move],
      and the heap of bullet objects: Python lists hold references,
      and the resolver mutates bullets through one list while removing
      them from another, so [Bullets] is a [gmap] from identities to
      objects plus the list [live] of identities in [bullets].
    - [Vision] (Module [Vision]): [ai_can_see_player] (which both
      answers and turns the opponent, a side effect the model returns
      explicitly), the abstract [line_of_sight] and [first_step]
      contract, and [ai_move] with its shuffled move loop [try_moves].
    - [Resolver] (Module [Resolver]): the loop of lines 216-229 over
      the snapshot [bullets[:]] ([resolve_one], [resolve_loop],
      [resolve_bullets]) with the aliasing of the heap, and a
      reference definition [resolve_ref] (move, filter, fold of the hit
      tests [hit_outcome]).
    - [Render] (Module [Render]): drawing as a display list: each
      [fill], [draw.rect], [blit] and [flip] is a [DrawCmd], in the
      script's order.  [draw_maze], [tank_draw] (the angle dict keyed
      by the direction string, [KeyError] as [None]), [bullet_draw],
      [draw_restart_button], and [render], the drawing of one frame,
      which returns the rectangle assigned to [button_rect].  Text
      sizes come from the interface [FontMetrics] (pygame's font);
      [fixed_metrics] is a fixed-width stand-in for concrete runs.
    - [Session] (Module [Session], Section [session]): the globals as
      the record [Session] (with [button], the global [button_rect],
      [None] until first assigned), [reset_game], [init_session], the
      drawing [draw_phase], the event loop [handle_events] (whose
      restart click raises [NameError] on an unbound [button_rect]),
      the two turns [player_turn_step] and [ai_turn_step],
      [game_step] (the block [if not game_over:]), the frame [frame]
      (one iteration of [while running]), [run_frames], the transition
      system [step] with [reachable], the invariant [session_inv], and
      the lemmas that carry it through each part of a frame.
    - [Restart] (Module [Restart], Section [restart]): the equivalence
      [session_equiv] of sessions the script cannot tell apart (the
      same globals and generator state, the same live bullets as
      values, whatever their identities in the heap), with [frame] and
      [run_frames] as [Proper] morphisms for it on sessions that
      satisfy the invariant ([session_sim]).
    - [Game] (Module [Game]): the theorems about frames and runs, and
      the concrete runs.
    - [Program] (Module [Program]): the script as a program with
      effects: each call on the system ([pygame.init], the image loads,
      a frame's drawing, [time.sleep], [clock.tick], [pygame.quit],
      [sys.exit]) is an [Effect] appended to a trace in the script's
      order; [turn_sleeps] is the pause of a turn, [frame_io] one
      iteration of [while running] with its calls, [run_loop] the loop
      over a finite stream of frame inputs (events and keys), ending
      by [Quit] (the script's exit) or [Exhausted] (the stream used
      up), and [main] the whole script from [pygame.init()] on.

    ** What the theorems show
    - Safety of the whole game (Game): a frame from a session that
      satisfies [session_inv] never raises ([IndexError], [KeyError],
      [ValueError], [NameError]) and re-establishes it
      ([frame_safe]); every reachable session satisfies it
      ([reachable_inv]): the maze stays well formed, both tanks stay
      on the board with their roles, the bullet heap stays well
      formed, and no live bullet is off the grid or on a wall between
      frames.  Between restarts the tanks never enter a wall: a frame without
      a click keeps both on open cells ([frame_tanks_open]).
    - The resolver (Resolver): the loop over the aliased snapshot is
      equal to the reference definition on values
      ([resolve_bullets_ref]), so every bullet left live is on an open
      cell ([resolve_bullets_open]); its behaviour on hits and on a
      bullet going up ([resolve_hit_not_removed], [resolve_up],
      [resolve_last_hit_wins]).
    - The opponent (Vision): [ai_can_see_player] refines the
      line-of-sight specification ([ai_can_see_player_refines]);
      [ai_move] fires toward a visible player ([ai_move_fires]), else
      steps to an open neighbour whatever the shuffle
      and does nothing when boxed in ([ai_move_unseen]), and keeps its invariant ([ai_move_invariant]); on the player's
      own cell it fires to the RIGHT ([ai_move_same_cell]).
    - The maze and the tanks (Grid, Tank): [generate_maze] returns a
      well-formed maze whose walls are exactly the drawn cells and at
      most 20 ([generate_maze_spec], [generate_maze_count]);
      [Tank.move] by the step of each direction, blocked or open,
      turning to that direction ([tank_move_cases]), and what it keeps
      ([tank_move_invariant]).
    - The drawing (Render, Game): walls are painted gray and open
      cells white ([draw_maze_walls]); [Tank.draw] never raises and
      turns the sprite to point where the tank's bullets go
      ([tank_draw_faces_shot]); everything
      drawn lies on the screen ([render_on_screen]); the restart
      button is shown exactly when the game is over
      ([render_button_iff]); the drawing at the top of a frame is what
      keeps the event loop from reading an unbound [button_rect]
      ([events_after_draw_safe]).
    - The turn controller and the restart (Game, Restart): turn
      alternation, the opponent's turn being [ai_move]'s
      ([turn_alternation]), the frozen game-over state and the restart
      click ([frame_frozen], [frame_restart]), a restart leading to the
      same game, frame by frame, as a fresh start from the same
      generator state ([reset_game_restores]), and [QUIT] ending the
      loop ([quit_stops]).  The example [e2e_win] runs a whole
      scripted game from the start to "WIN".
    - Where the code and the spec part: a bullet that hits a tank is
      not removed ([resolve_hit_not_removed]), a tank can start on a
      wall exactly when [generate_maze] draws its start cell
      ([init_player_on_wall]), and two arrow keys held together
      make two moves in one turn ([player_two_moves]).
    - The whole script (Program): it never raises on any generator and
      any input, makes the set-up calls first and exits through
      [pygame.quit()] and [sys.exit()] exactly when a frame received
      [QUIT] ([main_total]); the loop stops at the first such frame and
      reads no further input ([run_loop_stops]); a frame draws, sleeps
      exactly when the turn passes, and ticks once
      ([frame_io_turn_delay]).
    - The random module (Random, Mersenne): CPython's [randint] and
      [shuffle] over any [_randbelow] drawing in [range(n)] compute the
      interface [RandomSource] and meet the laws the game's proofs
      assume ([cpython_randint_shuffle_spec]); the loop of [shuffle] is
      Fisher-Yates: each of the 24 orders of the opponent's four moves
      comes from exactly one sequence of draws, so uniform draws give a
      uniform order ([shuffle_moves_uniform]); the generator's state stays 624
      words of 32 bits through seeding and drawing ([init_by_array_wf],
      [genrand_uint32_wf]) and [getrandbits(k)] lies in [range(2**k)]
      ([getrandbits_range]); with this generator, [randint(0, COLS - 1)]
      returns the first draw below [COLS], a column, as soon as one is
      within its fuel ([randint_cols_first_below]); test vectors of
      CPython 3.11 ([random.seed(42)]) evaluate by [vm_compute].

    ** Bounds and fuel
    The one loop the code does not bound is the rejection loop of
    [_randbelow] ([while r >= n: r = getrandbits(k)]), which ends with
    probability at least 1/2 per draw but on no bound; [randbelow]
    takes the number of redraws as fuel, and [randbelow_first_below]
    (with its instance at the game's call, [randint_cols_first_below])
    shows that any fuel reaching the first accepted draw gives that
    draw.  The generator's words are [uint32_t]: every sum and product
    is taken modulo 2^32, and [init_by_array_wf], [genrand_uint32_wf]
    and [getrandbits_range] show they stay below 2^32.
    Every loop of the script is bounded by a list or a count the code
    fixes ([range(20)], [range(a, b)], the four moves, the snapshot
    [bullets[:]], the events of a frame), so each is a structural
    [Fixpoint] and needs no fuel; [while running] is the relation
    [step], and finite runs are [run_frames] over a list of inputs;
    with its effects, [while running] is [run_loop], structural in the
    input stream: the script reads one frame's input per iteration, so
    a run of n frames is a stream of n inputs, and the theorems hold
    for every stream.
    Integers are Python's unbounded integers, modelled as [Z].  The
    grid is fixed at 15x15 as in the source.

    ** Not modelled
    What the system does with the calls of [Program] is the
    library's: the window, the files read by [pygame.image.load], the
    wall-clock time of [time.sleep] and [clock.tick], the pixels,
    font rasterisation and image rotation of a draw command; the model
    stops at the call, and the game reads nothing back from it but the
    events and keys, which are the input of [run_loop].  A failing
    image load (the only start-up error) is not modelled.  The game's
    files are proved against the interface [RandomSource] and its laws
    ([Random] shows that CPython's code meets them over any correct
    [_randbelow]); they are not instantiated with the fuelled
    generator of [Mersenne], whose [_randbelow] cannot be shown to
    return within any fixed fuel.  The bytes of [os.urandom] are the
    input [key] of [seed_urandom].  The font's metrics are abstract. *)

From stdpp Require Import base list gmap strings.
From Stdlib Require Import ZArith Lia.

Declare Scope py_scope.
Delimit Scope py_scope with py.

(** ** Python list indexing *)

(** The position [l[i]] designates in a list of length [n], if any:
    a negative index counts from the end. *)
Definition py_norm (n : nat) (i : Z) : option nat :=
  let j := if (0 <=? i)%Z then i else (Z.of_nat n + i)%Z in
  if (0 <=? j)%Z && (j <? Z.of_nat n)%Z then Some (Z.to_nat j) else None.

(** [l[i]]: [None] is the [IndexError]. *)
Definition py_get {A} (l : list A) (i : Z) : option A :=
  j ← py_norm (length l) i; l !! j.

(** [l[i] = x]: [None] is the [IndexError]. *)
Definition py_set {A} (l : list A) (i : Z) (x : A) : option (list A) :=
  j ← py_norm (length l) i; Some (<[j:=x]> l).

(** [l.remove(x)]: removes the first element equal to [x]; [None] is
    the [ValueError] raised when there is none. *)
Fixpoint py_remove {A} `{EqDecision A} (x : A) (l : list A) : option (list A) :=
  match l with
  | [] => None
  | y :: l' => if decide (x = y) then Some l' else (λ r, y :: r) <$> py_remove x l'
  end.

Notation "l .[ i ]" := (py_get l i) (at level 1, left associativity,
  format "l .[ i ]") : py_scope.

(** [range(a, b)]: the integers from [a] up to [b - 1]. *)
Definition py_range (a b : Z) : list Z := seqZ a (b - a)%Z.

(** A [for] loop whose body emits output and may raise: the outputs
    in order, or the first exception. *)
Fixpoint for_out {A B} (f : A → option (list B)) (l : list A) : option (list B) :=
  match l with
  | [] => Some []
  | a :: l' => o ← f a; os ← for_out f l'; Some (o ++ os)
  end.

(** ** Tactics *)

Create HintDb tank discriminated.

(** Case on the boolean comparisons of [Z] in the goal, replacing each
    by the proposition it decides. *)
Ltac zcase :=
  repeat match goal with
  | |- context [ (?a <=? ?b)%Z ] => destruct (Z.leb_spec a b)
  | |- context [ (?a <? ?b)%Z ] => destruct (Z.ltb_spec a b)
  | |- context [ (?a =? ?b)%Z ] => destruct (Z.eqb_spec a b)
  end.

Ltac zcase_in H :=
  repeat match type of H with
  | context [ (?a <=? ?b)%Z ] => destruct (Z.leb_spec a b)
  | context [ (?a <? ?b)%Z ] => destruct (Z.ltb_spec a b)
  | context [ (?a =? ?b)%Z ] => destruct (Z.eqb_spec a b)
  end.

(** ** Lemmas on the Python list operations *)

Section py_lists.
Context {A : Type}.
Implicit Types (l : list A) (x : A).

Lemma py_norm_in_range n i :
  (0 <= i < Z.of_nat n)%Z → py_norm n i = Some (Z.to_nat i).
Proof. intros Hi. unfold py_norm. zcase; simpl; try lia; done. Qed.

Lemma py_norm_lt n i j : py_norm n i = Some j → j < n.
Proof.
  unfold py_norm. intros H. zcase_in H; simpl in H; try discriminate;
  injection H as <-; lia.
Qed.

Lemma py_get_in_range l i :
  (0 <= i < Z.of_nat (length l))%Z → l.[i]%py = l !! Z.to_nat i.
Proof. intros Hi. unfold py_get. by rewrite py_norm_in_range. Qed.

Lemma py_get_is_Some l i :
  (0 <= i < Z.of_nat (length l))%Z → is_Some (l.[i]%py).
Proof. intros Hi. rewrite py_get_in_range by done. apply lookup_lt_is_Some_2. lia. Qed.

Lemma py_get_elem l i x : l.[i]%py = Some x → x ∈ l.
Proof.
  unfold py_get. destruct (py_norm _ _); simpl; [|done].
  intros H. by eapply list_elem_of_lookup_2.
Qed.

Lemma py_set_in_range l i x :
  (0 <= i < Z.of_nat (length l))%Z → py_set l i x = Some (<[Z.to_nat i:=x]> l).
Proof. intros Hi. unfold py_set. by rewrite py_norm_in_range. Qed.

Lemma py_set_length l i x l' : py_set l i x = Some l' → length l' = length l.
Proof.
  unfold py_set. destruct (py_norm _ _); simpl; [|done].
  intros [= <-]. apply length_insert.
Qed.

Lemma py_set_elem l i x l' y : py_set l i x = Some l' → y ∈ l' → y = x ∨ y ∈ l.
Proof.
  unfold py_set. destruct (py_norm _ _); simpl; [|done].
  intros [= <-] Hy. apply list_elem_of_lookup in Hy as [k Hk].
  destruct (decide (n = k)) as [->|Hne].
  - destruct (decide (k < length l)).
    + rewrite list_lookup_insert_eq in Hk; [|done]. naive_solver.
    + rewrite list_insert_ge in Hk; [|lia]. right. by eapply list_elem_of_lookup_2.
  - rewrite list_lookup_insert_ne in Hk; [|done]. right. by eapply list_elem_of_lookup_2.
Qed.

(** A filter whose test holds on every element keeps the list. *)
Lemma filter_all (P : A → Prop) `{∀ y, Decision (P y)} l :
  (∀ y, y ∈ l → P y) → filter P l = l.
Proof.
  induction l as [|y l IH]; intros Hall; [done|].
  rewrite filter_cons_True; [|apply Hall; left].
  f_equal. apply IH. intros z Hz. apply Hall. by right.
Qed.

(** Overwriting one element changes a count by at most one. *)
Lemma filter_insert_le (P : A → Prop) `{∀ y, Decision (P y)} l i x :
  length (filter P (<[i:=x]> l)) ≤ length (filter P l) + 1.
Proof.
  revert i. induction l as [|y l IH]; intros [|i]; simpl; [lia|lia| |].
  - rewrite !filter_cons. pose proof (length_filter P l).
    repeat case_decide; simpl; lia.
  - rewrite !filter_cons. specialize (IH i). repeat case_decide; simpl; lia.
Qed.

Lemma sum_list_insert_le (f : A → nat) l i x :
  (∀ y, l !! i = Some y → f x ≤ f y + 1) →
  sum_list (map f (<[i:=x]> l)) ≤ sum_list (map f l) + 1.
Proof.
  revert i. induction l as [|y l IH]; intros [|i] Hf; simpl; [lia|lia| |].
  - specialize (Hf y eq_refl). lia.
  - specialize (IH i Hf). lia.
Qed.

Context `{EqDecision A}.

Lemma py_remove_elem x l : x ∈ l → is_Some (py_remove x l).
Proof.
  induction l as [|y l IH]; simpl; intros Hx; [by apply not_elem_of_nil in Hx|].
  case_decide; [by eexists|]. apply elem_of_cons in Hx as [->|Hx]; [done|].
  destruct (IH Hx) as [r ->]. by eexists.
Qed.

Lemma py_remove_not_elem x l : x ∉ l → py_remove x l = None.
Proof.
  induction l as [|y l IH]; simpl; intros Hx; [done|].
  rewrite elem_of_cons in Hx. case_decide; [naive_solver|].
  rewrite IH; naive_solver.
Qed.

(** On a list without duplicates, [remove] is the filter that keeps
    every other element. *)
Lemma py_remove_NoDup x l :
  NoDup l → x ∈ l → py_remove x l = Some (filter (λ y, y ≠ x) l).
Proof.
  induction l as [|y l IH]; simpl; intros Hnd Hx; [by apply not_elem_of_nil in Hx|].
  apply NoDup_cons in Hnd as [Hy Hnd]. rewrite filter_cons.
  case_decide as Hxy.
  - subst y. rewrite decide_False; [|naive_solver]. f_equal.
    symmetry. apply filter_all. intros z Hz ->. done.
  - rewrite decide_True; [|done]. apply elem_of_cons in Hx as [->|Hx]; [done|].
    by rewrite IH.
Qed.
(** [remove] of an element absent from a prefix removes it where it
    stands. *)
Lemma py_remove_app_notin x l1 l2 : x ∉ l1 → py_remove x (l1 ++ x :: l2) = Some (l1 ++ l2).
Proof.
  induction l1 as [|y l1 IH]; intros Hx; simpl; [by rewrite decide_True|].
  rewrite elem_of_cons in Hx. rewrite decide_False by naive_solver.
  rewrite IH by naive_solver. done.
Qed.

(** An element in the middle of a duplicate-free list is in neither
    side, and the list without it has no duplicate. *)
Lemma NoDup_middle l1 l2 x :
  NoDup (l1 ++ x :: l2) → (x ∉ l1) ∧ (x ∉ l2) ∧ NoDup (l1 ++ l2).
Proof.
  rewrite !NoDup_app, NoDup_cons. intros (H1 & Hd & Hx & H2).
  split_and!; [intros Hin; by apply (Hd x Hin), list_elem_of_here|done|done| |done].
  intros y Hy Hy'. apply (Hd y Hy). by right.
Qed.
End py_lists.

(** A loop whose every body succeeds emits the concatenation. *)
Lemma for_out_Some {A B} (f : A → option (list B)) (g : A → list B) (l : list A) :
  (∀ a, a ∈ l → f a = Some (g a)) → for_out f l = Some (concat (map g l)).
Proof.
  induction l as [|a l IH]; intros Hf; simpl; [done|].
  rewrite (Hf a (list_elem_of_here _ _)). simpl.
  rewrite IH; [done|]. intros b Hb. apply Hf. by right.
Qed.

(** What a loop that succeeds emitted: the outputs of its bodies. *)
Lemma for_out_elem {A B} (f : A → option (list B)) (l : list A) out b :
  for_out f l = Some out → b ∈ out ↔ ∃ a o, a ∈ l ∧ f a = Some o ∧ b ∈ o.
Proof.
  revert out. induction l as [|a l IH]; intros out; simpl.
  - intros [= <-]. split; [by intros ?%not_elem_of_nil|]. intros (? & ? & ?%not_elem_of_nil & _); done.
  - destruct (f a) as [o|] eqn:Ea; simpl; [|done].
    destruct (for_out f l) as [os|]; simpl; [|done]. intros [= <-].
    rewrite elem_of_app, (IH os eq_refl). split.
    + intros [Hb|(a' & o' & Ha' & Hf & Hb)]; [exists a, o|exists a', o']; split_and!; try done.
      * apply list_elem_of_here.
      * by right.
    + intros (a' & o' & [->|Ha']%elem_of_cons & Hf & Hb); [left; congruence|right; eauto].
Qed.

Lemma for_out_is_Some {A B} (f : A → option (list B)) (l : list A) :
  (∀ a, a ∈ l → is_Some (f a)) → is_Some (for_out f l).
Proof.
  induction l as [|a l IH]; intros Hf; simpl; [by eexists|].
  destruct (Hf a (list_elem_of_here _ _)) as [o ->]. simpl.
  destruct IH as [os ->]; [intros b Hb; apply Hf; by right|]. by eexists.
Qed.

Lemma elem_of_py_range a b i : i ∈ py_range a b ↔ (a <= i < b)%Z.
Proof. unfold py_range. rewrite elem_of_seqZ. lia. Qed.


#[export] Hint Resolve py_get_is_Some py_remove_elem py_norm_lt : tank.

(** ** The [random] module

    The script draws from Python's global random generator in two
    places: [random.randint] in [generate_maze] and [random.shuffle]
    in [ai_move].  The generator's state is threaded explicitly; the
    class below is the interface the game relies on, and its laws are
    what the documentation of [random] promises. *)

Class RandomSource (S : Type) := {
  randint : Z → Z → S → Z * S;
  shuffle : list (Z * Z) → S → list (Z * Z) * S
}.

Class RandomLaws (S : Type) `{RandomSource S} := {
  randint_range a b s : (a <= b)%Z → (a <= (randint a b s).1 <= b)%Z;
  shuffle_perm l s : (shuffle l s).1 ≡ₚ l
}.

(** A scripted generator, a list of numbers consumed one per call; it
    is the instance on which concrete runs are evaluated. *)
Definition scripted_randint (a b : Z) (s : list Z) : Z * list Z :=
  match s with
  | [] => (a, [])
  | n :: s' => ((a + n mod (b - a + 1))%Z, s')
  end.

Definition scripted_shuffle (l : list (Z * Z)) (s : list Z) : list (Z * Z) * list Z :=
  match s with
  | [] => (l, [])
  | n :: s' => let k := Z.to_nat n in (drop k l ++ take k l, s')
  end.

#[export] Instance scripted_random : RandomSource (list Z) :=
  {| randint := scripted_randint; shuffle := scripted_shuffle |}.

#[export] Instance scripted_random_laws : RandomLaws (list Z).
Proof.
  split.
  - intros a b [|n s] Hab; simpl; [lia|].
    pose proof (Z.mod_pos_bound n (b - a + 1)). lia.
  - intros l [|n s]; simpl; [done|].
    rewrite Permutation_app_comm, take_drop. done.
Qed.
