(* ===== verification/Grid.v ===== *)
(** * Grid: the constants and the maze of src/TankGame.py

    The constants of lines 7-11, the maze as a list of rows of cells
    ([0] open, [1] a wall) read as [maze[y][x]], its well-formedness,
    and [generate_maze] (lines 84-91), which draws its 20 walls from
    the [random] interface of [Prelude]. *)

From stdpp Require Import base list.
From Stdlib Require Import ZArith Lia.
From S2P Require Import Prelude.

Local Open Scope py_scope.

Module Grid.
Local Open Scope Z_scope.

Definition TILE_SIZE : Z := 40.
Definition ROWS : Z := 15.
Definition COLS : Z := 15.
Definition SCREEN_WIDTH : Z := COLS * TILE_SIZE.
Definition SCREEN_HEIGHT : Z := ROWS * TILE_SIZE.

Abbreviation Maze := (list (list Z)).

(** [maze[y][x]] *)
Definition maze_get (maze : Maze) (x y : Z) : option Z :=
  row ← maze.[y]; row.[x].

(** [maze[y][x] = v] *)
Definition maze_set (maze : Maze) (x y v : Z) : option Maze :=
  row ← maze.[y]; row' ← py_set row x v; py_set maze y row'.

(** The guard [0 <= x < COLS and 0 <= y < ROWS] of the script. *)
Definition in_bounds (x y : Z) : bool :=
  (0 <=? x) && (x <? COLS) && (0 <=? y) && (y <? ROWS).

(** [[[0 for _ in range(COLS)] for _ in range(ROWS)]] *)
Definition empty_maze : Maze :=
  replicate (Z.to_nat ROWS) (replicate (Z.to_nat COLS) 0).

Section generate.
Context `{RandomSource Rng}.

(** The loop [for _ in range(k)] of [generate_maze]: [wall_x] is
    drawn before [wall_y]. *)
Fixpoint place_walls (k : nat) (maze : Maze) (s : Rng) : option (Maze * Rng) :=
  match k with
  | O => Some (maze, s)
  | S k' =>
      let '(wall_x, s1) := randint 0 (COLS - 1) s in
      let '(wall_y, s2) := randint 0 (ROWS - 1) s1 in
      maze' ← maze_set maze wall_x wall_y 1;
      place_walls k' maze' s2
  end.

Definition generate_maze (s : Rng) : option (Maze * Rng) :=
  place_walls 20 empty_maze s.

(** The cells the loop draws, in order, and the generator state after
    them: the same consumption of [randint] without the maze. *)
Fixpoint wall_draws (k : nat) (s : Rng) : list (Z * Z) * Rng :=
  match k with
  | O => ([], s)
  | S k' =>
      let '(wall_x, s1) := randint 0 (COLS - 1) s in
      let '(wall_y, s2) := randint 0 (ROWS - 1) s1 in
      let '(ws, s3) := wall_draws k' s2 in ((wall_x, wall_y) :: ws, s3)
  end.
End generate.

(** ** Well-formedness: [ROWS] rows of [COLS] cells, each 0 or 1 *)

Definition row_wf (r : list Z) : Prop :=
  length r = Z.to_nat COLS ∧ Forall (λ c, c = 0 ∨ c = 1) r.

Definition maze_wf (m : Maze) : Prop :=
  length m = Z.to_nat ROWS ∧ Forall row_wf m.

#[export] Instance row_wf_dec r : Decision (row_wf r).
Proof. unfold row_wf. apply _. Defined.

#[export] Instance maze_wf_dec m : Decision (maze_wf m).
Proof. unfold maze_wf. apply _. Defined.

(** The number of walls of a maze. *)
Definition count_walls (m : Maze) : nat :=
  sum_list (map (λ r, length (filter (λ c, c = 1) r)) m).

(** ** Lemmas *)

Lemma in_bounds_spec x y :
  in_bounds x y = true ↔ 0 <= x < COLS ∧ 0 <= y < ROWS.
Proof.
  unfold in_bounds. rewrite !andb_true_iff, !Z.leb_le, !Z.ltb_lt. tauto.
Qed.

Lemma maze_row m y :
  maze_wf m → 0 <= y < ROWS → ∃ r, m.[y] = Some r ∧ m !! Z.to_nat y = Some r ∧ row_wf r.
Proof.
  intros [Hlen Hrows] Hy. rewrite py_get_in_range by (rewrite Hlen; unfold ROWS in *; lia).
  destruct (lookup_lt_is_Some_2 m (Z.to_nat y)) as [r Hr]; [rewrite Hlen; unfold ROWS in *; lia|].
  exists r. split_and!; [done|done|]. by eapply Forall_lookup_1.
Qed.

(** On a well-formed maze, reading an in-bounds cell never raises, and
    reads the list cell [(y, x)]. *)
Lemma maze_get_in_bounds m x y :
  maze_wf m → in_bounds x y = true →
  maze_get m x y = (m !! Z.to_nat y) ≫= (λ r, r !! Z.to_nat x).
Proof.
  intros Hwf Hb. apply in_bounds_spec in Hb as [Hx Hy].
  destruct (maze_row m y Hwf Hy) as (r & Hget & Hr & [Hlen _]).
  unfold maze_get. rewrite Hget, Hr. simpl.
  apply py_get_in_range. rewrite Hlen. unfold COLS in *. lia.
Qed.

Lemma maze_get_wf m x y :
  maze_wf m → in_bounds x y = true → ∃ c, maze_get m x y = Some c ∧ (c = 0 ∨ c = 1).
Proof.
  intros Hwf Hb. pose proof Hb as Hb'. apply in_bounds_spec in Hb' as [Hx Hy].
  destruct (maze_row m y Hwf Hy) as (r & _ & Hr & [Hlen Hcells]).
  rewrite maze_get_in_bounds, Hr by done. simpl.
  destruct (lookup_lt_is_Some_2 r (Z.to_nat x)) as [c Hc];
    [rewrite Hlen; unfold COLS in *; lia|].
  exists c. split; [done|]. by eapply (Forall_lookup_1 _ _ _ _ Hcells).
Qed.

Lemma to_nat_neq a b : 0 <= a → 0 <= b → a ≠ b → Z.to_nat a ≠ Z.to_nat b.
Proof. intros Ha Hb Hne E. apply Hne. apply Z2Nat.inj; lia. Qed.

(** Writing 0 or 1 into an in-bounds cell of a well-formed maze never
    raises, keeps it well formed, changes that cell only, and adds at
    most one wall. *)
Lemma maze_set_spec m x y v :
  maze_wf m → in_bounds x y = true → v = 0 ∨ v = 1 →
  ∃ m', maze_set m x y v = Some m' ∧ maze_wf m' ∧
    (∀ x' y', in_bounds x' y' = true →
       maze_get m' x' y' = if decide ((x', y') = (x, y)) then Some v else maze_get m x' y') ∧
    (count_walls m' ≤ count_walls m + 1)%nat.
Proof.
  intros Hwf Hb Hv. pose proof Hb as Hb'. apply in_bounds_spec in Hb' as [Hx Hy].
  destruct (maze_row m y Hwf Hy) as (r & Hget & Hr & [Hrlen Hcells]).
  pose proof Hwf as [Hlen Hrows].
  unfold maze_set. rewrite Hget. simpl.
  rewrite py_set_in_range by (rewrite Hrlen; unfold COLS in *; lia). simpl.
  rewrite py_set_in_range by (rewrite Hlen; unfold ROWS in *; lia).
  assert (Hwf' : maze_wf (<[Z.to_nat y:=<[Z.to_nat x:=v]> r]> m)).
  { split; [by rewrite length_insert|]. apply Forall_insert; [done|].
    split; [by rewrite length_insert|]. by apply Forall_insert. }
  eexists. split; [done|]. split_and!; [done| |].
  - intros x' y' Hb2. pose proof Hb2 as Hb2'. apply in_bounds_spec in Hb2' as [Hx' Hy'].
    rewrite !maze_get_in_bounds by done.
    destruct (decide (y' = y)) as [->|Hne].
    + rewrite list_lookup_insert_eq by (rewrite Hlen; unfold ROWS in *; lia).
      rewrite Hr. simpl. destruct (decide (x' = x)) as [->|Hnx].
      * rewrite decide_True by done. apply list_lookup_insert_eq.
        rewrite Hrlen. unfold COLS in *. lia.
      * rewrite decide_False by congruence. apply list_lookup_insert_ne.
        apply to_nat_neq; lia.
    + rewrite decide_False by congruence. rewrite list_lookup_insert_ne; [done|].
      apply to_nat_neq; lia.
  - unfold count_walls. apply sum_list_insert_le. rewrite Hr. intros ? [= <-].
    apply filter_insert_le.
Qed.

Lemma empty_maze_wf : maze_wf empty_maze.
Proof.
  unfold empty_maze. split; [by rewrite length_replicate|]. apply Forall_replicate.
  split; [by rewrite length_replicate|]. apply Forall_replicate. by left.
Qed.

Lemma empty_maze_get x y : in_bounds x y = true → maze_get empty_maze x y = Some 0.
Proof.
  intros Hb. rewrite maze_get_in_bounds by (done || apply empty_maze_wf).
  apply in_bounds_spec in Hb as [Hx Hy]. unfold empty_maze.
  rewrite lookup_replicate_2 by (unfold ROWS in *; lia).
  exact (lookup_replicate_2 (Z.to_nat COLS) 0 (Z.to_nat x) ltac:(unfold COLS in *; lia)).
Qed.

Lemma empty_maze_count : count_walls empty_maze = 0%nat.
Proof. reflexivity. Qed.

Section generate_spec.
Context `{RandomLaws Rng}.

Lemma draw_in_bounds s wx s1 wy s2 :
  randint 0 (COLS - 1) s = (wx, s1) → randint 0 (ROWS - 1) s1 = (wy, s2) →
  in_bounds wx wy = true.
Proof.
  intros E1 E2. pose proof (randint_range 0 (COLS - 1) s) as R1.
  pose proof (randint_range 0 (ROWS - 1) s1) as R2.
  rewrite E1 in R1. rewrite E2 in R2. simpl in *.
  apply in_bounds_spec. unfold COLS, ROWS in *. lia.
Qed.

(** The wall loop never raises on a well-formed maze: it blocks
    exactly the drawn cells and adds at most one wall per round. *)
Lemma place_walls_spec k m s :
  maze_wf m →
  ∃ m', place_walls k m s = Some (m', (wall_draws k s).2) ∧ maze_wf m' ∧
    (∀ x y, in_bounds x y = true →
       maze_get m' x y = if decide ((x, y) ∈ (wall_draws k s).1) then Some 1
                         else maze_get m x y) ∧
    (count_walls m' ≤ count_walls m + k)%nat.
Proof.
  revert m s. induction k as [|k IH]; intros m s Hwf; simpl.
  - exists m. split_and!; [done|done| |lia].
    done.
  - destruct (randint 0 (COLS - 1) s) as [wx s1] eqn:E1.
    destruct (randint 0 (ROWS - 1) s1) as [wy s2] eqn:E2.
    pose proof (draw_in_bounds _ _ _ _ _ E1 E2) as Hb.
    destruct (maze_set_spec m wx wy 1 Hwf Hb (or_intror eq_refl))
      as (m1 & Hset & Hwf1 & Hget1 & Hc1).
    destruct (IH m1 s2 Hwf1) as (m2 & Hpw & Hwf2 & Hget2 & Hc2).
    destruct (wall_draws k s2) as [ws s3] eqn:E3. simpl in *.
    rewrite Hset. simpl. rewrite Hpw.
    exists m2. split_and!; [done|done| |lia].
    intros x y Hxy. rewrite Hget2, Hget1 by done.
    repeat case_decide; rewrite ?elem_of_cons in *; naive_solver.
Qed.

(** [generate_maze] never raises and returns a well-formed maze. *)
Lemma generate_maze_wf s :
  ∃ m, generate_maze s = Some (m, (wall_draws 20 s).2) ∧ maze_wf m.
Proof.
  destruct (place_walls_spec 20 empty_maze s empty_maze_wf) as (m & Hpw & Hwf & _).
  by exists m.
Qed.

(** C9: [generate_maze] never raises; the maze it returns is well
    formed (15 rows of 15 cells, each 0 or 1), and an in-bounds cell
    is a wall exactly when it is one of the 20 drawn cells. *)
Theorem generate_maze_spec s :
  ∃ m, generate_maze s = Some (m, (wall_draws 20 s).2) ∧ maze_wf m ∧
    ∀ x y, in_bounds x y = true →
      maze_get m x y = Some (if decide ((x, y) ∈ (wall_draws 20 s).1) then 1 else 0).
Proof.
  destruct (place_walls_spec 20 empty_maze s empty_maze_wf) as (m & Hpw & Hwf & Hget & _).
  exists m. split_and!; [done|done|]. intros x y Hb.
  rewrite Hget by done. rewrite empty_maze_get by done. by case_decide.
Qed.

(** C10: the maze has at most 20 walls: a draw that repeats a cell
    already drawn adds none (the spec's "duplicates allowed"). *)
Theorem generate_maze_count s m s' :
  generate_maze s = Some (m, s') → (count_walls m ≤ 20)%nat.
Proof.
  unfold generate_maze. intros Hg.
  destruct (place_walls_spec 20 empty_maze s empty_maze_wf) as (m1 & Hpw & _ & _ & Hc).
  rewrite Hg in Hpw. injection Hpw as <- _. rewrite empty_maze_count in Hc. lia.
Qed.
End generate_spec.

(** The scripted generator with an exhausted script draws [(0, 0)]
    twenty times: one wall only. *)
Example generate_maze_repeated :
  option_map (λ p, count_walls p.1) (generate_maze (Rng := list Z) []) = Some 1%nat.
Proof. vm_compute. reflexivity. Qed.

Lemma generate_maze_spec_witness :
  ∃ m, generate_maze (Rng := list Z) [3; 7] = Some (m, (wall_draws 20 [3; 7]).2) ∧ maze_wf m ∧
    ∀ x y, in_bounds x y = true →
      maze_get m x y = Some (if decide ((x, y) ∈ (wall_draws 20 [3; 7]).1) then 1 else 0).
Proof. exact (generate_maze_spec [3; 7]). Defined.

Lemma generate_maze_count_witness :
  ∃ m s', generate_maze (Rng := list Z) [3; 7] = Some (m, s') ∧ (count_walls m ≤ 20)%nat.
Proof.
  destruct (generate_maze (Rng := list Z) [3; 7]) as [[m s']|] eqn:E; [|discriminate].
  exists m, s'. split; [done|]. exact (generate_maze_count [3; 7] m s' E).
Defined.

End Grid.
