(* ===== verification/Tank.v ===== *)
(** * Tank: the [Tank] class of src/TankGame.py (lines 32-59)

    A tank is its cell, its role and its facing direction; [Tank.move]
    (lines 40-54) moves it one step when the target cell is in bounds
    and open, and turns it towards the attempted direction in every
    case.  The sprite and [Tank.draw] are in [Render]. *)

From stdpp Require Import base list strings.
From Stdlib Require Import ZArith Lia.
From S2P Require Import Prelude Grid.
Import Grid.

Module Tank.
Local Open Scope Z_scope.

(** The strings ['UP'], ['DOWN'], ['LEFT'], ['RIGHT'] the script
    stores in [direction]. *)
Inductive Direction := UP | DOWN | LEFT | RIGHT.

#[export] Instance Direction_eq_dec : EqDecision Direction.
Proof. solve_decision. Defined.

(** The string each direction is in the script. *)
Definition direction_name (d : Direction) : string :=
  match d with UP => "UP" | DOWN => "DOWN" | LEFT => "LEFT" | RIGHT => "RIGHT" end.

Record Tank := mkTank {
  tank_x : Z;
  tank_y : Z;
  is_player : bool;
  direction : Direction
}.

#[export] Instance Tank_eq_dec : EqDecision Tank.
Proof. solve_decision. Defined.

(** [Tank.__init__]: a new tank faces ['UP']. *)
Definition new_tank (x y : Z) (is_player : bool) : Tank := mkTank x y is_player UP.

(** The [if]/[elif] chain of lines 47-54: the first nonzero unit
    component decides; no match leaves the direction unchanged. *)
Definition facing (dx dy : Z) (d : Direction) : Direction :=
  if dx =? -1 then LEFT
  else if dx =? 1 then RIGHT
  else if dy =? -1 then UP
  else if dy =? 1 then DOWN
  else d.

(** [Tank.move(dx, dy)].  The maze read [maze[new_y][new_x]] is guarded
    by the bounds test, as in the source; [None] would be its
    [IndexError]. *)
Definition tank_move (maze : Maze) (t : Tank) (dx dy : Z) : option Tank :=
  let new_x := tank_x t + dx in
  let new_y := tank_y t + dy in
  t' ← (if in_bounds new_x new_y then
          c ← maze_get maze new_x new_y;
          Some (if c =? 0 then mkTank new_x new_y (is_player t) (direction t) else t)
        else Some t);
  Some (mkTank (tank_x t') (tank_y t') (is_player t') (facing dx dy (direction t'))).

(** The step a direction makes on the screen, as [(dx, dy)]: [y] grows
    downwards, so ['UP'] is [(0, -1)]. *)
Definition dir_delta (d : Direction) : Z * Z :=
  match d with UP => (0, -1) | DOWN => (0, 1) | LEFT => (-1, 0) | RIGHT => (1, 0) end.

(** The cell test of [Tank.move]: in bounds and open. *)
Definition can_enter (maze : Maze) (x y : Z) : bool :=
  in_bounds x y && bool_decide (maze_get maze x y = Some 0).

(** A tank on the board: in bounds. *)
Definition on_board (t : Tank) : Prop := in_bounds (tank_x t) (tank_y t) = true.

(** ** Lemmas *)

(** On a well-formed maze [Tank.move] never raises: it goes to the
    target when [can_enter] holds, stays otherwise, and faces [facing]. *)
Lemma tank_move_spec maze t dx dy :
  maze_wf maze →
  tank_move maze t dx dy =
    Some (if can_enter maze (tank_x t + dx) (tank_y t + dy)
          then mkTank (tank_x t + dx) (tank_y t + dy) (is_player t) (facing dx dy (direction t))
          else mkTank (tank_x t) (tank_y t) (is_player t) (facing dx dy (direction t))).
Proof.
  intros Hwf. unfold tank_move, can_enter.
  destruct (in_bounds _ _) eqn:Hb; simpl; [|done].
  destruct (maze_get_wf maze _ _ Hwf Hb) as (c & -> & Hc). simpl.
  destruct (Z.eqb_spec c 0) as [->|Hne]; simpl; [done|].
  rewrite bool_decide_eq_false_2; [done|congruence].
Qed.

Lemma can_enter_in_bounds maze x y : can_enter maze x y = true → in_bounds x y = true.
Proof. unfold can_enter. by intros [? _]%andb_true_iff. Qed.

Lemma can_enter_open maze x y : can_enter maze x y = true → maze_get maze x y = Some 0.
Proof. unfold can_enter. by intros [_ ?%bool_decide_eq_true]%andb_true_iff. Qed.

#[export] Hint Resolve can_enter_in_bounds can_enter_open : tank.

(** What a move keeps: the role, being on the board, standing on an
    open cell. *)
Lemma tank_move_keeps maze t dx dy t' :
  maze_wf maze → tank_move maze t dx dy = Some t' →
  is_player t' = is_player t ∧
  (on_board t → on_board t') ∧
  (maze_get maze (tank_x t) (tank_y t) = Some 0 → maze_get maze (tank_x t') (tank_y t') = Some 0).
Proof.
  intros Hwf. rewrite tank_move_spec by done. intros [= <-].
  unfold on_board. destruct (can_enter _ _ _) eqn:E; simpl; eauto with tank.
Qed.

(** C11: [Tank.move] by the step [(dx, dy)] of a direction [d] (the
    moves the script makes: the arrow keys and the four moves of
    [ai_move]): into a wall or off the board the tank stays where it is
    but faces [d]; into an open in-bounds cell it moves there and
    faces [d]. *)
Theorem tank_move_cases maze t d dx dy :
  maze_wf maze → dir_delta d = (dx, dy) →
  ((in_bounds (tank_x t + dx) (tank_y t + dy) = false ∨
    maze_get maze (tank_x t + dx) (tank_y t + dy) = Some 1) →
   tank_move maze t dx dy = Some (mkTank (tank_x t) (tank_y t) (is_player t) d)) ∧
  (in_bounds (tank_x t + dx) (tank_y t + dy) = true →
   maze_get maze (tank_x t + dx) (tank_y t + dy) = Some 0 →
   tank_move maze t dx dy = Some (mkTank (tank_x t + dx) (tank_y t + dy) (is_player t) d)).
Proof.
  intros Hwf Hd. assert (Hf : facing dx dy (direction t) = d) by (destruct d; by injection Hd as <- <-).
  rewrite tank_move_spec, Hf by done. split.
  - intros Hblk. destruct (can_enter _ _ _) eqn:E; [|done].
    destruct Hblk as [Hb|Hw].
    + apply can_enter_in_bounds in E. congruence.
    + apply can_enter_open in E. congruence.
  - intros Hb Ho. unfold can_enter. by rewrite Hb, bool_decide_eq_true_2.
Qed.

(** C12: [Tank.move] keeps a tank on the board and keeps its role; a
    tank standing on an open cell still stands on one afterwards. *)
Theorem tank_move_invariant maze t dx dy t' :
  maze_wf maze → tank_move maze t dx dy = Some t' →
  is_player t' = is_player t ∧
  (on_board t → on_board t') ∧
  (maze_get maze (tank_x t) (tank_y t) = Some 0 → maze_get maze (tank_x t') (tank_y t') = Some 0).
Proof. apply tank_move_keeps. Qed.

(** ** Witnesses, on the empty maze and on a maze with a wall at (2, 1) *)

Lemma tank_move_cases_witness :
  ∃ m, m = <[1%nat := <[2%nat := 1]> (replicate 15%nat 0)]> empty_maze ∧
    tank_move m (new_tank 1 1 true) 1 0 = Some (mkTank 1 1 true RIGHT) ∧
    tank_move m (new_tank 1 1 true) 0 (-1) = Some (mkTank 1 0 true UP).
Proof.
  eexists. split; [reflexivity|].
  destruct (tank_move_cases (<[1%nat := <[2%nat := 1]> (replicate 15%nat 0)]> empty_maze)
              (new_tank 1 1 true) RIGHT 1 0) as [Hb _];
    [apply (bool_decide_unpack _); vm_compute; exact I|reflexivity|].
  destruct (tank_move_cases (<[1%nat := <[2%nat := 1]> (replicate 15%nat 0)]> empty_maze)
              (new_tank 1 1 true) UP 0 (-1)) as [_ Ho];
    [apply (bool_decide_unpack _); vm_compute; exact I|reflexivity|].
  split; [apply Hb; right; reflexivity|apply Ho; reflexivity].
Defined.

Lemma tank_move_invariant_witness :
  is_player (mkTank 1 0 true UP) = true ∧ (on_board (new_tank 1 1 true) → on_board (mkTank 1 0 true UP)) ∧
  (maze_get empty_maze 1 1 = Some 0 → maze_get empty_maze 1 0 = Some 0).
Proof.
  exact (tank_move_invariant empty_maze (new_tank 1 1 true) 0 (-1) _ empty_maze_wf
           ltac:(vm_compute; reflexivity)).
Defined.

End Tank.
