(* ===== verification/Bullet.v ===== *)
(** * Bullet: the [Bullet] class of src/TankGame.py (lines 62-77) and
    the list of live bullets

    A bullet is a cell, a direction and an owner.  The script only reads
    [bullet.owner.is_player], and a tank's [is_player] never changes,
    so the owner is kept as that flag.  Python lists hold references:
    the global [bullets] and the copy [bullets[:]] that the resolver
    walks share the same objects, [Bullet.move] mutates them in place,
    and [bullets.remove] finds them by identity (the class defines no
    [__eq__]).  So the model keeps a heap of bullet objects indexed by
    identity, and the list [bullets] as a list of identities. *)

From stdpp Require Import base list gmap.
From Stdlib Require Import ZArith Lia.
From S2P Require Import Prelude Grid Tank.
Import Grid Tank.

Module Bullet.
Local Open Scope Z_scope.

Record Bullet := mkBullet {
  bullet_x : Z;
  bullet_y : Z;
  bullet_direction : Direction;
  owner_is_player : bool
}.

#[export] Instance Bullet_eq_dec : EqDecision Bullet.
Proof. solve_decision. Defined.

(** [Bullet(x, y, direction, owner)] *)
Definition new_bullet (x y : Z) (d : Direction) (owner : Tank) : Bullet :=
  mkBullet x y d (is_player owner).

(** [Bullet.move]: one cell along its direction. *)
Definition bullet_move (b : Bullet) : Bullet :=
  match bullet_direction b with
  | UP => mkBullet (bullet_x b) (bullet_y b - 1) UP (owner_is_player b)
  | DOWN => mkBullet (bullet_x b) (bullet_y b + 1) DOWN (owner_is_player b)
  | LEFT => mkBullet (bullet_x b - 1) (bullet_y b) LEFT (owner_is_player b)
  | RIGHT => mkBullet (bullet_x b + 1) (bullet_y b) RIGHT (owner_is_player b)
  end.

(** The objects the script has created, and the list [bullets] of the
    ones alive, by identity.  [next_id] is the identity the next
    [Bullet(...)] receives. *)
Record Bullets := mkBullets {
  heap : gmap nat Bullet;
  live : list nat;
  next_id : nat
}.

(** [bullets = []] *)
Definition clear_bullets (bs : Bullets) : Bullets :=
  mkBullets (heap bs) [] (next_id bs).

(** [bullets.append(Bullet(...))]: a fresh object, appended. *)
Definition append_bullet (bs : Bullets) (b : Bullet) : Bullets :=
  mkBullets (<[next_id bs := b]> (heap bs)) (live bs ++ [next_id bs]) (S (next_id bs)).

(** The live bullets as values, in list order. *)
Definition live_bullets (bs : Bullets) : list Bullet :=
  omap (λ i, heap bs !! i) (live bs).

(** The identities are distinct, live ones are allocated, and every
    allocated one is below [next_id]. *)
Definition bullets_wf (bs : Bullets) : Prop :=
  NoDup (live bs) ∧
  (∀ i, i ∈ live bs → is_Some (heap bs !! i)) ∧
  (∀ i, is_Some (heap bs !! i) → i < next_id bs)%nat.

(** The list before the first shot: nothing allocated. *)
Definition no_bullets : Bullets := mkBullets ∅ [] 0.

(** ** Lemmas *)

Lemma no_bullets_wf : bullets_wf no_bullets.
Proof.
  split_and!; [constructor|intros i Hi; by apply not_elem_of_nil in Hi|].
  intros i [b Hb]. unfold no_bullets in Hb. simpl in Hb. by rewrite lookup_empty in Hb.
Qed.

Lemma bullet_move_delta b :
  bullet_move b =
    mkBullet (bullet_x b + (dir_delta (bullet_direction b)).1)
             (bullet_y b + (dir_delta (bullet_direction b)).2)
             (bullet_direction b) (owner_is_player b).
Proof. destruct b as [x y [] o]; unfold bullet_move; simpl; f_equal; lia. Qed.

Lemma bullet_move_keeps b :
  bullet_direction (bullet_move b) = bullet_direction b ∧
  owner_is_player (bullet_move b) = owner_is_player b.
Proof. by destruct b as [x y [] o]. Qed.

Lemma clear_bullets_wf bs : bullets_wf bs → bullets_wf (clear_bullets bs).
Proof.
  intros (_ & _ & Hlt). split_and!; simpl; [constructor| |exact Hlt].
  intros i Hi. by apply not_elem_of_nil in Hi.
Qed.

Lemma append_bullet_wf bs b : bullets_wf bs → bullets_wf (append_bullet bs b).
Proof.
  intros (Hnd & Hlive & Hlt). split_and!; simpl.
  - apply NoDup_app. split_and!; [done| |apply NoDup_singleton].
    intros i Hi ->%list_elem_of_singleton.
    specialize (Hlt _ (Hlive _ Hi)). lia.
  - intros i [Hi| ->%list_elem_of_singleton]%elem_of_app.
    + destruct (decide (i = next_id bs)) as [->|Hne].
      * by rewrite lookup_insert_eq.
      * rewrite lookup_insert_ne by congruence. auto.
    + by rewrite lookup_insert_eq.
  - intros i. destruct (decide (i = next_id bs)) as [->|Hne]; [lia|].
    rewrite lookup_insert_ne by congruence. intros Hi%Hlt. lia.
Qed.

Lemma append_live_bullets bs b :
  bullets_wf bs → live_bullets (append_bullet bs b) = live_bullets bs ++ [b].
Proof.
  intros (Hnd & Hlive & Hlt). unfold live_bullets. simpl.
  rewrite omap_app. simpl. rewrite lookup_insert_eq. f_equal.
  apply list_omap_ext, Forall_Forall2_diag, Forall_forall.
  intros i Hi%list_elem_of_In. rewrite lookup_insert_ne; [done|].
  intros <-. apply list_elem_of_In in Hi. specialize (Hlt _ (Hlive _ Hi)). lia.
Qed.

#[export] Hint Resolve no_bullets_wf clear_bullets_wf append_bullet_wf : tank.

End Bullet.
