(* ===== verification/Vision.v ===== *)
(** * Vision: the opponent of src/TankGame.py (lines 94-123)

    [ai_can_see_player] (lines 94-109) scans the cells strictly between
    the two tanks on their shared row or column and, when it finds no
    wall, turns the opponent towards the player: the model returns the
    answer and the (possibly turned) opponent.  [ai_move] (lines
    112-123) fires when the player is seen and otherwise tries the four
    steps in the order [random.shuffle] gives, taking the first open
    in-bounds one.  The abstract contract is [line_of_sight]; the
    refinement theorem relates it to the scanning loops. *)

From stdpp Require Import base list gmap.
From Stdlib Require Import ZArith Lia.
From S2P Require Import Prelude Grid Tank Bullet.
Import Grid Tank Bullet.

Module Vision.
Local Open Scope Z_scope.

(** A [for] loop over [l] that returns [False] from the enclosing
    function at the first cell equal to 1: [Some true] when it does. *)
Fixpoint find_wall (cell : Z → option Z) (l : list Z) : option bool :=
  match l with
  | [] => Some false
  | i :: l' => c ← cell i; if c =? 1 then Some true else find_wall cell l'
  end.

(** [t.direction = d] *)
Definition set_direction (t : Tank) (d : Direction) : Tank :=
  mkTank (tank_x t) (tank_y t) (is_player t) d.

(** [ai_can_see_player()]: the answer and the opponent afterwards. *)
Definition ai_can_see_player (maze : Maze) (ai player : Tank) : option (bool * Tank) :=
  if tank_y ai =? tank_y player then
    find_wall (λ x, maze_get maze x (tank_y ai))
      (py_range (Z.min (tank_x ai) (tank_x player) + 1) (Z.max (tank_x ai) (tank_x player)))
    ≫= λ w : bool,
    if w then Some (false, ai)
    else Some (true, set_direction ai (if tank_x ai >? tank_x player then LEFT else RIGHT))
  else if tank_x ai =? tank_x player then
    find_wall (λ y, maze_get maze (tank_x ai) y)
      (py_range (Z.min (tank_y ai) (tank_y player) + 1) (Z.max (tank_y ai) (tank_y player)))
    ≫= λ w : bool,
    if w then Some (false, ai)
    else Some (true, set_direction ai (if tank_y ai >? tank_y player then UP else DOWN))
  else Some (false, ai).

(** [moves = [(-1,0), (1,0), (0,-1), (0,1)]] *)
Definition ai_moves : list (Z * Z) := [(-1, 0); (1, 0); (0, -1); (0, 1)].

(** The [for dx, dy in moves] loop of [ai_move], with its guard and
    [break]. *)
Fixpoint try_moves (maze : Maze) (ai : Tank) (moves : list (Z * Z)) : option Tank :=
  match moves with
  | [] => Some ai
  | (dx, dy) :: ms =>
      let new_x := tank_x ai + dx in
      let new_y := tank_y ai + dy in
      if in_bounds new_x new_y then
        c ← maze_get maze new_x new_y;
        if c =? 0 then tank_move maze ai dx dy else try_moves maze ai ms
      else try_moves maze ai ms
  end.

Section ai.
Context `{RandomSource Rng}.

(** [ai_move()]: the opponent, the bullets and the generator after. *)
Definition ai_move (maze : Maze) (ai player : Tank) (bs : Bullets) (s : Rng)
    : option (Tank * Bullets * Rng) :=
  ai_can_see_player maze ai player ≫= λ r : bool * Tank,
  let '(seen, ai1) := r in
  if seen then
    Some (ai1, append_bullet bs (new_bullet (tank_x ai1) (tank_y ai1) (direction ai1) ai1), s)
  else
    let '(moves, s') := shuffle ai_moves s in
    ai2 ← try_moves maze ai1 moves;
    Some (ai2, bs, s').
End ai.

(** ** The contract *)

(** [i] lies strictly between [a] and [b]. *)
Definition between (a b i : Z) : Prop := Z.min a b < i < Z.max a b.

(** The two tanks share a row or a column with no wall strictly
    between them. *)
Definition line_of_sight (maze : Maze) (ai p : Tank) : Prop :=
  (tank_y ai = tank_y p ∧
     ∀ x, between (tank_x ai) (tank_x p) x → maze_get maze x (tank_y ai) ≠ Some 1) ∨
  (tank_x ai = tank_x p ∧
     ∀ y, between (tank_y ai) (tank_y p) y → maze_get maze (tank_x ai) y ≠ Some 1).

(** The direction from the opponent to a player it sees. *)
Definition toward (ai p : Tank) : Direction :=
  if tank_y ai =? tank_y p then (if tank_x ai >? tank_x p then LEFT else RIGHT)
  else (if tank_y ai >? tank_y p then UP else DOWN).

(** The tank after a step [(dx, dy)] it can make. *)
Definition stepped (ai : Tank) (m : Z * Z) : Tank :=
  mkTank (tank_x ai + m.1) (tank_y ai + m.2) (is_player ai) (facing m.1 m.2 (direction ai)).

(** The first step of [moves] the opponent can make, by stdpp's
    [list_find]. *)
Definition first_step (maze : Maze) (ai : Tank) (moves : list (Z * Z)) : option (Z * Z) :=
  snd <$> list_find (λ m, can_enter maze (tank_x ai + m.1) (tank_y ai + m.2) = true) moves.

(** ** Lemmas on the loops *)

Lemma find_wall_spec cell l :
  (∀ i, i ∈ l → is_Some (cell i)) →
  ∃ w, find_wall cell l = Some w ∧ (w = false ↔ ∀ i, i ∈ l → cell i ≠ Some 1).
Proof.
  induction l as [|i l IH]; intros Hdef; simpl.
  - exists false. split; [done|]. split; [|done]. intros _ i Hi. by apply not_elem_of_nil in Hi.
  - destruct (Hdef i (list_elem_of_here _ _)) as [c Hc]. rewrite Hc. simpl.
    destruct (Z.eqb_spec c 1) as [->|Hne].
    + exists true. split; [done|]. split; [done|]. intros Hall.
      by destruct (Hall i (list_elem_of_here _ _)).
    + destruct IH as (w & -> & Hw); [intros j Hj; apply Hdef; by right|].
      exists w. split; [done|]. rewrite Hw. split.
      * intros Hall j [->|Hj]%elem_of_cons; [congruence|auto].
      * intros Hall j Hj. apply Hall. by right.
Qed.

Lemma py_range_between a b i : i ∈ py_range (Z.min a b + 1) (Z.max a b) ↔ between a b i.
Proof. unfold py_range, between. rewrite elem_of_seqZ. lia. Qed.

(** Quantifying over the cells strictly between two others is
    decidable: they are the finitely many cells of the [range]. *)
#[export] Instance between_all_dec (P : Z → Prop) `{∀ i, Decision (P i)} a b :
  Decision (∀ i, between a b i → P i).
Proof.
  destruct (decide (Forall P (py_range (Z.min a b + 1) (Z.max a b)))) as [Hf|Hf]; [left|right];
    rewrite Forall_forall in Hf; setoid_rewrite py_range_between in Hf; done.
Defined.

#[export] Instance line_of_sight_dec maze ai p : Decision (line_of_sight maze ai p).
Proof. unfold line_of_sight. apply _. Defined.

(** A cell strictly between two in-bounds cells of a row or column is
    in bounds. *)
Lemma between_in_bounds_x a b i y :
  in_bounds a y = true → in_bounds b y = true → between a b i → in_bounds i y = true.
Proof. rewrite !in_bounds_spec. unfold between. lia. Qed.

Lemma between_in_bounds_y x a b i :
  in_bounds x a = true → in_bounds x b = true → between a b i → in_bounds x i = true.
Proof. rewrite !in_bounds_spec. unfold between. lia. Qed.

(** One scan of [ai_can_see_player], on a well-formed maze between two
    in-bounds cells: it never raises, and finds no wall exactly when
    there is none. *)
Lemma scan_spec maze (cell : Z → option Z) a b :
  maze_wf maze →
  (∀ i, between a b i → ∃ c, cell i = Some c) →
  ∃ w, find_wall cell (py_range (Z.min a b + 1) (Z.max a b)) = Some w ∧
       (w = false ↔ ∀ i, between a b i → cell i ≠ Some 1).
Proof.
  intros Hwf Hdef.
  destruct (find_wall_spec cell (py_range (Z.min a b + 1) (Z.max a b))) as (w & Hw & Hiff).
  { intros i Hi%py_range_between. destruct (Hdef i Hi) as [c ->]. by eexists. }
  exists w. split; [done|]. rewrite Hiff. setoid_rewrite py_range_between. done.
Qed.

(** The move loop takes the first step it can make, or none. *)
Lemma try_moves_spec maze ai moves :
  maze_wf maze →
  try_moves maze ai moves = Some (from_option (stepped ai) ai (first_step maze ai moves)).
Proof.
  intros Hwf. unfold first_step. induction moves as [|[dx dy] ms IH]; simpl; [done|].
  rewrite decide_bool_decide.
  destruct (in_bounds _ _) eqn:Hb.
  - destruct (maze_get_wf maze _ _ Hwf Hb) as (c & Hc & Hc01). rewrite Hc. simpl.
    destruct (Z.eqb_spec c 0) as [->|Hne].
    + rewrite tank_move_spec by done. unfold can_enter. rewrite Hb, Hc. done.
    + unfold can_enter. rewrite Hb, Hc. simpl. rewrite (bool_decide_eq_false_2 (Some c = Some 0)) by congruence. simpl.
      rewrite IH. by destruct (list_find _ ms) as [[]|].
  - unfold can_enter. rewrite Hb. simpl. rewrite IH. by destruct (list_find _ ms) as [[]|].
Qed.

Lemma first_step_some maze ai moves m :
  first_step maze ai moves = Some m →
  m ∈ moves ∧ can_enter maze (tank_x ai + m.1) (tank_y ai + m.2) = true.
Proof.
  unfold first_step. destruct (list_find _ moves) as [[i m']|] eqn:E; simpl; [|done].
  intros [= <-]. apply list_find_Some in E as (Hi & Hm & _).
  split; [by eapply list_elem_of_lookup_2|done].
Qed.

Lemma first_step_perm maze ai l l' :
  l ≡ₚ l' → (∃ m, m ∈ l ∧ can_enter maze (tank_x ai + m.1) (tank_y ai + m.2) = true) →
  is_Some (first_step maze ai l').
Proof.
  intros Hp (m & Hm & Hc). unfold first_step.
  destruct (list_find _ l') eqn:E; [by eexists|].
  apply list_find_None in E. rewrite Forall_forall in E.
  exfalso. apply (E m); [|done]. by rewrite <- Hp.
Qed.

Lemma first_step_none maze ai l :
  (∀ m, m ∈ l → can_enter maze (tank_x ai + m.1) (tank_y ai + m.2) = false) →
  first_step maze ai l = None.
Proof.
  intros Hno. unfold first_step. rewrite (proj2 (list_find_None _ l)); [done|].
  apply Forall_forall. intros m Hm. rewrite Hno by done. done.
Qed.

#[export] Hint Resolve between_in_bounds_x between_in_bounds_y : tank.

(** The scan of [ai_can_see_player], case by case. *)
Lemma ai_can_see_player_spec maze ai p :
  maze_wf maze → on_board ai → on_board p →
  ∃ seen : bool, ai_can_see_player maze ai p =
            Some (seen, if seen then set_direction ai (toward ai p) else ai) ∧
          (seen = true ↔ line_of_sight maze ai p).
Proof.
  unfold on_board. intros Hwf Ha Hp. unfold ai_can_see_player, toward, line_of_sight.
  destruct (Z.eqb_spec (tank_y ai) (tank_y p)) as [Hy|Hy].
  - destruct (scan_spec maze (λ x, maze_get maze x (tank_y ai)) (tank_x ai) (tank_x p) Hwf)
      as (w & -> & Hw).
    { intros i Hi. rewrite Hy in Ha |- *.
      destruct (maze_get_wf maze i (tank_y p) Hwf) as (c & Hc & _); eauto with tank. }
    simpl. destruct w.
    + exists false. split; [done|]. split; [done|].
      intros [[_ Hall]|[Hx Hall]]; [by apply Hw in Hall|].
      enough (true = false) by done. apply Hw. intros i Hi. unfold between in Hi. lia.
    + exists true. split; [done|]. split; [|done]. intros _. left. split; [done|]. by apply Hw.
  - destruct (Z.eqb_spec (tank_x ai) (tank_x p)) as [Hx|Hx].
    + destruct (scan_spec maze (λ y, maze_get maze (tank_x ai) y) (tank_y ai) (tank_y p) Hwf)
        as (w & -> & Hw).
      { intros i Hi. rewrite Hx in Ha |- *.
        destruct (maze_get_wf maze (tank_x p) i Hwf) as (c & Hc & _); eauto with tank. }
      simpl. destruct w.
      * exists false. split; [done|]. split; [done|].
        intros [[? _]|[_ Hall]]; [done|]. by apply Hw in Hall.
      * exists true. split; [done|]. split; [|done]. intros _. right. split; [done|]. by apply Hw.
    + exists false. split; [done|]. split; [done|]. by intros [[? _]|[? _]].
Qed.

(** C5: [ai_can_see_player] refines [line_of_sight]: between tanks on
    the board of a well-formed maze it never raises, answers [True]
    exactly when the tanks share a row or column with no wall strictly
    between them, and then (only then) turns the opponent toward the
    player. *)
Theorem ai_can_see_player_refines maze ai p :
  maze_wf maze → on_board ai → on_board p →
  ∃ seen : bool, ai_can_see_player maze ai p =
            Some (seen, if seen then set_direction ai (toward ai p) else ai) ∧
          (seen = true ↔ line_of_sight maze ai p).
Proof. apply ai_can_see_player_spec. Qed.

Section ai_spec.
Context `{RandomLaws Rng}.

(** [ai_move] on the board of a well-formed maze, as the contract
    says it: fire when seen, else take the first step of the shuffle. *)
Lemma ai_move_spec maze ai p bs (s : Rng) :
  maze_wf maze → on_board ai → on_board p →
  ai_move maze ai p bs s =
    if bool_decide (line_of_sight maze ai p) then
      Some (set_direction ai (toward ai p),
            append_bullet bs (new_bullet (tank_x ai) (tank_y ai) (toward ai p) ai), s)
    else
      Some (from_option (stepped ai) ai (first_step maze ai (shuffle ai_moves s).1),
            bs, (shuffle ai_moves s).2).
Proof.
  intros Hwf Ha Hp.
  destruct (ai_can_see_player_spec maze ai p Hwf Ha Hp) as (seen & Hsee & Hiff).
  unfold ai_move. rewrite Hsee. simpl. destruct seen.
  - rewrite bool_decide_eq_true_2 by (by apply Hiff). done.
  - rewrite bool_decide_eq_false_2 by (rewrite <- Hiff; done).
    destruct (shuffle ai_moves s) as [moves s'] eqn:E. simpl.
    by rewrite try_moves_spec.
Qed.

(** C6: an opponent that sees the player turns toward it and fires one
    bullet from its own cell in that direction; it does not move and
    does not draw from the generator. *)
Theorem ai_move_fires maze ai p bs (s : Rng) :
  maze_wf maze → on_board ai → on_board p → line_of_sight maze ai p →
  ai_move maze ai p bs s =
    Some (set_direction ai (toward ai p),
          append_bullet bs (mkBullet (tank_x ai) (tank_y ai) (toward ai p) (is_player ai)), s).
Proof.
  intros Hwf Ha Hp Hl. rewrite ai_move_spec by done.
  by rewrite bool_decide_eq_true_2.
Qed.



(** C7: an opponent that does not see the player moves if it can:
    when some neighbour is open and in bounds it steps to one, whatever
    the shuffle, keeping the bullets; when none is, it does nothing
    that turn (it stays, keeps its facing and fires nothing).  Either
    way the shuffle is drawn. *)
Theorem ai_move_unseen maze ai p bs (s : Rng) :
  maze_wf maze → on_board ai → on_board p → ¬ line_of_sight maze ai p →
  ((∃ m, m ∈ ai_moves ∧ can_enter maze (tank_x ai + m.1) (tank_y ai + m.2) = true) →
   ∃ m ai', ai_move maze ai p bs s = Some (ai', bs, (shuffle ai_moves s).2) ∧
     m ∈ ai_moves ∧ ai' = stepped ai m ∧ maze_get maze (tank_x ai') (tank_y ai') = Some 0) ∧
  ((∀ m, m ∈ ai_moves → can_enter maze (tank_x ai + m.1) (tank_y ai + m.2) = false) →
   ai_move maze ai p bs s = Some (ai, bs, (shuffle ai_moves s).2)).
Proof.
  intros Hwf Ha Hp Hl. rewrite ai_move_spec by done.
  rewrite bool_decide_eq_false_2 by done. split.
  - intros Hex.
    destruct (first_step_perm maze ai ai_moves (shuffle ai_moves s).1) as [m Hm];
      [by rewrite shuffle_perm|done|].
    destruct (first_step_some _ _ _ _ Hm) as [Hin Hc].
    rewrite Hm. exists m, (stepped ai m). split_and!; [done| |done|].
    + by rewrite <- (shuffle_perm ai_moves s).
    + by apply can_enter_open.
  - intros Hno. rewrite first_step_none; [done|]. intros m Hm. apply Hno.
    by rewrite <- (shuffle_perm ai_moves s).
Qed.

(** What [ai_move] keeps, used by the game loop. *)
Lemma ai_move_keeps maze ai p bs (s : Rng) ai' bs' s' :
  maze_wf maze → on_board ai → on_board p → bullets_wf bs →
  ai_move maze ai p bs s = Some (ai', bs', s') →
  on_board ai' ∧ is_player ai' = is_player ai ∧
  (maze_get maze (tank_x ai) (tank_y ai) = Some 0 →
     maze_get maze (tank_x ai') (tank_y ai') = Some 0) ∧
  bullets_wf bs' ∧
  (live_bullets bs' = live_bullets bs ∨
   ∃ d, live_bullets bs' = live_bullets bs ++ [mkBullet (tank_x ai') (tank_y ai') d (is_player ai)]).
Proof.
  intros Hwf Ha Hp Hbs. rewrite ai_move_spec by done.
  case_bool_decide.
  - intros [= <- <- <-]. split_and!; auto with tank.
    right. exists (toward ai p). by rewrite append_live_bullets.
  - intros [= <- <- <-].
    destruct (first_step _ _ _) as [m|] eqn:E; simpl; [|split_and!; auto].
    destruct (first_step_some _ _ _ _ E) as [_ Hc].
    unfold on_board, stepped. simpl. split_and!; eauto with tank.
Qed.

(** C8: [ai_move] keeps the opponent on the board, keeps its role,
    never moves it into a wall, keeps the bullet list well formed, and
    adds at most one bullet, which starts on the opponent's cell. *)
Theorem ai_move_invariant maze ai p bs (s : Rng) ai' bs' s' :
  maze_wf maze → on_board ai → on_board p → bullets_wf bs →
  ai_move maze ai p bs s = Some (ai', bs', s') →
  on_board ai' ∧ is_player ai' = is_player ai ∧
  (maze_get maze (tank_x ai) (tank_y ai) = Some 0 →
     maze_get maze (tank_x ai') (tank_y ai') = Some 0) ∧
  bullets_wf bs' ∧
  (live_bullets bs' = live_bullets bs ∨
   ∃ d, live_bullets bs' = live_bullets bs ++ [mkBullet (tank_x ai') (tank_y ai') d (is_player ai)]).
Proof. apply ai_move_keeps. Qed.

(** C32: when the two tanks share a cell (nothing in [Tank.move] keeps
    them apart), [ai_can_see_player] scans the empty range, answers
    [True] and turns the opponent RIGHT, so [ai_move] fires a bullet
    to the RIGHT from the shared cell, on any maze, whatever the
    player's facing; the bullet leaves the shared cell on its first
    move. *)
Theorem ai_move_same_cell maze ai p bs (s : Rng) :
  tank_x ai = tank_x p → tank_y ai = tank_y p →
  ai_move maze ai p bs s =
    Some (set_direction ai RIGHT,
          append_bullet bs (mkBullet (tank_x ai) (tank_y ai) RIGHT (is_player ai)), s).
Proof.
  intros Hx Hy. unfold ai_move, ai_can_see_player.
  rewrite <- Hx, <- Hy, Z.eqb_refl, Z.min_id, Z.max_id.
  unfold py_range. rewrite seqZ_nil by lia. cbn [find_wall mbind option_bind].
  by rewrite Z.gtb_ltb, Z.ltb_irrefl.
Qed.
End ai_spec.

(** ** Witnesses: the opening position on the empty maze, the opponent
    at (13, 13), the player at (13, 1) (seen) or (1, 1) (not seen). *)

Lemma ai_can_see_player_refines_witness :
  ∃ seen : bool, ai_can_see_player empty_maze (new_tank 13 13 false) (new_tank 13 1 true) =
      Some (seen, if seen then set_direction (new_tank 13 13 false) (toward (new_tank 13 13 false) (new_tank 13 1 true))
                  else new_tank 13 13 false) ∧
    (seen = true ↔ line_of_sight empty_maze (new_tank 13 13 false) (new_tank 13 1 true)).
Proof.
  apply ai_can_see_player_refines; [apply empty_maze_wf|reflexivity|reflexivity].
Defined.

Lemma ai_move_fires_witness :
  ai_move (Rng := list Z) empty_maze (new_tank 13 13 false) (new_tank 13 1 true) no_bullets [] =
    Some (mkTank 13 13 false UP, append_bullet no_bullets (mkBullet 13 13 UP false), []).
Proof.
  apply (ai_move_fires empty_maze (new_tank 13 13 false) (new_tank 13 1 true) no_bullets []).
  - apply empty_maze_wf.
  - reflexivity.
  - reflexivity.
  - apply (bool_decide_unpack _). vm_compute. exact I.
Defined.

Lemma ai_move_unseen_witness :
  ∃ m ai', ai_move (Rng := list Z) empty_maze (new_tank 13 13 false) (new_tank 1 1 true) no_bullets [2] =
      Some (ai', no_bullets, (shuffle ai_moves [2]).2) ∧
    m ∈ ai_moves ∧ ai' = stepped (new_tank 13 13 false) m ∧
    maze_get empty_maze (tank_x ai') (tank_y ai') = Some 0.
Proof.
  destruct (ai_move_unseen empty_maze (new_tank 13 13 false) (new_tank 1 1 true) no_bullets [2])
    as [Hsteps _].
  - apply empty_maze_wf.
  - reflexivity.
  - reflexivity.
  - apply (bool_decide_unpack _). vm_compute. exact I.
  - apply Hsteps. exists (-1, 0). split; [by left|reflexivity].
Defined.

Lemma ai_move_invariant_witness :
  ∃ ai' bs' s', ai_move (Rng := list Z) empty_maze (new_tank 13 13 false) (new_tank 13 1 true)
      no_bullets [] = Some (ai', bs', s') ∧ on_board ai' ∧ bullets_wf bs'.
Proof.
  destruct (ai_move (Rng := list Z) empty_maze (new_tank 13 13 false) (new_tank 13 1 true) no_bullets [])
    as [[[ai' bs'] s']|] eqn:E; [|vm_compute in E; discriminate E].
  destruct (ai_move_invariant empty_maze (new_tank 13 13 false) (new_tank 13 1 true) no_bullets []
              ai' bs' s') as (Hb & _ & _ & Hwf & _).
  - apply empty_maze_wf.
  - reflexivity.
  - reflexivity.
  - apply no_bullets_wf.
  - exact E.
  - exists ai', bs', s'. split_and!; [reflexivity|exact Hb|exact Hwf].
Defined.

Lemma ai_move_same_cell_witness :
  ai_move (Rng := list Z) empty_maze (mkTank 5 5 false UP) (mkTank 5 5 true LEFT) no_bullets [] =
    Some (mkTank 5 5 false RIGHT, append_bullet no_bullets (mkBullet 5 5 RIGHT false), []).
Proof.
  apply (ai_move_same_cell empty_maze (mkTank 5 5 false UP) (mkTank 5 5 true LEFT) no_bullets []);
    reflexivity.
Defined.

End Vision.
