(* ===== verification/Random.v ===== *)
(** * Random: [random.randint] and [random.shuffle] as CPython 3.11
    writes them (Lib/random.py), over the primitive [_randbelow]

    The script calls [random.randint(0, COLS - 1)] and
    [random.randint(0, ROWS - 1)] in [generate_maze] and
    [random.shuffle(moves)] in [ai_move].  In CPython both are Python
    code above one primitive, [_randbelow(n)], a draw in [range(n)]:
    [randint(a, b)] is [randrange(a, b + 1)], which raises [ValueError]
    on an empty range and otherwise returns [a + _randbelow(b + 1 - a)];
    [shuffle(x)] is the Fisher-Yates loop
    [for i in reversed(range(1, len(x))): j = _randbelow(i + 1);
     x[i], x[j] = x[j], x[i]].
    Section [cpython] translates these over any [_randbelow] given as a
    partial function ([None] when it does not return a draw), so that
    [Mersenne] can plug in CPython's own generator.  The game's files
    use the total interface [RandomSource] of [Prelude]; the instance
    [cpython_random] builds it from a total [_randbelow], and the
    theorems below show that it agrees with the translated code, which
    never raises on the game's calls, and that it satisfies the laws
    [RandomLaws] the game's proofs assume.  Over a tape of draws
    ([tape_below]) the section [fisher_yates] shows that the loop of
    [shuffle] is the Fisher-Yates shuffle: on distinct elements each
    permutation comes from exactly one sequence of draws, so with
    uniform draws the shuffle is uniform. *)

From stdpp Require Import base list.
From Stdlib Require Import ZArith Lia.
From S2P Require Import Prelude Grid Tank Vision.
Import Grid Vision.

Module Random.
Local Open Scope py_scope.
Local Open Scope Z_scope.

Section cpython.
Context {St : Type} (randbelow : Z → St → option (Z * St)).

(** [randrange(start, stop)] (step 1): [ValueError] on an empty range. *)
Definition randrange (start stop : Z) (s : St) : option (Z * St) :=
  let width := stop - start in
  if 0 <? width then randbelow width s ≫= λ r : Z * St, Some (start + r.1, r.2)
  else None.

(** [randint(a, b)]: [return self.randrange(a, b+1)]. *)
Definition randint (a b : Z) (s : St) : option (Z * St) := randrange a (b + 1) s.

(** The loop of [shuffle] over the indices [i] it visits: the draw
    [j = randbelow(i + 1)], then the tuple assignment
    [x[i], x[j] = x[j], x[i]], whose right side is read first. *)
Fixpoint shuffle_loop {A} (idx : list Z) (x : list A) (s : St) : option (list A * St) :=
  match idx with
  | [] => Some (x, s)
  | i :: idx' =>
      randbelow (i + 1) s ≫= λ r : Z * St,
      let j := r.1 in
      xj ← x.[j]; xi ← x.[i];
      x1 ← py_set x i xj;
      x2 ← py_set x1 j xi;
      shuffle_loop idx' x2 r.2
  end.

(** [shuffle(x)]: the indices [reversed(range(1, len(x)))]. *)
Definition shuffle {A} (x : list A) (s : St) : option (list A * St) :=
  shuffle_loop (reverse (py_range 1 (Z.of_nat (length x)))) x s.
End cpython.

(** A total [_randbelow], the primitive of the game's interface. *)
Class RandBelow (St : Type) := randbelow_total : Z → St → Z * St.

Class RandBelowLaws (St : Type) `{RandBelow St} :=
  randbelow_range n s : 0 < n → 0 <= (randbelow_total n s).1 < n.

Definition as_partial {St : Type} `{RandBelow St} (n : Z) (s : St) : option (Z * St) :=
  Some (randbelow_total n s).

(** The game's [RandomSource] from a total [_randbelow]: [randint] on a
    non-empty range and [shuffle] as CPython computes them (the default
    of [from_option] is never taken, by [cpython_shuffle_total]). *)
#[export] Instance cpython_random {St : Type} `{RandBelow St} : RandomSource St := {|
  Prelude.randint a b s := let r := randbelow_total (b + 1 - a) s in (a + r.1, r.2);
  Prelude.shuffle l s := from_option id (l, s) (shuffle as_partial l s)
|}.

(** ** Draw tapes

    A [_randbelow] that returns the draws of a tape: [j] when it lies in
    [range(n)], and no draw otherwise.  Quantifying over tapes
    quantifies over every sequence of results [_randbelow] can give, so
    that the distribution of [shuffle] is a counting argument. *)
Definition tape_below (n : Z) (tape : list Z) : option (Z * list Z) :=
  match tape with
  | j :: tape' => if bool_decide (0 <= j < n) then Some (j, tape') else None
  | [] => None
  end.

(** The indices [reversed(range(1, n))] of the loop of [shuffle]. *)
Definition rev_idx (n : nat) : list Z := reverse (py_range 1 (Z.of_nat n)).

(** The swap of [x[i], x[j] = x[j], x[i]] at [i = len(a')] on the list
    [a' ++ z :: b]: the prefix it leaves and the element it puts at
    [i]; [j = i] leaves the list alone. *)
Definition swap_last {A} (a' : list A) (z : A) (j : Z) : list A * A :=
  match a' !! Z.to_nat j with
  | Some y => (<[Z.to_nat j := z]> a', y)
  | None => (a', z)
  end.

(** ** Lemmas *)

Section cpython_lemmas.
Context {St : Type} (randbelow : Z → St → option (Z * St)).
Hypothesis randbelow_ok : ∀ n s, 0 < n → ∃ r s', randbelow n s = Some (r, s') ∧ 0 <= r < n.

Lemma randint_ok a b s :
  a <= b → ∃ r s', randint randbelow a b s = Some (r, s') ∧ a <= r <= b.
Proof.
  intros Hab. unfold randint, randrange.
  rewrite (proj2 (Z.ltb_lt _ _)) by lia.
  destruct (randbelow_ok (b + 1 - a) s) as (r & s' & -> & Hr); [lia|].
  eexists _, _. split; [done|]. simpl. lia.
Qed.

Lemma randint_empty a b s : b < a → randint randbelow a b s = None.
Proof. intros Hab. unfold randint, randrange. by rewrite (proj2 (Z.ltb_ge _ _)) by lia. Qed.

(** One swap of the loop is a permutation of the list. *)
Lemma shuffle_loop_perm {A} (idx : list Z) (x : list A) s :
  (∀ i, i ∈ idx → 0 <= i < Z.of_nat (length x)) →
  ∃ x' s', shuffle_loop randbelow idx x s = Some (x', s') ∧ x' ≡ₚ x.
Proof.
  revert x s. induction idx as [|i idx IH]; intros x s Hin; simpl; [by eexists _, _|].
  assert (Hi : 0 <= i < Z.of_nat (length x)) by (apply Hin; by left).
  destruct (randbelow_ok (i + 1) s) as (j & s1 & -> & Hj); [lia|]. cbn [mbind option_bind fst snd].
  destruct (lookup_lt_is_Some_2 x (Z.to_nat j)) as [xj Hxj]; [lia|].
  destruct (lookup_lt_is_Some_2 x (Z.to_nat i)) as [xi Hxi]; [lia|].
  rewrite (py_get_in_range x j), Hxj by lia. cbn [mbind option_bind].
  rewrite (py_get_in_range x i), Hxi by lia. cbn [mbind option_bind].
  rewrite py_set_in_range by lia. cbn [mbind option_bind].
  rewrite py_set_in_range by (rewrite length_insert; lia). cbn [mbind option_bind].
  destruct (IH (<[Z.to_nat j:=xi]> (<[Z.to_nat i:=xj]> x)) s1) as (x' & s' & -> & Hp).
  { intros i' Hi'. rewrite !length_insert. apply Hin. by right. }
  eexists _, _. split; [done|]. rewrite Hp. by apply Permutation_insert_swap.
Qed.

Lemma shuffle_ok {A} (x : list A) s :
  ∃ x' s', shuffle randbelow x s = Some (x', s') ∧ x' ≡ₚ x.
Proof.
  apply shuffle_loop_perm. intros i Hi.
  apply elem_of_reverse, elem_of_py_range in Hi. lia.
Qed.
End cpython_lemmas.

Section instance_lemmas.
Context {St : Type} `{RandBelowLaws St}.

Lemma as_partial_ok n s : 0 < n → ∃ r s', as_partial n s = Some (r, s') ∧ 0 <= r < n.
Proof.
  intros Hn. exists (randbelow_total n s).1, (randbelow_total n s).2.
  split; [unfold as_partial; by destruct (randbelow_total n s)|by apply randbelow_range].
Qed.

Lemma cpython_shuffle_total (x : list (Z * Z)) s :
  shuffle as_partial x s = Some (Prelude.shuffle x s).
Proof.
  destruct (shuffle_ok as_partial as_partial_ok x s) as (x' & s' & Hs & _).
  simpl. by rewrite Hs.
Qed.
End instance_lemmas.

#[export] Instance cpython_random_laws {St : Type} `{RandBelowLaws St} : RandomLaws St.
Proof.
  split.
  - intros a b s Hab. simpl. pose proof (randbelow_range (b + 1 - a) s). lia.
  - intros l s. simpl.
    destruct (shuffle_ok as_partial as_partial_ok l s) as (x' & s' & Hs & Hp).
    by rewrite Hs.
Qed.

(** ** The interface and the code *)

(** CPython's [randint] and [shuffle] over a [_randbelow] that draws
    in [range(n)] compute what the interface [RandomSource] computes:
    [randint(a, b)] returns the interface's draw when [a <= b] and
    raises [ValueError] otherwise, [shuffle] never raises; the laws
    the game's proofs assume hold of them. *)
Lemma cpython_randint_shuffle_spec {St : Type} `{RandBelowLaws St} a b (l : list (Z * Z)) (s : St) :
  randint as_partial a b s = (if bool_decide (a <= b) then Some (Prelude.randint a b s) else None) ∧
  shuffle as_partial l s = Some (Prelude.shuffle l s) ∧
  (a <= b → a <= (Prelude.randint a b s).1 <= b) ∧ (Prelude.shuffle l s).1 ≡ₚ l.
Proof.
  split_and!; [|apply cpython_shuffle_total|apply randint_range|apply shuffle_perm].
  unfold randint, randrange, as_partial. case_bool_decide.
  - by rewrite (proj2 (Z.ltb_lt _ _)) by lia.
  - by rewrite (proj2 (Z.ltb_ge _ _)) by lia.
Qed.

(** ** Fisher-Yates *)

Lemma rev_idx_S n : (1 <= n)%nat → rev_idx (S n) = Z.of_nat n :: rev_idx n.
Proof.
  intros Hn. destruct n as [|n']; [lia|]. unfold rev_idx, py_range.
  replace (Z.of_nat (S (S n')) - 1) with (Z.of_nat (S n')) by lia.
  replace (Z.of_nat (S n') - 1) with (Z.of_nat n') by lia.
  rewrite seqZ_S, reverse_snoc. f_equal. lia.
Qed.

Section fisher_yates.
Context {A : Type}.
Implicit Types (a b p : list A).

Lemma swap_last_spec a' z j :
  0 <= j <= Z.of_nat (length a') →
  (a' ++ [z]) !! Z.to_nat j = Some (swap_last a' z j).2 ∧
  a' ++ [z] ≡ₚ (swap_last a' z j).1 ++ [(swap_last a' z j).2] ∧
  length (swap_last a' z j).1 = length a'.
Proof.
  intros Hj. unfold swap_last.
  destruct (a' !! Z.to_nat j) as [y|] eqn:Ey; cbn [fst snd].
  - split_and!; [by apply lookup_app_l_Some| |by rewrite length_insert].
    pose proof (take_drop_middle a' (Z.to_nat j) y Ey) as Hsplit.
    rewrite insert_take_drop by (apply lookup_lt_Some in Ey; lia).
    rewrite <-Hsplit at 1.
    rewrite <-!app_assoc. apply Permutation_app_head. simpl.
    simpl. rewrite (Permutation_app_comm _ [z]), (Permutation_app_comm _ [y]). apply perm_swap.
  - apply lookup_ge_None_1 in Ey. split_and!; [|done|done].
    apply list_lookup_middle. lia.
Qed.

Lemma fy_step a' z b j tape :
  a' ≠ [] →
  shuffle_loop tape_below (rev_idx (S (length a'))) (a' ++ z :: b) (j :: tape) =
    if bool_decide (0 <= j <= Z.of_nat (length a'))
    then shuffle_loop tape_below (rev_idx (length a'))
           ((swap_last a' z j).1 ++ (swap_last a' z j).2 :: b) tape
    else None.
Proof.
  intros Hne. assert (Hl : (1 <= length a')%nat) by (destruct a'; [done|simpl; lia]).
  rewrite rev_idx_S by done. cbn [shuffle_loop tape_below].
  case_bool_decide as Hj1; case_bool_decide as Hj2; try lia; cbn [mbind option_bind fst snd]; [|done].
  assert (Hlen : length (a' ++ z :: b) = (length a' + S (length b))%nat) by (rewrite length_app; done).
  assert (Hz : (a' ++ z :: b) !! length a' = Some z) by (by apply list_lookup_middle).
  rewrite (py_get_in_range _ (Z.of_nat (length a'))), Nat2Z.id, Hz by lia. cbn [mbind option_bind].
  unfold swap_last. destruct (a' !! Z.to_nat j) as [y|] eqn:Ey; cbn [fst snd].
  - rewrite py_get_in_range, (lookup_app_l_Some _ _ _ _ Ey) by lia. cbn [mbind option_bind].
    rewrite py_set_in_range, Nat2Z.id by lia. cbn [mbind option_bind].
    rewrite insert_app_r_alt, Nat.sub_diag by lia. simpl.
    rewrite py_set_in_range, insert_app_l by (rewrite ?length_app; simpl; apply lookup_lt_Some in Ey; lia).
    done.
  - apply lookup_ge_None_1 in Ey. assert (j = Z.of_nat (length a')) as -> by lia.
    rewrite py_get_in_range, Nat2Z.id, Hz by lia. cbn [mbind option_bind].
    rewrite py_set_in_range, Nat2Z.id, list_insert_id by (done || lia). cbn [mbind option_bind].
    rewrite py_set_in_range, Nat2Z.id, list_insert_id by (done || lia). done.
Qed.

Lemma swap_last_hit a' z y :
  y ∈ a' ++ [z] → ∃ j, 0 <= j <= Z.of_nat (length a') ∧ (swap_last a' z j).2 = y.
Proof.
  intros (k & Hk)%list_elem_of_lookup_1.
  assert (Hlt : (k < length a' + 1)%nat) by (apply lookup_lt_Some in Hk; by rewrite length_app in Hk).
  exists (Z.of_nat k). split; [lia|].
  destruct (swap_last_spec a' z (Z.of_nat k)) as (Hs & _ & _); [lia|].
  rewrite Nat2Z.id, Hk in Hs. by injection Hs.
Qed.

Lemma fy_nil_tape a' z b :
  a' ≠ [] → shuffle_loop tape_below (rev_idx (S (length a'))) (a' ++ z :: b) [] = None.
Proof.
  intros Hne. rewrite rev_idx_S by (destruct a'; [done|simpl; lia]). done.
Qed.

(** A run of the loop on [a ++ b] draws [length a - 1] times, leaves
    [b] in place and permutes [a]. *)
Lemma fy_run n : ∀ a b tape p rest, length a = n →
  shuffle_loop tape_below (rev_idx n) (a ++ b) tape = Some (p, rest) →
  ∃ ds p0, tape = ds ++ rest ∧ length ds = pred n ∧ p = p0 ++ b ∧ p0 ≡ₚ a.
Proof.
  induction n as [|n IH]; intros a b tape p rest Hn.
  - destruct a; [|done]. intros [= <- <-]. by exists [], [].
  - destruct a as [|z a' _] using rev_ind; [done|]. rewrite length_app, Nat.add_1_r in Hn. injection Hn as <-.
    destruct (decide (a' = [])) as [->|Hne].
    { intros [= <- <-]. by exists [], [z]. }
    rewrite <-app_assoc. cbn [app]. destruct tape as [|j tape]; [by rewrite fy_nil_tape|].
    rewrite fy_step by done. case_bool_decide as Hj; [|done]. intros Hrun.
    destruct (swap_last_spec a' z j Hj) as (_ & Hperm & Hlen).
    destruct (IH _ _ _ _ _ Hlen Hrun)
      as (ds & p0 & -> & Hds & -> & Hp0).
    exists (j :: ds), (p0 ++ [(swap_last a' z j).2]). split_and!; [done| |by rewrite <-app_assoc|].
    + simpl. rewrite Hds. destruct a'; [done|simpl; lia].
    + by rewrite Hperm, Hp0.
Qed.

(** Every permutation of [a] is the result of some run. *)
Lemma fy_exists n : ∀ a b p rest, length a = n → p ≡ₚ a →
  ∃ ds, shuffle_loop tape_below (rev_idx n) (a ++ b) (ds ++ rest) = Some (p ++ b, rest).
Proof.
  induction n as [|n IH]; intros a b p rest Hn Hp.
  - destruct a; [|done]. apply Permutation_nil_r in Hp as ->. by exists [].
  - destruct a as [|z a' _] using rev_ind; [done|]. rewrite length_app, Nat.add_1_r in Hn. injection Hn as <-.
    destruct (decide (a' = [])) as [->|Hne].
    { simpl in Hp. symmetry in Hp. apply Permutation_length_1_inv in Hp as ->. by exists []. }
    destruct p as [|pl p' _] using rev_ind; [apply Permutation_length in Hp; rewrite length_app in Hp; simpl in Hp; lia|].
    destruct (swap_last_hit a' z pl) as (j & Hj & Hy); [rewrite <-Hp; apply elem_of_app; right; by apply list_elem_of_singleton|].
    destruct (swap_last_spec a' z j Hj) as (_ & Hperm & Hlen).
    rewrite Hy in Hperm. rewrite Hperm in Hp. apply Permutation_app_inv_r in Hp.
    destruct (IH _ (pl :: b) p' rest Hlen Hp) as [ds Hrun].
    exists (j :: ds). rewrite <-!app_assoc. cbn [app].
    by rewrite fy_step, bool_decide_eq_true_2, Hy by done.
Qed.

(** On a list of distinct elements, the run is fixed by its result. *)
Lemma fy_unique n : ∀ a b t1 t2 p r1 r2, length a = n → NoDup a →
  shuffle_loop tape_below (rev_idx n) (a ++ b) t1 = Some (p, r1) →
  shuffle_loop tape_below (rev_idx n) (a ++ b) t2 = Some (p, r2) →
  ∃ ds, t1 = ds ++ r1 ∧ t2 = ds ++ r2.
Proof.
  induction n as [|n IH]; intros a b t1 t2 p r1 r2 Hn Hnd.
  - destruct a; [|done]. intros [= _ <-] [= _ <-]. by exists [].
  - destruct a as [|z a' _] using rev_ind; [done|]. rewrite length_app, Nat.add_1_r in Hn. injection Hn as <-.
    destruct (decide (a' = [])) as [->|Hne].
    { intros [= _ <-] [= _ <-]. by exists []. }
    rewrite <-app_assoc. cbn [app].
    destruct t1 as [|j1 t1]; [by rewrite fy_nil_tape|]. destruct t2 as [|j2 t2]; [by rewrite fy_nil_tape|].
    rewrite !fy_step by done. case_bool_decide as Hj1; [|done]. case_bool_decide as Hj2; [|done].
    intros H1 H2.
    destruct (swap_last_spec a' z j1 Hj1) as (Hs1 & Hperm1 & Hlen1).
    destruct (swap_last_spec a' z j2 Hj2) as (Hs2 & _ & Hlen2).
    destruct (fy_run _ _ _ _ _ _ Hlen1 H1) as (_ & p1 & _ & _ & Hp1 & Hq1).
    destruct (fy_run _ _ _ _ _ _ Hlen2 H2) as (_ & p2 & _ & _ & Hp2 & Hq2).
    rewrite Hp1 in Hp2. apply app_inj_1 in Hp2 as [_ [= Hy]];
      [|by rewrite (Permutation_length Hq1), (Permutation_length Hq2), Hlen1, Hlen2].
    rewrite <-Hy in Hs2. assert (j1 = j2) as <-.
    { pose proof (NoDup_lookup _ _ _ _ Hnd Hs1 Hs2). lia. }
    assert (Hnd1 : NoDup (swap_last a' z j1).1).
    { rewrite Hperm1 in Hnd. by apply NoDup_app in Hnd as (? & _ & _). }
    destruct (IH _ _ _ _ _ _ _ Hlen1 Hnd1 H1 H2) as (ds & -> & ->). by exists (j1 :: ds).
Qed.

(** Fisher-Yates is uniform: on distinct elements, each permutation of
    the list is the result of exactly one sequence of draws, the draw
    of step [i] in [range(i + 1)]. *)
Lemma shuffle_uniform (x p : list A) :
  NoDup x → (p ≡ₚ x ↔ exists! tape, shuffle tape_below x tape = Some (p, [])).
Proof.
  intros Hnd. unfold shuffle. change (reverse (py_range 1 (Z.of_nat (length x)))) with (rev_idx (length x)).
  split.
  - intros Hp. destruct (fy_exists _ x [] p [] eq_refl Hp) as [ds Hrun].
    rewrite !app_nil_r in Hrun. exists ds. split; [done|]. intros t Ht.
    destruct (fy_unique _ x [] ds t p [] [] eq_refl Hnd) as (ds' & -> & ->); by rewrite ?app_nil_r.
  - intros (t & Ht & _).
    destruct (fy_run _ x [] t p [] eq_refl) as (_ & p0 & _ & _ & -> & Hp0); by rewrite ?app_nil_r.
Qed.
End fisher_yates.

(** C33: [random.shuffle(moves)] in [ai_move] is uniform: each of the
    24 orders of the four moves is the result of exactly one sequence
    of draws of [_randbelow] (the draw for [i = 3, 2, 1] in
    [range(i + 1)]), so when each draw is uniform in its range every
    order has probability 1/24; and every result is such an order. *)
Theorem shuffle_moves_uniform p :
  p ≡ₚ ai_moves ↔ exists! tape, shuffle tape_below ai_moves tape = Some (p, []).
Proof. apply shuffle_uniform. apply (bool_decide_unpack _). by vm_compute. Qed.

Lemma shuffle_moves_uniform_witness :
  exists! tape, shuffle tape_below ai_moves tape = Some ([(0, 1); (0, -1); (1, 0); (-1, 0)], []).
Proof. apply shuffle_moves_uniform. apply (bool_decide_unpack _). vm_compute. reflexivity. Defined.

End Random.
