(* ===== verification/Mersenne.v ===== *)
(** * Mersenne: CPython's generator, MT19937 (Modules/_randommodule.c)
    with the seeding of [random.seed], [getrandbits] and
    [_randbelow_with_getrandbits] (Lib/random.py)

    The module-level functions [random.randint] and [random.shuffle]
    of the script are bound methods of one hidden [random.Random]
    object, seeded at import from [os.urandom]; its state is the C
    struct [RandomObject]: [uint32_t state[624]] and an [index].  The
    words are [uint32_t], so every sum and product wraps modulo 2^32
    ([u32]); the shifts and masks are [Z.shiftr], [Z.shiftl], [Z.land],
    [Z.lor], [Z.lxor].  [init_genrand] and [init_by_array] are the
    seeding routines, [seed] is [random.seed(n)] on an integer and
    [seed_urandom] the seeding at import from 624 words of
    [os.urandom]; [genrand_uint32] (with [twist], its three loops
    written as one with the indices [next] and [partner]) draws a
    word, [getrandbits] assembles [k] bits, and [randbelow] is
    [_randbelow_with_getrandbits]: draw [n.bit_length()] bits and try
    again while the draw is [>= n].  That loop ends with probability 1
    but on no bound the code fixes, so [randbelow] carries a fuel (the
    number of redraws it may make) and returns [None] when the fuel
    runs out; [randbelow_first_below] shows that it returns exactly the
    first draw below [n] whenever that draw is within the fuel.  The
    examples at the end check the model against CPython 3.11. *)

From stdpp Require Import base list.
From Stdlib Require Import ZArith Lia.
From S2P Require Import Prelude Grid Random.
Import Grid.

Module Mersenne.
Local Open Scope Z_scope.

Definition N : nat := 624.
Definition M : nat := 397.
Definition MATRIX_A : Z := 0x9908b0df.
Definition UPPER_MASK : Z := 0x80000000.
Definition LOWER_MASK : Z := 0x7fffffff.

(** [uint32_t] arithmetic: the result modulo 2^32. *)
Definition u32 (z : Z) : Z := z mod 2 ^ 32.

(** [RandomObject]: [uint32_t state[N]] and [int index]. *)
Record MTState := mkMT { state : list Z; index : nat }.

(** ** Seeding *)

(** The loop of [init_genrand]:
    [mt[mti] = (1812433253U * (mt[mti-1] ^ (mt[mti-1] >> 30)) + mti)]. *)
Fixpoint init_genrand_from (prev : Z) (mti : nat) (count : nat) : list Z :=
  match count with
  | O => []
  | S c =>
      let v := u32 (1812433253 * Z.lxor prev (Z.shiftr prev 30) + Z.of_nat mti) in
      v :: init_genrand_from v (S mti) c
  end.

(** [init_genrand(self, s)]: [mt[0] = s], then the loop up to [N]. *)
Definition init_genrand (s : Z) : list Z := s :: init_genrand_from s 1 (N - 1).

(** [i++; if (i>=N) { mt[0] = mt[N-1]; i=1; }] *)
Definition wrap_i (mt : list Z) (i : nat) : list Z * nat :=
  if decide (N <= S i)%nat then (<[0%nat := mt !!! (N - 1)%nat]> mt, 1%nat) else (mt, S i).

(** The first loop of [init_by_array]:
    [mt[i] = (mt[i] ^ ((mt[i-1] ^ (mt[i-1] >> 30)) * 1664525U)) + init_key[j] + j]. *)
Fixpoint init_by_array_loop1 (k : nat) (key : list Z) (mt : list Z) (i j : nat) : list Z * nat :=
  match k with
  | O => (mt, i)
  | S k' =>
      let p := mt !!! (i - 1)%nat in
      let v := u32 (Z.lxor (mt !!! i) (u32 (Z.lxor p (Z.shiftr p 30) * 1664525))
                    + key !!! j + Z.of_nat j) in
      let r := wrap_i (<[i := v]> mt) i in
      let j' := if decide (length key <= S j)%nat then 0%nat else S j in
      init_by_array_loop1 k' key r.1 r.2 j'
  end.

(** The second loop:
    [mt[i] = (mt[i] ^ ((mt[i-1] ^ (mt[i-1] >> 30)) * 1566083941U)) - i]. *)
Fixpoint init_by_array_loop2 (k : nat) (mt : list Z) (i : nat) : list Z :=
  match k with
  | O => mt
  | S k' =>
      let p := mt !!! (i - 1)%nat in
      let v := u32 (Z.lxor (mt !!! i) (u32 (Z.lxor p (Z.shiftr p 30) * 1566083941)) - Z.of_nat i) in
      let r := wrap_i (<[i := v]> mt) i in
      init_by_array_loop2 k' r.1 r.2
  end.

(** [init_by_array(self, init_key, key_length)]; the index stays the
    [N] that [init_genrand] leaves. *)
Definition init_by_array (key : list Z) : MTState :=
  let r := init_by_array_loop1 (Nat.max N (length key)) key (init_genrand 19650218) 1 0 in
  mkMT (<[0%nat := UPPER_MASK]> (init_by_array_loop2 (N - 1) r.1 r.2)) N.

(** [n.bit_length()] *)
Definition bit_length (n : Z) : Z := if n =? 0 then 0 else Z.log2 (Z.abs n) + 1.

(** The key of [random_seed] for an integer: [abs(n)] cut into 32-bit
    words from the least significant, at least one. *)
Fixpoint key_words (w : nat) (n : Z) : list Z :=
  match w with
  | O => []
  | S w' => Z.land n (2 ^ 32 - 1) :: key_words w' (Z.shiftr n 32)
  end.

Definition seed_key (a : Z) : list Z :=
  let n := Z.abs a in
  let bits := bit_length n in
  let keyused := if bits =? 0 then 1 else (bits - 1) / 32 + 1 in
  key_words (Z.to_nat keyused) n.

(** [random.seed(a)] for an integer [a]. *)
Definition seed (a : Z) : MTState := init_by_array (seed_key a).

(** [random_seed_urandom]: the seeding at import, from [N] words of
    [os.urandom]. *)
Definition seed_urandom (key : list Z) : MTState := init_by_array key.

(** ** Drawing *)

Definition next (kk : nat) : nat := if decide (kk = N - 1)%nat then 0%nat else S kk.

(** [kk+M] in the first loop, [kk+(M-N)] in the second, [M-1] for the
    last word. *)
Definition partner (kk : nat) : nat := if decide (kk < N - M)%nat then (kk + M)%nat else (kk + M - N)%nat.

(** One word of the regeneration: [y = (mt[kk]&UPPER_MASK)|(mt[kk+1]&LOWER_MASK);
    mt[kk] = mt[partner] ^ (y >> 1) ^ mag01[y & 0x1U]]. *)
Definition twist_word (mt : list Z) (kk : nat) : Z :=
  let y := Z.lor (Z.land (mt !!! kk) UPPER_MASK) (Z.land (mt !!! next kk) LOWER_MASK) in
  Z.lxor (Z.lxor (mt !!! partner kk) (Z.shiftr y 1)) (if Z.land y 1 =? 0 then 0 else MATRIX_A).

(** The loops over [kk] from 0 to [N-1], in place. *)
Fixpoint twist_loop (kks : list nat) (mt : list Z) : list Z :=
  match kks with
  | [] => mt
  | kk :: rest => twist_loop rest (<[kk := twist_word mt kk]> mt)
  end.

Definition twist (mt : list Z) : list Z := twist_loop (seq 0 N) mt.

(** The tempering; [(y << 7) & 0x9d2c5680U] keeps no bit above 31, so
    the shift need not be truncated first. *)
Definition temper (y : Z) : Z :=
  let y1 := Z.lxor y (Z.shiftr y 11) in
  let y2 := Z.lxor y1 (Z.land (Z.shiftl y1 7) 0x9d2c5680) in
  let y3 := Z.lxor y2 (Z.land (Z.shiftl y2 15) 0xefc60000) in
  Z.lxor y3 (Z.shiftr y3 18).

(** [genrand_uint32(self)] *)
Definition genrand_uint32 (st : MTState) : Z * MTState :=
  let r := if decide (N <= index st)%nat then (twist (state st), 0%nat) else (state st, index st) in
  (temper (r.1 !!! r.2), mkMT r.1 (S r.2)).

(** The words of [getrandbits] for [k > 32], least significant first;
    the last keeps its top [k] bits. *)
Fixpoint getrandbits_words (w : nat) (k : Z) (st : MTState) : Z * MTState :=
  match w with
  | O => (0, st)
  | S w' =>
      let r := genrand_uint32 st in
      let word := if k <? 32 then Z.shiftr r.1 (32 - k) else r.1 in
      let hi := getrandbits_words w' (k - 32) r.2 in
      (word + hi.1 * 2 ^ 32, hi.2)
  end.

(** [getrandbits(k)]: [ValueError] for [k < 0]. *)
Definition getrandbits (k : Z) (st : MTState) : option (Z * MTState) :=
  if k <? 0 then None
  else if k =? 0 then Some (0, st)
  else if k <=? 32 then
    let r := genrand_uint32 st in Some (Z.shiftr r.1 (32 - k), r.2)
  else Some (getrandbits_words (Z.to_nat ((k - 1) / 32 + 1)) k st).

(** [while r >= n: r = getrandbits(k)], with at most [fuel] redraws. *)
Fixpoint randbelow_loop (fuel : nat) (n k r : Z) (st : MTState) : option (Z * MTState) :=
  if r <? n then Some (r, st)
  else match fuel with
       | O => None
       | S f => getrandbits k st ≫= λ p : Z * MTState, randbelow_loop f n k p.1 p.2
       end.

(** [_randbelow_with_getrandbits(n)]. *)
Definition randbelow (fuel : nat) (n : Z) (st : MTState) : option (Z * MTState) :=
  let k := bit_length n in
  getrandbits k st ≫= λ p : Z * MTState, randbelow_loop fuel n k p.1 p.2.

(** ** Machine words *)

Definition is_u32 (z : Z) : Prop := 0 <= z < 2 ^ 32.

#[export] Instance is_u32_dec z : Decision (is_u32 z).
Proof. unfold is_u32. apply _. Defined.

(** The state of a [RandomObject]: [N] words of 32 bits and an index
    at most [N]. *)
Definition mt_wf (st : MTState) : Prop :=
  length (state st) = N ∧ Forall is_u32 (state st) ∧ (index st <= N)%nat.

#[export] Instance mt_wf_dec st : Decision (mt_wf st).
Proof. unfold mt_wf. apply _. Defined.

Create HintDb u32 discriminated.

Lemma u32_range z : is_u32 (u32 z).
Proof. unfold is_u32, u32. apply Z.mod_pos_bound. lia. Qed.

Lemma is_u32_shiftr x : 0 <= x → x < 2 ^ 32 ↔ Z.shiftr x 32 = 0.
Proof.
  intros Hx. rewrite Z.shiftr_div_pow2 by lia.
  rewrite Z.div_small_iff by lia. lia.
Qed.

(** A non-negative value is a word exactly when nothing is left above
    bit 31; the bit operations below are proved through this. *)
Lemma is_u32_bits x : is_u32 x ↔ 0 <= x ∧ Z.shiftr x 32 = 0.
Proof.
  unfold is_u32. split.
  - intros Hx. split; [lia|]. by apply is_u32_shiftr; lia.
  - intros [Hx Hs]. split; [lia|]. by apply is_u32_shiftr.
Qed.

Lemma lxor_u32 a b : is_u32 a → is_u32 b → is_u32 (Z.lxor a b).
Proof.
  rewrite !is_u32_bits. intros [Ha Ha'] [Hb Hb']. split.
  - apply Z.lxor_nonneg. lia.
  - by rewrite Z.shiftr_lxor, Ha', Hb'.
Qed.

Lemma lor_u32 a b : is_u32 a → is_u32 b → is_u32 (Z.lor a b).
Proof.
  rewrite !is_u32_bits. intros [Ha Ha'] [Hb Hb']. split.
  - apply Z.lor_nonneg. lia.
  - by rewrite Z.shiftr_lor, Ha', Hb'.
Qed.

Lemma land_u32 a m : 0 <= a → is_u32 m → is_u32 (Z.land a m).
Proof.
  rewrite !is_u32_bits. intros Ha [Hm Hm']. split.
  - apply Z.land_nonneg. lia.
  - by rewrite Z.shiftr_land, Hm', Z.land_0_r.
Qed.

Lemma shiftr_u32 a n : is_u32 a → 0 <= n → is_u32 (Z.shiftr a n).
Proof.
  unfold is_u32. intros Ha Hn. rewrite Z.shiftr_div_pow2 by done.
  assert (0 < 2 ^ n) by (apply Z.pow_pos_nonneg; lia). split.
  - apply Z.div_pos; lia.
  - apply Z.div_lt_upper_bound; nia.
Qed.

Lemma lookup_total_u32 l i : Forall is_u32 l → is_u32 (l !!! i).
Proof.
  intros Hl. rewrite list_lookup_total_alt.
  destruct (l !! i) eqn:E; simpl; [by eapply Forall_lookup_1|].
  change (is_u32 1). unfold is_u32. lia.
Qed.

Lemma u32_consts : is_u32 0 ∧ is_u32 MATRIX_A ∧ is_u32 UPPER_MASK ∧ is_u32 LOWER_MASK ∧
  is_u32 0x9d2c5680 ∧ is_u32 0xefc60000.
Proof. unfold is_u32, MATRIX_A, UPPER_MASK, LOWER_MASK. lia. Qed.

Lemma u32_nonneg x : is_u32 x → 0 <= x.
Proof. unfold is_u32. lia. Qed.

#[export] Hint Resolve u32_range lxor_u32 lor_u32 shiftr_u32 lookup_total_u32 Forall_insert : u32.

(** Closes [is_u32] goals built from words by the bit operations. *)
Ltac u32_step :=
  match goal with
  | |- is_u32 (Z.lxor _ _) => apply lxor_u32
  | |- is_u32 (Z.lor _ _) => apply lor_u32
  | |- is_u32 (Z.land _ _) => apply land_u32
  | |- is_u32 (Z.shiftr _ _) => apply shiftr_u32
  | |- is_u32 (u32 _) => apply u32_range
  | |- is_u32 (_ !!! _) => apply lookup_total_u32
  | |- 0 <= Z.shiftl _ _ => apply Z.shiftl_nonneg
  | |- 0 <= _ => first [lia | apply u32_nonneg]
  end.

Ltac u32_solve :=
  pose proof u32_consts as (? & ? & ? & ? & ? & ?);
  repeat first [assumption | u32_step].

(** ** The operations keep the state well formed *)

Lemma twist_word_u32 mt kk : Forall is_u32 mt → is_u32 (twist_word mt kk).
Proof.
  intros Hmt. unfold twist_word.
  assert (is_u32 (Z.lor (Z.land (mt !!! kk) UPPER_MASK) (Z.land (mt !!! next kk) LOWER_MASK)))
    by u32_solve.
  apply lxor_u32; [u32_solve|]. case_match; u32_solve.
Qed.

Lemma twist_loop_wf kks mt :
  Forall is_u32 mt → length (twist_loop kks mt) = length mt ∧ Forall is_u32 (twist_loop kks mt).
Proof.
  revert mt. induction kks as [|kk kks IH]; intros mt Hmt; simpl; [done|].
  destruct (IH (<[kk:=twist_word mt kk]> mt)) as [-> ?];
    [by apply Forall_insert, twist_word_u32|].
  by rewrite length_insert.
Qed.

Lemma temper_u32 y : is_u32 y → is_u32 (temper y).
Proof. intros Hy. unfold temper. u32_solve. Qed.

Lemma genrand_uint32_wf st :
  mt_wf st → is_u32 (genrand_uint32 st).1 ∧ mt_wf (genrand_uint32 st).2.
Proof.
  intros (Hlen & Hmt & Hi). unfold genrand_uint32, mt_wf.
  destruct (decide (N <= index st)%nat); cbn [fst snd state index].
  - destruct (twist_loop_wf (seq 0 N) (state st) Hmt) as [Hl Hf]. unfold twist.
    split; [by apply temper_u32, lookup_total_u32|]. split_and!; [by rewrite Hl|done|unfold N; lia].
  - split; [by apply temper_u32, lookup_total_u32|]. split_and!; [done|done|lia].
Qed.

Lemma wrap_i_wf mt i :
  length mt = N → Forall is_u32 mt →
  length (wrap_i mt i).1 = N ∧ Forall is_u32 (wrap_i mt i).1 ∧ ((wrap_i mt i).2 <= N)%nat.
Proof.
  intros Hl Hf. unfold wrap_i. case_decide; simpl.
  - rewrite length_insert. split_and!; [done| |unfold N; lia]. apply Forall_insert; [done|]. by apply lookup_total_u32.
  - split_and!; [done|done|lia].
Qed.

Lemma init_genrand_from_wf prev mti count :
  length (init_genrand_from prev mti count) = count ∧ Forall is_u32 (init_genrand_from prev mti count).
Proof.
  revert prev mti. induction count as [|c IH]; intros prev mti; simpl; [done|].
  destruct (IH (u32 (1812433253 * Z.lxor prev (Z.shiftr prev 30) + Z.of_nat (S mti))) (S mti)) as [Hl Hf].
  split; [by rewrite (proj1 (IH _ _))|]. constructor; [apply u32_range|apply IH].
Qed.

Lemma init_by_array_loop1_wf k key mt i j :
  length mt = N → Forall is_u32 mt →
  length (init_by_array_loop1 k key mt i j).1 = N ∧ Forall is_u32 (init_by_array_loop1 k key mt i j).1.
Proof.
  revert mt i j. induction k as [|k IH]; intros mt i j Hl Hf; simpl; [done|].
  destruct (wrap_i_wf (<[i:=u32 (Z.lxor (mt !!! i) (u32 (Z.lxor (mt !!! (i - 1)%nat)
    (Z.shiftr (mt !!! (i - 1)%nat) 30) * 1664525)) + key !!! j + Z.of_nat j)]> mt) i)
    as (Hl' & Hf' & _); [by rewrite length_insert|by apply Forall_insert, u32_range|].
  by apply IH.
Qed.

Lemma init_by_array_loop2_wf k mt i :
  length mt = N → Forall is_u32 mt →
  length (init_by_array_loop2 k mt i) = N ∧ Forall is_u32 (init_by_array_loop2 k mt i).
Proof.
  revert mt i. induction k as [|k IH]; intros mt i Hl Hf; simpl; [done|].
  destruct (wrap_i_wf (<[i:=u32 (Z.lxor (mt !!! i) (u32 (Z.lxor (mt !!! (i - 1)%nat)
    (Z.shiftr (mt !!! (i - 1)%nat) 30) * 1566083941)) - Z.of_nat i)]> mt) i)
    as (Hl' & Hf' & _); [by rewrite length_insert|by apply Forall_insert, u32_range|].
  by apply IH.
Qed.

Lemma init_by_array_wf key : mt_wf (init_by_array key).
Proof.
  destruct (init_genrand_from_wf 19650218 1 (N - 1)) as [Hl0 Hf0].
  assert (Hg : length (init_genrand 19650218) = N ∧ Forall is_u32 (init_genrand 19650218)).
  { unfold init_genrand. cbn [length]. rewrite Hl0. split; [reflexivity|]. constructor; [|done]. unfold is_u32. lia. }
  destruct Hg as [Hl Hf].
  destruct (init_by_array_loop1_wf (Nat.max N (length key)) key _ 1 0 Hl Hf) as [Hl1 Hf1].
  destruct (init_by_array_loop2_wf (N - 1) _
    (init_by_array_loop1 (Nat.max N (length key)) key (init_genrand 19650218) 1 0).2 Hl1 Hf1) as [Hl2 Hf2].
  unfold init_by_array, mt_wf. cbn [state index fst snd]. rewrite length_insert. split_and!; [done| |done].
  apply Forall_insert; [done|]. apply u32_consts.
Qed.

(** ** [getrandbits] *)

Lemma shiftr_top r k : is_u32 r → k <= 32 → 0 <= Z.shiftr r (32 - k) < 2 ^ Z.max 0 k.
Proof.
  intros [Hr0 Hr1] Hk. rewrite Z.shiftr_div_pow2 by lia.
  assert (0 < 2 ^ (32 - k)) by (apply Z.pow_pos_nonneg; lia).
  split; [apply Z.div_pos; lia|]. apply Z.div_lt_upper_bound; [lia|].
  destruct (Z.le_gt_cases 0 k).
  - rewrite Z.max_r, <- Z.pow_add_r by lia. by replace (32 - k + k) with 32 by lia.
  - rewrite Z.max_l by lia. assert (2 ^ 32 <= 2 ^ (32 - k)) by (apply Z.pow_le_mono_r; lia). lia.
Qed.

Lemma getrandbits_words_range w k st :
  mt_wf st → 0 <= (getrandbits_words w k st).1 < 2 ^ Z.max 0 k ∧ mt_wf (getrandbits_words w k st).2.
Proof.
  revert k st. induction w as [|w IH]; intros k st Hwf; cbn [getrandbits_words fst snd].
  - split; [|done]. split; [lia|]. apply Z.pow_pos_nonneg; lia.
  - pose proof (genrand_uint32_wf st Hwf) as [Hr Hwf1].
    destruct (genrand_uint32 st) as [r st1]. cbn [fst snd] in *.
    destruct (IH (k - 32) st1 Hwf1) as [Hhi Hwf2]. split; [|done].
    destruct (Z.ltb_spec k 32).
    + rewrite Z.max_l in Hhi by lia. pose proof (shiftr_top r k Hr ltac:(lia)). simpl in Hhi. lia.
    + rewrite Z.max_r in Hhi by lia. rewrite Z.max_r by lia.
      replace (2 ^ k) with (2 ^ 32 * 2 ^ (k - 32)) by (rewrite <- Z.pow_add_r by lia; f_equal; lia).
      destruct Hr. nia.
Qed.

Lemma getrandbits_range k st :
  mt_wf st → 0 <= k → ∃ r st', getrandbits k st = Some (r, st') ∧ 0 <= r < 2 ^ k ∧ mt_wf st'.
Proof.
  intros Hwf Hk. unfold getrandbits.
  rewrite (proj2 (Z.ltb_ge _ _)) by lia.
  destruct (Z.eqb_spec k 0) as [->|]; [by eexists _, _|].
  destruct (Z.leb_spec k 32).
  - pose proof (genrand_uint32_wf st Hwf) as [Hr Hwf1].
    pose proof (shiftr_top _ k Hr ltac:(lia)). rewrite Z.max_r in * by lia.
    eexists _, _. split_and!; [done|lia|lia|done].
  - pose proof (getrandbits_words_range (Z.to_nat ((k - 1) / 32 + 1)) k st Hwf) as Hw.
    destruct (getrandbits_words _ k st) as [r st']. destruct Hw as [Hr Hwf1]. cbn [fst snd] in *.
    rewrite Z.max_r in Hr by lia. exists r, st'. split_and!; [done|lia|lia|done].
Qed.

Lemma getrandbits_neg k st : k < 0 → getrandbits k st = None.
Proof. intros Hk. unfold getrandbits. by rewrite (proj2 (Z.ltb_lt _ _)). Qed.

(** ** [_randbelow] *)

(** The [i]-th draw of [getrandbits(k)] from a state (the first is the
    0-th). *)
Fixpoint nth_draw (k : Z) (st : MTState) (i : nat) : option (Z * MTState) :=
  match i with
  | O => getrandbits k st
  | S i' => getrandbits k st ≫= λ p : Z * MTState, nth_draw k p.2 i'
  end.

(** The [i]-th draw is the first one below [n]. *)
Definition first_below (n k : Z) (st : MTState) (i : nat) (r : Z) (st' : MTState) : Prop :=
  nth_draw k st i = Some (r, st') ∧ r < n ∧
  ∀ i', (i' < i)%nat → ∃ q, nth_draw k st i' = Some q ∧ n <= q.1.

Lemma first_below_0 n k st r st' :
  first_below n k st 0 r st' ↔ getrandbits k st = Some (r, st') ∧ r < n.
Proof.
  unfold first_below. cbn [nth_draw]. split; [naive_solver|].
  intros [? ?]. split_and!; [done|done|]. intros i' ?. lia.
Qed.

Lemma first_below_S n k st i r st' :
  first_below n k st (S i) r st' ↔
  ∃ p, getrandbits k st = Some p ∧ n <= p.1 ∧ first_below n k p.2 i r st'.
Proof.
  unfold first_below. cbn [nth_draw]. split.
  - intros (Hd & Hr & Hlt). destruct (getrandbits k st) as [p|] eqn:E; [|discriminate Hd].
    cbn [mbind option_bind] in Hd. exists p. split; [done|]. split.
    + destruct (Hlt 0%nat) as (q & Hq & Hn); [lia|]. cbn [nth_draw] in Hq.
      rewrite E in Hq. by injection Hq as <-.
    + split_and!; [done|done|]. intros i' Hi'.
      destruct (Hlt (S i')) as (q & Hq & Hn); [lia|]. cbn [nth_draw] in Hq.
      rewrite E in Hq. cbn [mbind option_bind] in Hq. eauto.
  - intros (p & E & Hn & Hd & Hr & Hlt). rewrite E. cbn [mbind option_bind].
    split_and!; [done|done|]. intros [|i'] Hi'; cbn [nth_draw]; rewrite E; cbn [mbind option_bind]; [eauto|].
    apply Hlt. lia.
Qed.

Lemma randbelow_loop_iff fuel n k r0 s0 r st' :
  randbelow_loop fuel n k r0 s0 = Some (r, st') ↔
  (r0 < n ∧ r = r0 ∧ st' = s0) ∨ (n <= r0 ∧ ∃ i, (i < fuel)%nat ∧ first_below n k s0 i r st').
Proof.
  revert r0 s0. induction fuel as [|f IH]; intros r0 s0; cbn [randbelow_loop];
    destruct (Z.ltb_spec r0 n).
  - split; [intros [= <- <-]; by left|]. intros [(_ & -> & ->)|(? & _)]; [done|lia].
  - split; [done|]. intros [(? & _)|(_ & i & Hi & _)]; lia.
  - split; [intros [= <- <-]; by left|]. intros [(_ & -> & ->)|(? & _)]; [done|lia].
  - destruct (getrandbits k s0) as [[p1 p2]|] eqn:E; cbn [mbind option_bind fst snd].
    + rewrite IH. split.
      * intros [(Hp & -> & ->)|(Hp & i & Hi & Hfb)]; right; (split; [lia|]).
        -- exists 0%nat. split; [lia|]. by apply first_below_0.
        -- exists (S i). split; [lia|]. apply first_below_S. by exists (p1, p2).
      * intros [(? & _)|(_ & [|i] & Hi & Hfb)]; [lia| |].
        -- apply first_below_0 in Hfb as [E' Hr]. rewrite E in E'. injection E' as -> ->. by left.
        -- apply first_below_S in Hfb as (p & E' & Hn & Hfb). rewrite E in E'. injection E' as <-.
           right. split; [done|]. exists i. split; [lia|done].
    + split; [done|]. intros [(? & _)|(_ & [|i] & Hi & Hfb)]; [lia| |].
      * apply first_below_0 in Hfb as [E' _]. congruence.
      * apply first_below_S in Hfb as (p & E' & _). congruence.
Qed.

Lemma nth_draw_wf k st i r st' :
  mt_wf st → 0 <= k → nth_draw k st i = Some (r, st') → 0 <= r < 2 ^ k ∧ mt_wf st'.
Proof.
  revert st. induction i as [|i IH]; intros st Hwf Hk; cbn [nth_draw];
    destruct (getrandbits_range k st Hwf Hk) as (r1 & st1 & -> & Hr1 & Hwf1); cbn [mbind option_bind fst snd].
  - intros [= <- <-]. done.
  - by apply IH.
Qed.

(** Some draw is below [n]: then an earlier or equal one is the first. *)
Lemma first_below_exists n k st i r st' :
  nth_draw k st i = Some (r, st') → r < n →
  ∃ j r' st'', (j <= i)%nat ∧ first_below n k st j r' st''.
Proof.
  revert st. induction i as [|i IH]; intros st Hd Hr.
  - exists 0%nat, r, st'. split; [lia|]. by apply first_below_0.
  - cbn [nth_draw] in Hd. destruct (getrandbits k st) as [[p1 p2]|] eqn:E; [|discriminate Hd].
    cbn [mbind option_bind snd] in Hd. destruct (Z.ltb_spec p1 n).
    + exists 0%nat, p1, p2. split; [lia|]. by apply first_below_0.
    + destruct (IH p2 Hd Hr) as (j & r' & st'' & Hj & Hfb). exists (S j), r', st''.
      split; [lia|]. apply first_below_S. by exists (p1, p2).
Qed.

Lemma bit_length_nonneg n : 0 <= bit_length n.
Proof. unfold bit_length. case_match; [lia|]. pose proof (Z.log2_nonneg (Z.abs n)). lia. Qed.

(** [_randbelow] returns exactly the first draw below [n], when it is
    among the first [fuel + 1] draws. *)
Lemma randbelow_spec fuel n st r st' :
  randbelow fuel n st = Some (r, st') ↔
  ∃ i, (i <= fuel)%nat ∧ first_below n (bit_length n) st i r st'.
Proof.
  unfold randbelow. destruct (getrandbits (bit_length n) st) as [[p1 p2]|] eqn:E;
    cbn [mbind option_bind fst snd].
  - rewrite randbelow_loop_iff. split.
    + intros [(Hp & -> & ->)|(Hp & i & Hi & Hfb)].
      * exists 0%nat. split; [lia|]. by apply first_below_0.
      * exists (S i). split; [lia|]. apply first_below_S. by exists (p1, p2).
    + intros ([|i] & Hi & Hfb).
      * apply first_below_0 in Hfb as [E' Hr]. rewrite E in E'. injection E' as -> ->. by left.
      * apply first_below_S in Hfb as (p & E' & Hn & Hfb). rewrite E in E'. injection E' as <-.
        right. split; [done|]. exists i. split; [lia|done].
  - split; [done|]. intros ([|i] & _ & Hfb).
    + apply first_below_0 in Hfb as [E' _]. congruence.
    + apply first_below_S in Hfb as (p & E' & _). congruence.
Qed.

(** Enough fuel: if one of the first [fuel + 1] draws is below [n],
    [_randbelow] returns a draw in [range(n)] and a well-formed state. *)
Lemma randbelow_enough_fuel fuel n st i r0 st0 :
  mt_wf st → (i <= fuel)%nat → nth_draw (bit_length n) st i = Some (r0, st0) → r0 < n →
  ∃ r st', randbelow fuel n st = Some (r, st') ∧ 0 <= r < n ∧ mt_wf st'.
Proof.
  intros Hwf Hi Hd Hr.
  destruct (first_below_exists n _ st i r0 st0 Hd Hr) as (j & r & st' & Hj & Hfb).
  exists r, st'. split; [apply randbelow_spec; exists j; split; [lia|done]|].
  destruct Hfb as (Hd' & Hrn & _).
  destruct (nth_draw_wf _ st j r st' Hwf (bit_length_nonneg n) Hd'). split; [lia|done].
Qed.

(** ** Properties of the generator *)

(** [_randbelow(n)] ends as soon as a draw is below [n]: if one of
    the first [fuel + 1] draws of [getrandbits(n.bit_length())] is below
    [n], the loop with that many redraws returns the first draw below
    [n] (every earlier draw was [>= n]), which lies in [range(n)], with
    a well-formed state. *)
Lemma randbelow_first_below fuel n st i r0 st0 :
  mt_wf st → (i <= fuel)%nat → nth_draw (bit_length n) st i = Some (r0, st0) → r0 < n →
  ∃ j r st', (j <= i)%nat ∧ first_below n (bit_length n) st j r st' ∧
    randbelow fuel n st = Some (r, st') ∧ 0 <= r < n ∧ mt_wf st'.
Proof.
  intros Hwf Hi Hd Hr.
  destruct (first_below_exists n _ st i r0 st0 Hd Hr) as (j & r & st' & Hj & Hfb).
  assert (Hb : randbelow fuel n st = Some (r, st')) by (apply randbelow_spec; exists j; split; [lia|done]).
  pose proof Hfb as (Hd' & Hrn & _).
  destruct (nth_draw_wf _ st j r st' Hwf (bit_length_nonneg n) Hd') as [Hr' Hwf'].
  exists j, r, st'. split; [done|]. split; [done|]. split; [done|]. split; [lia|done].
Qed.

(** C34: the draw [random.randint(0, COLS - 1)] of [generate_maze], on
    CPython's generator from a well-formed state: as soon as one of the
    first [fuel + 1] draws of [getrandbits(4)] is below [COLS], it
    returns the first such draw, a column in [[0, COLS - 1]], and the
    generator's words stay 32-bit words. *)
Theorem randint_cols_first_below fuel st i r0 st0 :
  mt_wf st → (i <= fuel)%nat → nth_draw (bit_length COLS) st i = Some (r0, st0) → r0 < COLS →
  ∃ j r st', (j <= i)%nat ∧ first_below COLS (bit_length COLS) st j r st' ∧
    Random.randint (randbelow fuel) 0 (COLS - 1) st = Some (r, st') ∧
    0 <= r <= COLS - 1 ∧ mt_wf st'.
Proof.
  intros Hwf Hi Hd Hr.
  destruct (randbelow_first_below fuel COLS st i r0 st0 Hwf Hi Hd Hr)
    as (j & r & st' & Hj & Hfb & Hb & Hrn & Hwf').
  exists j, r, st'. split_and!; [done|done| |lia|lia|done].
  unfold Random.randint, Random.randrange.
  replace (COLS - 1 + 1 - 0) with COLS by (unfold COLS; lia).
  replace (0 <? COLS) with true by reflexivity. rewrite Hb. reflexivity.
Qed.

(** ** CPython 3.11 reference values

    The words, draws and shuffles below are those CPython 3.11 prints
    for [random.seed(42)] ([getrandbits(32)] three times,
    [randint(0, 14)] six times, [shuffle] of the opponent's moves),
    [random.seed(0)] and [random.seed(2**40 + 5)] (two words, then
    [getrandbits(40)]). *)

Fixpoint words32 (n : nat) (st : MTState) : list Z :=
  match n with
  | O => []
  | S n' => let r := genrand_uint32 st in r.1 :: words32 n' r.2
  end.

Fixpoint randints (n : nat) (a b : Z) (st : MTState) : list Z :=
  match n with
  | O => []
  | S n' =>
      match Random.randint (randbelow 64) a b st with
      | Some (r, st') => r :: randints n' a b st'
      | None => []
      end
  end.

Example seed_42_state : take 3 (state (seed 42)) = [2147483648; 3564348608; 1266698288] ∧ index (seed 42) = 624%nat.
Proof. vm_compute. split; reflexivity. Qed.

Example seed_42_words : words32 3 (seed 42) = [2746317213; 478163327; 107420369].
Proof. vm_compute. reflexivity. Qed.

Example seed_0_words : words32 2 (seed 0) = [3626764237; 1654615998].
Proof. vm_compute. reflexivity. Qed.

Example seed_42_randint : randints 6 0 14 (seed 42) = [10; 1; 0; 11; 4; 3].
Proof. vm_compute. reflexivity. Qed.

Example seed_42_shuffle :
  option_map fst (Random.shuffle (randbelow 64) [(-1, 0); (1, 0); (0, -1); (0, 1)] (seed 42)) =
    Some [(0, -1); (1, 0); (0, 1); (-1, 0)].
Proof. vm_compute. reflexivity. Qed.

Example seed_big_getrandbits :
  words32 2 (seed (2 ^ 40 + 5)) = [2166296868; 2220160828] ∧
  option_map fst (getrandbits 40 (genrand_uint32 (genrand_uint32 (seed (2 ^ 40 + 5))).2).2) =
    Some 727003120297.
Proof. vm_compute. split; reflexivity. Qed.

(** ** Witnesses *)

Lemma randint_cols_first_below_witness :
  ∃ r st', Random.randint (randbelow 3) 0 (COLS - 1) (seed 42) = Some (r, st') ∧ 0 <= r <= COLS - 1.
Proof.
  assert (Hx : option_map fst (nth_draw (bit_length COLS) (seed 42) 0) = Some 10)
    by (vm_compute; reflexivity).
  destruct (nth_draw (bit_length COLS) (seed 42) 0) as [[r0 st0]|] eqn:E; [|discriminate Hx].
  injection Hx as Hr0.
  destruct (randint_cols_first_below 3 (seed 42) 0 r0 st0 (init_by_array_wf (seed_key 42))
              ltac:(lia) E ltac:(unfold COLS; lia)) as (j & r & st' & _ & _ & Hb & Hr & _).
  exists r, st'. split; [exact Hb|exact Hr].
Defined.

End Mersenne.
