(* ===== verification/Resolver.v ===== *)
(** * Resolver: the bullet loop of src/TankGame.py (lines 215-229)

    [for bullet in bullets[:]] walks a copy of the list of references;
    [bullet.move()] mutates the shared object; [bullets.remove(bullet)]
    removes it from the original list by identity.  The model runs the
    loop over the identities of the snapshot, updating the heap and the
    live list of [Bullet.Bullets]; [None] stands for the exceptions the
    loop could raise ([IndexError] on the maze, [ValueError] on
    [remove]) and for a reference to no object.  The reference
    definition [resolve_ref] says what the loop computes on values:
    move every bullet, keep those still on an open cell, then fold the
    two hit tests over the kept ones in list order. *)

From stdpp Require Import base list gmap strings.
From Stdlib Require Import ZArith Lia.
From S2P Require Import Prelude Grid Tank Bullet.
Import Grid Tank Bullet.

Module Resolver.
Local Open Scope Z_scope.

(** [game_over] and [result_text]. *)
Record Outcome := mkOutcome {
  game_over : bool;
  result_text : string
}.

(** The two hit tests of lines 224-229, in order: the later one wins. *)
Definition hit_outcome (player ai : Tank) (o : Outcome) (b : Bullet) : Outcome :=
  let o1 := if owner_is_player b && bool_decide (bullet_x b = tank_x ai ∧ bullet_y b = tank_y ai)
            then mkOutcome true "WIN" else o in
  if negb (owner_is_player b) && bool_decide (bullet_x b = tank_x player ∧ bullet_y b = tank_y player)
  then mkOutcome true "LOSE" else o1.

(** The test of line 218. *)
Definition off_grid (b : Bullet) : bool :=
  (bullet_x b <? 0) || (COLS <=? bullet_x b) || (bullet_y b <? 0) || (ROWS <=? bullet_y b).

(** One iteration of the loop, for the bullet of identity [i]. *)
Definition resolve_one (maze : Maze) (player ai : Tank) (st : Bullets * Outcome) (i : nat)
    : option (Bullets * Outcome) :=
  let '(bs, o) := st in
  b ← heap bs !! i;
  let b' := bullet_move b in
  let h := <[i := b']> (heap bs) in
  if off_grid b' then
    l ← py_remove i (live bs); Some (mkBullets h l (next_id bs), o)
  else
    c ← maze_get maze (bullet_x b') (bullet_y b');
    if c =? 1 then
      l ← py_remove i (live bs); Some (mkBullets h l (next_id bs), o)
    else Some (mkBullets h (live bs) (next_id bs), hit_outcome player ai o b').

Fixpoint resolve_loop (maze : Maze) (player ai : Tank) (ids : list nat) (st : Bullets * Outcome)
    : option (Bullets * Outcome) :=
  match ids with
  | [] => Some st
  | i :: ids' => st' ← resolve_one maze player ai st i; resolve_loop maze player ai ids' st'
  end.

(** Lines 216-229: the loop over the snapshot [bullets[:]]. *)
Definition resolve_bullets (maze : Maze) (player ai : Tank) (bs : Bullets) (o : Outcome)
    : option (Bullets * Outcome) :=
  resolve_loop maze player ai (live bs) (bs, o).

(** ** The reference definition *)

(** A moved bullet survives when it is on the grid and not on a wall. *)
Definition survives (maze : Maze) (b : Bullet) : bool :=
  in_bounds (bullet_x b) (bullet_y b) && negb (bool_decide (maze_get maze (bullet_x b) (bullet_y b) = Some 1)).

Definition resolve_ref (maze : Maze) (player ai : Tank) (bullets : list Bullet) (o : Outcome)
    : list Bullet * Outcome :=
  let kept := filter (λ b, survives maze b = true) (map bullet_move bullets) in
  (kept, foldl (hit_outcome player ai) o kept).

(** The identities of the snapshot whose bullet survives its move, and
    the values a list of identities designates. *)
Definition kept_ids (maze : Maze) (h : gmap nat Bullet) (ids : list nat) : list nat :=
  filter (λ i, from_option (λ b, survives maze (bullet_move b)) false (h !! i) = true) ids.

Definition vals (h : gmap nat Bullet) (ids : list nat) : list Bullet := omap (λ i, h !! i) ids.

(** ** Lemmas *)

Lemma off_grid_in_bounds b : off_grid b = negb (in_bounds (bullet_x b) (bullet_y b)).
Proof. unfold off_grid, in_bounds. zcase; simpl; lia || done. Qed.

(** Heaps that agree on a list of identities give it the same values
    and the same survivors. *)
Lemma heap_agree_ids maze (h1 h2 : gmap nat Bullet) ids :
  (∀ j, j ∈ ids → h1 !! j = h2 !! j) →
  vals h1 ids = vals h2 ids ∧ kept_ids maze h1 ids = kept_ids maze h2 ids.
Proof.
  induction ids as [|j ids IH]; intros Hag; [done|].
  destruct IH as [IH1 IH2]; [intros k Hk; apply Hag; by right|].
  unfold vals, kept_ids in *. cbn [omap list_omap]. rewrite !filter_cons.
  rewrite (Hag j (list_elem_of_here _ _)). rewrite IH2.
  destruct (h2 !! j); simpl; [rewrite IH1|]; done.
Qed.

Lemma heap_insert_agree (h : gmap nat Bullet) i v (ids : list nat) :
  i ∉ ids → ∀ j, j ∈ ids → <[i:=v]> h !! j = h !! j.
Proof. intros Hi j Hj. apply lookup_insert_ne. intros ->. done. Qed.

(** One iteration, on a live list [kept ++ i :: todo] whose prefix does
    not hold [i]: the moved bullet is written back to the heap, then
    removed from the list unless it survives, in which case the hit
    tests run on it. *)
Lemma resolve_one_spec maze player ai h kept todo n o i b :
  maze_wf maze → i ∉ kept → h !! i = Some b →
  resolve_one maze player ai (mkBullets h (kept ++ i :: todo) n, o) i =
    Some (if survives maze (bullet_move b)
          then (mkBullets (<[i:=bullet_move b]> h) ((kept ++ [i]) ++ todo) n,
                hit_outcome player ai o (bullet_move b))
          else (mkBullets (<[i:=bullet_move b]> h) (kept ++ todo) n, o)).
Proof.
  intros Hwf Hi Hb. unfold resolve_one. simpl. rewrite Hb. simpl.
  rewrite off_grid_in_bounds. unfold survives.
  destruct (in_bounds _ _) eqn:Hib; simpl.
  - destruct (maze_get_wf maze _ _ Hwf Hib) as (c & Hc & [-> | ->]); rewrite Hc; simpl.
    + by rewrite <- app_assoc.
    + by rewrite py_remove_app_notin.
  - by rewrite py_remove_app_notin.
Qed.

(** After the write of iteration [i], the rest of the loop leaves the
    cells outside [todo] alone: so the whole loop from [i :: todo]
    changes only [i :: todo], and keeps those allocated. *)
Lemma heap_frame_cons (h h' : gmap nat Bullet) i v (todo : list nat) :
  (∀ j, j ∉ todo → h' !! j = <[i:=v]> h !! j) → (∀ j, j ∈ todo → is_Some (h' !! j)) →
  (∀ j, j ∉ i :: todo → h' !! j = h !! j) ∧ (∀ j, j ∈ i :: todo → is_Some (h' !! j)).
Proof.
  intros Hframe Halloc. split.
  - intros j [Hj1 Hj2]%not_elem_of_cons. rewrite Hframe by done. by apply lookup_insert_ne.
  - intros j [->|Hj]%elem_of_cons; [|by apply Halloc].
    destruct (decide (i ∈ todo)); [by apply Halloc|]. rewrite Hframe by done.
    by rewrite lookup_insert_eq.
Qed.

(** The loop over the rest [todo] of the snapshot, with [kept] the
    survivors so far: it never raises, keeps the survivors of [todo] in
    order, stores their moved values, and folds the hit tests over them. *)
Lemma resolve_loop_spec maze player ai todo :
  ∀ kept h n o, maze_wf maze → NoDup (kept ++ todo) → (∀ i, i ∈ todo → is_Some (h !! i)) →
  ∃ h', resolve_loop maze player ai todo (mkBullets h (kept ++ todo) n, o) =
          Some (mkBullets h' (kept ++ kept_ids maze h todo) n,
                foldl (hit_outcome player ai) o
                  (filter (λ b, survives maze b = true) (map bullet_move (vals h todo)))) ∧
        vals h' (kept_ids maze h todo) =
          filter (λ b, survives maze b = true) (map bullet_move (vals h todo)) ∧
        (∀ j, j ∉ todo → h' !! j = h !! j) ∧ (∀ j, j ∈ todo → is_Some (h' !! j)).
Proof.
  induction todo as [|i todo IH]; intros kept h n o Hwf Hnd Hdef.
  - exists h. split_and!; [by rewrite !app_nil_r|done|done|].
    intros j Hj. by apply not_elem_of_nil in Hj.
  - destruct (Hdef i (list_elem_of_here _ _)) as [b Hb].
    destruct (NoDup_middle kept todo i Hnd) as (Hik & Hit & Hnd').
    destruct (heap_agree_ids maze (<[i:=bullet_move b]> h) h todo) as [Hv Hkid];
      [by apply heap_insert_agree|].
    cbn [resolve_loop]. rewrite (resolve_one_spec _ _ _ _ _ _ _ _ _ b) by done.
    assert (Hv0 : vals h (i :: todo) = b :: vals h todo) by (unfold vals; simpl; by rewrite Hb).
    assert (Hk0 : kept_ids maze h (i :: todo) =
      if survives maze (bullet_move b) then i :: kept_ids maze h todo else kept_ids maze h todo)
      by (unfold kept_ids; rewrite filter_cons, Hb; simpl; by destruct (survives _ _)).
    rewrite Hv0, Hk0. cbn [map]. rewrite filter_cons.
    assert (Hdef' : ∀ j, j ∈ todo → is_Some (<[i:=bullet_move b]> h !! j)).
    { intros j Hj. rewrite (heap_insert_agree h i _ todo) by done. apply Hdef. by right. }
    destruct (survives maze (bullet_move b)) eqn:Hs; simpl.
    + destruct (IH (kept ++ [i]) (<[i:=bullet_move b]> h) n (hit_outcome player ai o (bullet_move b))
        Hwf ltac:(by rewrite <- app_assoc) Hdef') as (h' & Heq & Hvals & Hframe & Halloc).
      destruct (heap_frame_cons h h' i _ todo Hframe Halloc) as [Hframe' Halloc'].
      rewrite Heq, Hv, Hkid, <- app_assoc. exists h'. split_and!; [done| |done|done].
      unfold vals. simpl. rewrite Hframe by done. rewrite lookup_insert_eq. simpl.
      fold (vals h' (kept_ids maze h todo)). rewrite <- Hkid, Hvals, Hv. done.
    + destruct (IH kept (<[i:=bullet_move b]> h) n o Hwf Hnd' Hdef')
        as (h' & Heq & Hvals & Hframe & Halloc).
      destruct (heap_frame_cons h h' i _ todo Hframe Halloc) as [Hframe' Halloc'].
      rewrite Heq, Hv, Hkid. exists h'. split_and!; [done| |done|done].
      rewrite <- Hkid, Hvals, Hv. done.
Qed.

(** The loop, on a well-formed maze and bullet list, in terms of the
    reference definition. *)
Lemma resolve_bullets_spec maze player ai bs o :
  maze_wf maze → bullets_wf bs →
  ∃ bs', resolve_bullets maze player ai bs o =
           Some (bs', (resolve_ref maze player ai (live_bullets bs) o).2) ∧
    live_bullets bs' = (resolve_ref maze player ai (live_bullets bs) o).1 ∧
    bullets_wf bs' ∧ next_id bs' = next_id bs.
Proof.
  intros Hwf (Hnd & Hlive & Hlt). destruct bs as [h l n]. simpl in *.
  destruct (resolve_loop_spec maze player ai l [] h n o Hwf Hnd Hlive)
    as (h' & Heq & Hvals & Hframe & Halloc).
  exists (mkBullets h' (kept_ids maze h l) n). unfold resolve_bullets. simpl.
  split_and!; [exact Heq|exact Hvals| |done]. split_and!; simpl.
  - apply NoDup_filter, Hnd.
  - intros j [_ Hj]%list_elem_of_filter. by apply Halloc.
  - intros j Hj. destruct (decide (j ∈ l)) as [Hin|Hnin]; [by apply Hlt, Hlive|].
    rewrite Hframe in Hj by done. by apply Hlt.
Qed.

Lemma resolve_ref_kept maze player ai bullets o b :
  b ∈ (resolve_ref maze player ai bullets o).1 →
  in_bounds (bullet_x b) (bullet_y b) = true ∧ maze_get maze (bullet_x b) (bullet_y b) ≠ Some 1.
Proof.
  simpl. intros [Hs _]%list_elem_of_filter. unfold survives in Hs.
  apply andb_true_iff in Hs as [Hb Hn]. split; [done|].
  intros Hw. rewrite bool_decide_eq_true_2 in Hn by done. done.
Qed.

Lemma resolve_bullets_on_open maze player ai bs o bs' o' :
  maze_wf maze → bullets_wf bs → resolve_bullets maze player ai bs o = Some (bs', o') →
  ∀ b, b ∈ live_bullets bs' →
    in_bounds (bullet_x b) (bullet_y b) = true ∧ maze_get maze (bullet_x b) (bullet_y b) = Some 0.
Proof.
  intros Hwf Hbs Hres b Hb.
  destruct (resolve_bullets_spec maze player ai bs o Hwf Hbs) as (bs1 & Heq & Hlive & _).
  rewrite Hres in Heq. injection Heq as -> _. rewrite Hlive in Hb.
  destruct (resolve_ref_kept _ _ _ _ _ _ Hb) as [Hin Hn]. split; [done|].
  destruct (maze_get_wf maze _ _ Hwf Hin) as (c & Hc & [-> | ->]); congruence.
Qed.

(** The reference on a list whose last bullet survives its move: it is
    kept last and its hit tests run last. *)
Lemma resolve_ref_snoc maze player ai bullets o b :
  survives maze (bullet_move b) = true →
  resolve_ref maze player ai (bullets ++ [b]) o =
    ((resolve_ref maze player ai bullets o).1 ++ [bullet_move b],
     hit_outcome player ai (resolve_ref maze player ai bullets o).2 (bullet_move b)).
Proof.
  intros Hs. unfold resolve_ref.
  rewrite map_app, filter_app. simpl. rewrite filter_cons_True by done.
  simpl. by rewrite foldl_app.
Qed.

(** The reference on a single bullet moving up. *)
Lemma resolve_ref_up maze player ai o x y own :
  maze_wf maze →
  (resolve_ref maze player ai [mkBullet x y UP own] o).1 =
    if in_bounds x (y - 1) && bool_decide (maze_get maze x (y - 1) = Some 0)
    then [mkBullet x (y - 1) UP own] else [].
Proof.
  intros Hwf. unfold resolve_ref. cbn [map fst].
  destruct (in_bounds x (y - 1)) eqn:Hb.
  - destruct (maze_get_wf maze x (y - 1) Hwf Hb) as (c & Hc & [-> | ->]).
    + rewrite filter_cons_True by (unfold survives; simpl; by rewrite Hb, Hc).
      rewrite Hc. done.
    + rewrite filter_cons_False by (unfold survives; simpl; by rewrite Hb, Hc).
      rewrite Hc. done.
  - rewrite filter_cons_False by (unfold survives; simpl; by rewrite Hb). done.
Qed.

(** C3: the loop over the snapshot computes the reference definition:
    on a well-formed maze and bullet list it never raises, the live
    bullets afterwards are the moved bullets that stay on an open cell,
    in their order, and the outcome is the fold of the hit tests over
    them; the bullet list stays well formed and no identity is
    allocated. *)
Theorem resolve_bullets_ref maze player ai bs o :
  maze_wf maze → bullets_wf bs →
  ∃ bs', resolve_bullets maze player ai bs o =
           Some (bs', (resolve_ref maze player ai (live_bullets bs) o).2) ∧
    live_bullets bs' = (resolve_ref maze player ai (live_bullets bs) o).1 ∧
    bullets_wf bs' ∧ next_id bs' = next_id bs.
Proof. apply resolve_bullets_spec. Qed.

(** C4: after a tick of the resolver every live bullet is on the grid
    and on an open cell. *)
Theorem resolve_bullets_open maze player ai bs o bs' o' :
  maze_wf maze → bullets_wf bs → resolve_bullets maze player ai bs o = Some (bs', o') →
  ∀ b, b ∈ live_bullets bs' →
    in_bounds (bullet_x b) (bullet_y b) = true ∧ maze_get maze (bullet_x b) (bullet_y b) = Some 0.
Proof. apply resolve_bullets_on_open. Qed.

(** C13: a bullet that hits a tank is not removed: when the last live
    bullet is the player's and moves onto the opponent's open cell, the
    loop sets the outcome to "WIN" and the bullet stays in the list,
    moved; the spec says a projectile is removed when it reaches a tank. *)
Theorem resolve_hit_not_removed maze player ai bs o bullets b :
  maze_wf maze → bullets_wf bs → live_bullets bs = bullets ++ [b] →
  owner_is_player b = true →
  bullet_x (bullet_move b) = tank_x ai → bullet_y (bullet_move b) = tank_y ai →
  in_bounds (tank_x ai) (tank_y ai) = true → maze_get maze (tank_x ai) (tank_y ai) = Some 0 →
  ∃ bs', resolve_bullets maze player ai bs o = Some (bs', mkOutcome true "WIN") ∧
    live_bullets bs' = (resolve_ref maze player ai bullets o).1 ++ [bullet_move b].
Proof.
  intros Hwf Hbs Hl Hown Hx Hy Hb Hopen.
  assert (Hs : survives maze (bullet_move b) = true).
  { unfold survives. rewrite Hx, Hy, Hb, Hopen. done. }
  destruct (resolve_bullets_spec maze player ai bs o Hwf Hbs) as (bs' & Heq & Hlive & _).
  rewrite Hl, resolve_ref_snoc in Heq, Hlive by done.
  exists bs'. split; [|done]. rewrite Heq. unfold hit_outcome.
  destruct (bullet_move_keeps b) as [_ ->]. rewrite Hown. simpl.
  by rewrite bool_decide_eq_true_2.
Qed.

(** C14: a lone bullet moving up from [(x, y)] is at [(x, y - 1)] after
    one tick of the loop when that cell is open, and is gone once
    [y - 1 < 0] or the cell is a wall. *)
Theorem resolve_up maze player ai bs o x y own :
  maze_wf maze → bullets_wf bs → live_bullets bs = [mkBullet x y UP own] →
  ∃ bs' o', resolve_bullets maze player ai bs o = Some (bs', o') ∧
    live_bullets bs' =
      if in_bounds x (y - 1) && bool_decide (maze_get maze x (y - 1) = Some 0)
      then [mkBullet x (y - 1) UP own] else [].
Proof.
  intros Hwf Hbs Hl.
  destruct (resolve_bullets_spec maze player ai bs o Hwf Hbs) as (bs' & Heq & Hlive & _).
  rewrite Hl in Heq, Hlive. rewrite resolve_ref_up in Hlive by done. eauto.
Qed.

(** C15: hits in the same tick are not arbitrated: when the last live
    bullet is the opponent's and its move lands on the player, the
    outcome is "LOSE", whatever the bullets before it did. *)
Theorem resolve_last_hit_wins maze player ai bs o bullets b :
  maze_wf maze → bullets_wf bs → live_bullets bs = bullets ++ [b] →
  owner_is_player b = false →
  bullet_x (bullet_move b) = tank_x player → bullet_y (bullet_move b) = tank_y player →
  survives maze (bullet_move b) = true →
  ∃ bs', resolve_bullets maze player ai bs o = Some (bs', mkOutcome true "LOSE").
Proof.
  intros Hwf Hbs Hl Hown Hx Hy Hs.
  destruct (resolve_bullets_spec maze player ai bs o Hwf Hbs) as (bs' & Heq & _).
  rewrite Hl, resolve_ref_snoc in Heq by done.
  exists bs'. rewrite Heq. unfold hit_outcome.
  destruct (bullet_move_keeps b) as [_ ->]. rewrite Hown. simpl.
  by rewrite bool_decide_eq_true_2.
Qed.

(** ** Witnesses, on the empty maze with the player at (1, 1) and the
    opponent at (3, 1) *)

Definition demo_player : Tank := new_tank 1 1 true.
Definition demo_ai : Tank := new_tank 3 1 false.
Definition demo_start : Outcome := mkOutcome false "".

Lemma resolve_bullets_ref_witness :
  ∃ bs', resolve_bullets empty_maze demo_player demo_ai
           (append_bullet no_bullets (mkBullet 1 1 RIGHT true)) demo_start =
         Some (bs', (resolve_ref empty_maze demo_player demo_ai
                       (live_bullets (append_bullet no_bullets (mkBullet 1 1 RIGHT true))) demo_start).2) ∧
    live_bullets bs' = (resolve_ref empty_maze demo_player demo_ai
                          (live_bullets (append_bullet no_bullets (mkBullet 1 1 RIGHT true))) demo_start).1 ∧
    bullets_wf bs' ∧ next_id bs' = next_id (append_bullet no_bullets (mkBullet 1 1 RIGHT true)).
Proof.
  apply resolve_bullets_ref; [apply empty_maze_wf|apply append_bullet_wf, no_bullets_wf].
Defined.

Lemma resolve_bullets_open_witness :
  ∃ bs' o', resolve_bullets empty_maze demo_player demo_ai
              (append_bullet no_bullets (mkBullet 1 1 RIGHT true)) demo_start = Some (bs', o') ∧
    ∀ b, b ∈ live_bullets bs' →
      in_bounds (bullet_x b) (bullet_y b) = true ∧ maze_get empty_maze (bullet_x b) (bullet_y b) = Some 0.
Proof.
  destruct (resolve_bullets empty_maze demo_player demo_ai
              (append_bullet no_bullets (mkBullet 1 1 RIGHT true)) demo_start)
    as [[bs' o']|] eqn:E; [|vm_compute in E; discriminate E].
  exists bs', o'. split; [done|].
  exact (resolve_bullets_open empty_maze demo_player demo_ai _ demo_start bs' o'
           empty_maze_wf (append_bullet_wf _ _ no_bullets_wf) E).
Defined.

Lemma resolve_hit_not_removed_witness :
  ∃ bs', resolve_bullets empty_maze demo_player demo_ai
           (append_bullet no_bullets (mkBullet 2 1 RIGHT true)) demo_start =
         Some (bs', mkOutcome true "WIN") ∧
    live_bullets bs' = (resolve_ref empty_maze demo_player demo_ai [] demo_start).1 ++
                       [bullet_move (mkBullet 2 1 RIGHT true)].
Proof.
  apply (resolve_hit_not_removed _ _ _ _ _ []);
    [apply empty_maze_wf|apply append_bullet_wf, no_bullets_wf|vm_compute; reflexivity
    |reflexivity|reflexivity|reflexivity|reflexivity|reflexivity].
Defined.

Lemma resolve_up_witness :
  ∃ bs' o', resolve_bullets empty_maze demo_player demo_ai
              (append_bullet no_bullets (mkBullet 1 1 UP true)) demo_start = Some (bs', o') ∧
    live_bullets bs' =
      if in_bounds 1 (1 - 1) && bool_decide (maze_get empty_maze 1 (1 - 1) = Some 0)
      then [mkBullet 1 (1 - 1) UP true] else [].
Proof.
  apply resolve_up; [apply empty_maze_wf|apply append_bullet_wf, no_bullets_wf|vm_compute; reflexivity].
Defined.

Lemma resolve_last_hit_wins_witness :
  ∃ bs', resolve_bullets empty_maze demo_player demo_ai
           (append_bullet (append_bullet no_bullets (mkBullet 2 1 RIGHT true)) (mkBullet 0 1 RIGHT false))
           demo_start = Some (bs', mkOutcome true "LOSE").
Proof.
  apply (resolve_last_hit_wins _ _ _ _ _ [mkBullet 2 1 RIGHT true] (mkBullet 0 1 RIGHT false));
    [apply empty_maze_wf|apply append_bullet_wf, append_bullet_wf, no_bullets_wf
    |vm_compute; reflexivity|reflexivity|reflexivity|reflexivity|vm_compute; reflexivity].
Defined.

End Resolver.
