(* ===== verification/Render.v ===== *)
(** * Render: what src/TankGame.py draws (lines 13-17, 56-59, 79-81,
    139-156, 163-177)

    Drawing is output only, so the model writes it as a display list:
    each [pygame.draw.rect], [screen.fill], [screen.blit] and
    [display.flip] of a frame is one [DrawCmd], in the order the script
    issues them.  Reading the maze in [draw_maze] can raise like any
    [maze[y][x]], and [Tank.draw] looks its angle up in a dict keyed by
    the direction string, which could raise [KeyError]; both are the
    [None] of [option].  Text needs the font's metrics, which pygame
    computes; they are the interface [FontMetrics].  [render] is the
    drawing part of one iteration of [while running]; it also returns
    the rectangle that line 175 assigns to the global [button_rect]
    when the game is over. *)

From stdpp Require Import base list gmap strings.
From Stdlib Require Import ZArith Lia.
From S2P Require Import Prelude Grid Tank Bullet Resolver.
Import Grid Tank Bullet Resolver.

Module Render.
Local Open Scope Z_scope.

(** ** Colours, rectangles, images and draw commands *)

Abbreviation Color := (Z * Z * Z)%type.

Definition WHITE : Color := (255, 255, 255).
Definition BLACK : Color := (0, 0, 0).
Definition GRAY : Color := (100, 100, 100).
Definition LIGHT_GRAY : Color := (200, 200, 200).

(** [pygame.Rect(x, y, w, h)] *)
Abbreviation Rect := (Z * Z * Z * Z)%type.

(** The two sprites loaded at lines 26-29. *)
Inductive Image := PLAYER_IMG | AI_IMG.

#[export] Instance Image_eq_dec : EqDecision Image.
Proof. solve_decision. Defined.

(** The calls that put something on the screen. *)
Inductive DrawCmd :=
  | Fill (c : Color)                           (** [screen.fill(c)] *)
  | DrawRect (c : Color) (r : Rect) (width : Z)  (** [pygame.draw.rect(screen, c, r, width)] *)
  | BlitSprite (img : Image) (angle : Z) (r : Rect)
      (** [screen.blit(pygame.transform.rotate(img, angle), r)] *)
  | BlitText (size : Z) (text : string) (c : Color) (pos : Z * Z)
      (** [screen.blit(SysFont(None, size).render(text, True, c), pos)] *)
  | Flip.                                      (** [pygame.display.flip()] *)

#[export] Instance DrawCmd_eq_dec : EqDecision DrawCmd.
Proof. solve_decision. Defined.

(** The width and height of a rendered text in [SysFont(None, size)]. *)
Class FontMetrics := text_size : Z → string → Z * Z.

(** A fixed-width stand-in for pygame's default font, for concrete
    runs: each character half the size wide, the size high. *)
Definition fixed_metrics : FontMetrics :=
  λ size text, (size `div` 2 * Z.of_nat (String.length text), size).

(** ** The drawing functions *)

(** The screen rectangle of the tile [(x, y)]. *)
Definition tile (x y : Z) : Rect := (x * TILE_SIZE, y * TILE_SIZE, TILE_SIZE, TILE_SIZE).

(** The body of [draw_maze]'s inner loop (lines 142-147). *)
Definition draw_cell (maze : Maze) (x y : Z) : option (list DrawCmd) :=
  c ← maze_get maze x y;
  Some (if c =? 1 then [DrawRect GRAY (tile x y) 0]
        else [DrawRect WHITE (tile x y) 0; DrawRect LIGHT_GRAY (tile x y) 1]).

(** [draw_maze()] (lines 139-147): rows, then columns. *)
Definition draw_maze (maze : Maze) : option (list DrawCmd) :=
  for_out (λ y, for_out (λ x, draw_cell maze x y) (py_range 0 COLS)) (py_range 0 ROWS).

(** The dict of line 58. *)
Definition rotation_table : gmap string Z :=
  list_to_map [("UP", 0); ("RIGHT", 270); ("DOWN", 180); ("LEFT", 90)].

(** The image a tank was built with: [player_img] for the player and
    [ai_img] for the opponent (lines 129-130). *)
Definition tank_image (t : Tank) : Image := if is_player t then PLAYER_IMG else AI_IMG.

(** [Tank.draw] (lines 56-59). *)
Definition tank_draw (t : Tank) : option (list DrawCmd) :=
  angle ← rotation_table !! direction_name (direction t);
  Some [BlitSprite (tank_image t) angle (tile (tank_x t) (tank_y t))].

(** What [pygame.transform.rotate(image, a)] does to a direction drawn
    in the image, for [a] a multiple of 90: it turns it [a] degrees
    counter-clockwise on the screen, where [y] grows downwards. *)
Definition rotate_ccw (a : Z) (v : Z * Z) : Z * Z :=
  let q := (a / 90) mod 4 in
  if q =? 0 then v
  else if q =? 1 then (v.2, - v.1)
  else if q =? 2 then (- v.1, - v.2)
  else (- v.2, v.1).

(** [Bullet.draw] (lines 79-81): a yellow square of half a tile,
    centred in the bullet's tile. *)
Definition bullet_draw (b : Bullet) : DrawCmd :=
  DrawRect (255, 255, 0)
    (bullet_x b * TILE_SIZE + TILE_SIZE `div` 4, bullet_y b * TILE_SIZE + TILE_SIZE `div` 4,
     TILE_SIZE `div` 2, TILE_SIZE `div` 2) 0.

(** The rectangle of line 152. *)
Definition button_rect : Rect :=
  (SCREEN_WIDTH `div` 2 - 100, SCREEN_HEIGHT `div` 2 + 50, 200, 50).

(** [draw_restart_button()] (lines 150-156): the rectangle it returns
    and what it draws. *)
Definition draw_restart_button : Rect * list DrawCmd :=
  let '(rx, ry, _, _) := button_rect in
  (button_rect, [DrawRect (0, 200, 0) button_rect 0; BlitText 48 "Restart" WHITE (rx + 40, ry + 5)]).

(** [Rect.collidepoint]: the left and top edges are inside, the right
    and bottom ones are not. *)
Definition collidepoint (r : Rect) (p : Z * Z) : bool :=
  let '(rx, ry, w, h) := r in
  (rx <=? p.1) && (p.1 <? rx + w) && (ry <=? p.2) && (p.2 <? ry + h).

Section render.
Context `{FontMetrics}.

(** Lines 172-174: the result, centred horizontally just above the
    middle of the screen. *)
Definition draw_result (result_text : string) : list DrawCmd :=
  let '(w, h) := text_size 72 result_text in
  [BlitText 72 result_text (255, 0, 0) (SCREEN_WIDTH `div` 2 - w `div` 2, SCREEN_HEIGHT `div` 2 - h)].

(** Lines 163-177: the frame's drawing, and the value assigned to
    [button_rect] when the game is over ([None]: no assignment). *)
Definition render (maze : Maze) (player ai : Tank) (bullets : list Bullet) (o : Outcome)
    : option (list DrawCmd * option Rect) :=
  m ← draw_maze maze;
  p ← tank_draw player;
  a ← tank_draw ai;
  let bs := map bullet_draw bullets in
  if game_over o then
    let button := draw_restart_button in
    Some ([Fill WHITE] ++ m ++ p ++ a ++ bs ++ draw_result (result_text o) ++ button.2 ++ [Flip],
          Some button.1)
  else Some ([Fill WHITE] ++ m ++ p ++ a ++ bs ++ [Flip], None).
End render.

(** ** The screen and what lies on it *)

(** A rectangle inside the [SCREEN_WIDTH] x [SCREEN_HEIGHT] window. *)
Definition rect_on_screen (r : Rect) : Prop :=
  let '(x, y, w, h) := r in 0 <= x ∧ 0 <= y ∧ x + w <= SCREEN_WIDTH ∧ y + h <= SCREEN_HEIGHT.

(** A command that draws a rectangle or a sprite draws it on screen. *)
Definition on_screen (cmd : DrawCmd) : Prop :=
  match cmd with
  | DrawRect _ r _ | BlitSprite _ _ r => rect_on_screen r
  | _ => True
  end.

(** ** Lemmas *)

Lemma tile_inj x y x' y' : tile x y = tile x' y' → x = x' ∧ y = y'.
Proof. unfold tile, TILE_SIZE. intros [= Hx Hy]. lia. Qed.

Lemma draw_rect_tile_inj c c' x y x' y' w w' :
  DrawRect c (tile x y) w = DrawRect c' (tile x' y') w' → c = c' ∧ x = x' ∧ y = y' ∧ w = w'.
Proof. unfold tile, TILE_SIZE. intros H. injection H. intros. split_and!; (done || lia). Qed.

Lemma tile_on_screen x y : in_bounds x y = true → rect_on_screen (tile x y).
Proof.
  intros [? ?]%in_bounds_spec. unfold tile, rect_on_screen, SCREEN_WIDTH, SCREEN_HEIGHT,
    TILE_SIZE, COLS, ROWS in *. lia.
Qed.

Lemma bullet_draw_on_screen b :
  in_bounds (bullet_x b) (bullet_y b) = true → on_screen (bullet_draw b).
Proof.
  intros [? ?]%in_bounds_spec. unfold bullet_draw, on_screen, rect_on_screen,
    SCREEN_WIDTH, SCREEN_HEIGHT, TILE_SIZE, COLS, ROWS in *.
  replace (40 `div` 4) with 10 by reflexivity. replace (40 `div` 2) with 20 by reflexivity. lia.
Qed.

Lemma rotation_lookup d :
  rotation_table !! direction_name d =
    Some (match d with UP => 0 | RIGHT => 270 | DOWN => 180 | LEFT => 90 end).
Proof. by destruct d. Qed.

Lemma tank_draw_spec t :
  ∃ a, tank_draw t = Some [BlitSprite (tank_image t) a (tile (tank_x t) (tank_y t))].
Proof. unfold tank_draw. rewrite rotation_lookup. by eexists. Qed.

(** On a well-formed maze [draw_maze] never raises, and draws for each
    in-bounds cell the commands of its value. *)
Lemma draw_maze_elem m :
  maze_wf m →
  ∃ cmds, draw_maze m = Some cmds ∧ ∀ cmd, cmd ∈ cmds ↔
    ∃ x y c, in_bounds x y = true ∧ maze_get m x y = Some c ∧
      cmd ∈ (if c =? 1 then [DrawRect GRAY (tile x y) 0]
             else [DrawRect WHITE (tile x y) 0; DrawRect LIGHT_GRAY (tile x y) 1]).
Proof.
  intros Hwf.
  assert (Hcell : ∀ x y, in_bounds x y = true → is_Some (draw_cell m x y)).
  { intros x y Hb. destruct (maze_get_wf m x y Hwf Hb) as (c & Hc & _).
    unfold draw_cell. rewrite Hc. by eexists. }
  destruct (for_out_is_Some (λ y, for_out (λ x, draw_cell m x y) (py_range 0 COLS)) (py_range 0 ROWS))
    as [cmds Hcmds].
  { intros y Hy%elem_of_py_range. apply for_out_is_Some. intros x Hx%elem_of_py_range.
    apply Hcell, in_bounds_spec. lia. }
  exists cmds. split; [done|]. intros cmd. rewrite (for_out_elem _ _ _ _ Hcmds). split.
  - intros (y & row & Hy%elem_of_py_range & Hrow & Hin).
    apply (for_out_elem _ _ _ _ Hrow) in Hin as (x & o & Hx%elem_of_py_range & Ho & Hin).
    unfold draw_cell in Ho. destruct (maze_get m x y) as [c|] eqn:Hc; [|done].
    injection Ho as <-. exists x, y, c. split_and!; [apply in_bounds_spec; lia|done|done].
  - intros (x & y & c & Hb & Hc & Hin). pose proof Hb as [Hx Hy]%in_bounds_spec.
    destruct (Hcell x y Hb) as [o Ho].
    destruct (for_out_is_Some (λ x, draw_cell m x y) (py_range 0 COLS)) as [row Hrow].
    { intros x' Hx'%elem_of_py_range. apply Hcell, in_bounds_spec. lia. }
    exists y, row. split_and!; [apply elem_of_py_range; lia|done|].
    apply (for_out_elem _ _ _ _ Hrow). exists x, o. split_and!; [apply elem_of_py_range; lia|done|].
    unfold draw_cell in Ho. rewrite Hc in Ho. by injection Ho as <-.
Qed.

(** The commands of one cell, by cases on its value. *)
Lemma draw_cell_elem cmd c x y :
  cmd ∈ (if c =? 1 then [DrawRect GRAY (tile x y) 0]
         else [DrawRect WHITE (tile x y) 0; DrawRect LIGHT_GRAY (tile x y) 1]) ↔
  (c = 1 ∧ cmd = DrawRect GRAY (tile x y) 0) ∨
  (c ≠ 1 ∧ (cmd = DrawRect WHITE (tile x y) 0 ∨ cmd = DrawRect LIGHT_GRAY (tile x y) 1)).
Proof.
  destruct (Z.eqb_spec c 1); rewrite ?elem_of_cons, ?elem_of_nil; naive_solver.
Qed.

(** Every command [render] emits, by where it comes from. *)
Lemma render_elem `{FontMetrics} m p a bullets o cmds r cmd :
  render m p a bullets o = Some (cmds, r) → cmd ∈ cmds →
  cmd = Fill WHITE ∨ cmd = Flip ∨
  (∃ mc, draw_maze m = Some mc ∧ cmd ∈ mc) ∨
  (∃ t, (t = p ∨ t = a) ∧ ∃ tc, tank_draw t = Some tc ∧ cmd ∈ tc) ∨
  (∃ b, b ∈ bullets ∧ cmd = bullet_draw b) ∨
  (game_over o = true ∧ (cmd ∈ draw_result (result_text o) ∨ cmd ∈ draw_restart_button.2)).
Proof.
  unfold render. destruct (draw_maze m) as [mc|]; cbn [mbind option_bind]; [|done].
  destruct (tank_draw p) as [pc|] eqn:Ep; cbn [mbind option_bind]; [|done].
  destruct (tank_draw a) as [ac|] eqn:Ea; cbn [mbind option_bind]; [|done].
  assert (Hb : cmd ∈ map bullet_draw bullets → ∃ b, b ∈ bullets ∧ cmd = bullet_draw b).
  { rewrite list_elem_of_In, in_map_iff. intros (b & <- & Hb%list_elem_of_In). eauto. }
  destruct (game_over o) eqn:Ego; intros Hr Hin.
  - assert (cmds = [Fill WHITE] ++ mc ++ pc ++ ac ++ map bullet_draw bullets ++
                   draw_result (result_text o) ++ draw_restart_button.2 ++ [Flip])
      as -> by (injection Hr as <-; reflexivity).
    rewrite !elem_of_app in Hin.
    destruct Hin as [Hin|[Hin|[Hin|[Hin|[Hin|[Hin|[Hin|Hin]]]]]]].
    + left. by apply list_elem_of_singleton.
    + do 2 right. left. eauto.
    + do 3 right. left. exists p. eauto.
    + do 3 right. left. exists a. eauto.
    + do 4 right. left. by apply Hb.
    + do 5 right. split; [done|]. by left.
    + do 5 right. split; [done|]. by right.
    + right. left. by apply list_elem_of_singleton.
  - assert (cmds = [Fill WHITE] ++ mc ++ pc ++ ac ++ map bullet_draw bullets ++ [Flip])
      as -> by (injection Hr as <-; reflexivity).
    rewrite !elem_of_app in Hin.
    destruct Hin as [Hin|[Hin|[Hin|[Hin|[Hin|Hin]]]]].
    + left. by apply list_elem_of_singleton.
    + do 2 right. left. eauto.
    + do 3 right. left. exists p. eauto.
    + do 3 right. left. exists a. eauto.
    + do 4 right. left. by apply Hb.
    + right. left. by apply list_elem_of_singleton.
Qed.

Section render_spec.
Context `{FontMetrics}.

(** On a well-formed maze the drawing never raises, and it assigns
    [button_rect] exactly when the game is over. *)
Lemma render_spec m p a bullets o :
  maze_wf m →
  ∃ cmds, render m p a bullets o = Some (cmds, if game_over o then Some button_rect else None).
Proof.
  intros Hwf. destruct (draw_maze_elem m Hwf) as (mc & Hm & _).
  destruct (tank_draw_spec p) as [pa Hpd]. destruct (tank_draw_spec a) as [aa Had].
  unfold render. rewrite Hm, Hpd, Had. simpl. destruct (game_over o); by eexists.
Qed.

(** C23: [draw_maze] never raises on a well-formed maze, and it paints
    an in-bounds tile gray exactly when it is a wall and white exactly
    when it is open. *)
Theorem draw_maze_walls m :
  maze_wf m →
  ∃ cmds, draw_maze m = Some cmds ∧ ∀ x y, in_bounds x y = true →
    (DrawRect GRAY (tile x y) 0 ∈ cmds ↔ maze_get m x y = Some 1) ∧
    (DrawRect WHITE (tile x y) 0 ∈ cmds ↔ maze_get m x y = Some 0).
Proof.
  intros Hwf. destruct (draw_maze_elem m Hwf) as (cmds & Hd & Hel).
  exists cmds. split; [done|]. intros x y Hb. rewrite !Hel.
  destruct (maze_get_wf m x y Hwf Hb) as (c & Hc & Hc01).
  setoid_rewrite draw_cell_elem. split; split.
  - intros (x' & y' & c' & _ & Hc' & [[-> Ht] | [_ [Ht|Ht]]]);
      apply draw_rect_tile_inj in Ht as (Hcol & -> & -> & _); [congruence|discriminate Hcol..].
  - intros Hw. exists x, y, 1. split_and!; [done|done|]. by left.
  - intros (x' & y' & c' & Hb' & Hc' & [[_ Ht] | [Hne [Ht|Ht]]]);
      apply draw_rect_tile_inj in Ht as (Hcol & -> & -> & Hw);
      [discriminate Hcol| |discriminate Hcol].
    destruct Hc01 as [-> | ->]; congruence.
  - intros Hw. exists x, y, 0. split_and!; [done|done|]. right. split; [done|]. by left.
Qed.

(** C25: every rectangle and sprite a frame draws lies on the screen,
    when the tanks are on the board and the bullets in bounds; the
    drawing never raises, and it assigns [button_rect] exactly when the
    game is over. *)
Theorem render_on_screen m p a bullets o :
  maze_wf m → on_board p → on_board a →
  (∀ b, b ∈ bullets → in_bounds (bullet_x b) (bullet_y b) = true) →
  ∃ cmds r, render m p a bullets o = Some (cmds, r) ∧
    r = (if game_over o then Some button_rect else None) ∧
    ∀ cmd, cmd ∈ cmds → on_screen cmd.
Proof.
  intros Hwf Hp Ha Hbs. destruct (draw_maze_elem m Hwf) as (mc & Hm & Hel).
  destruct (tank_draw_spec p) as [pa Hpd]. destruct (tank_draw_spec a) as [aa Had].
  destruct (render_spec m p a bullets o Hwf) as [cmds Hrender].
  exists cmds, (if game_over o then Some button_rect else None). split_and!; [exact Hrender|reflexivity|].
  intros cmd Hin.
  destruct (render_elem _ _ _ _ _ _ _ _ Hrender Hin)
    as [->|[->|[(mc' & Hm' & Hc)|[(t & Ht & tc & Htd & Hc)|[(b & Hb & ->)|(_ & [Hc|Hc])]]]]];
    [done|done| | | by apply bullet_draw_on_screen, Hbs| |].
  - rewrite Hm in Hm'. injection Hm' as <-. apply Hel in Hc as (x & y & c & Hxy & _ & Hc).
    apply draw_cell_elem in Hc as [[_ ->]|[_ [->| ->]]]; by apply tile_on_screen.
  - destruct Ht as [-> | ->]; [rewrite Hpd in Htd|rewrite Had in Htd];
      injection Htd as <-; apply list_elem_of_singleton in Hc as ->; by apply tile_on_screen.
  - unfold draw_result in Hc. destruct (text_size 72 _). by apply list_elem_of_singleton in Hc as ->.
  - simpl in Hc. rewrite elem_of_cons, list_elem_of_singleton in Hc.
    destruct Hc as [-> | ->]; [|done]. cbv [on_screen rect_on_screen button_rect]. split_and!; vm_compute; congruence.
Qed.
(** C27: the restart control is on screen exactly when the game is
    over: the frame's display holds the green button rectangle if and
    only if [game_over] is set. *)
Theorem render_button_iff m p a bullets o cmds r :
  maze_wf m → render m p a bullets o = Some (cmds, r) →
  DrawRect (0, 200, 0) button_rect 0 ∈ cmds ↔ game_over o = true.
Proof.
  intros Hwf Hr. split.
  - intros Hin.
    destruct (render_elem _ _ _ _ _ _ _ _ Hr Hin)
      as [Hc|[Hc|[(mc & Hm & Hc)|[(t & _ & tc & Htd & Hc)|[(b & _ & Hc)|[Hgo _]]]]]];
      [discriminate Hc|discriminate Hc| | |discriminate Hc|exact Hgo].
    + destruct (draw_maze_elem m Hwf) as (mc' & Hm' & Hel). rewrite Hm in Hm'.
      injection Hm' as <-. apply Hel in Hc as (x & y & c & _ & _ & Hc).
      apply draw_cell_elem in Hc as [[_ Hc]|[_ [Hc|Hc]]]; discriminate Hc.
    + destruct (tank_draw_spec t) as [ta Ht]. rewrite Ht in Htd. injection Htd as <-.
      apply list_elem_of_singleton in Hc. discriminate Hc.
  - intros Hgo. revert Hr. unfold render.
    destruct (draw_maze m) as [mc|]; cbn [mbind option_bind]; [|done].
    destruct (tank_draw p) as [pc|]; cbn [mbind option_bind]; [|done].
    destruct (tank_draw a) as [ac|]; cbn [mbind option_bind]; [|done].
    rewrite Hgo. intros Hr.
    assert (cmds = [Fill WHITE] ++ mc ++ pc ++ ac ++ map bullet_draw bullets ++
                   draw_result (result_text o) ++ draw_restart_button.2 ++ [Flip])
      as -> by (injection Hr as <-; reflexivity).
    rewrite !elem_of_app. do 6 right. left. by left.
Qed.
End render_spec.

(** C24: [Tank.draw] never raises [KeyError], and it turns the sprite
    (drawn facing up: the angle of ['UP'] is 0) to point where the
    tank shoots: the rotation by the angle of the tank's direction maps
    the image's up, [(0, -1)], to the step a bullet fired by the tank
    makes in [Bullet.move]. *)
Theorem tank_draw_faces_shot t :
  ∃ a, tank_draw t = Some [BlitSprite (tank_image t) a (tile (tank_x t) (tank_y t))] ∧
    let b := new_bullet (tank_x t) (tank_y t) (direction t) t in
    rotate_ccw a (0, -1) = (bullet_x (bullet_move b) - bullet_x b, bullet_y (bullet_move b) - bullet_y b).
Proof.
  unfold tank_draw. rewrite rotation_lookup. eexists. split; [done|].
  destruct t as [x y p []]; unfold rotate_ccw; simpl; f_equal; lia.
Qed.

(** ** Witnesses *)

#[local] Existing Instance fixed_metrics.

Lemma draw_maze_walls_witness :
  ∃ cmds, draw_maze (<[1%nat := <[2%nat := 1]> (replicate 15%nat 0)]> empty_maze) = Some cmds ∧
    ∀ x y, in_bounds x y = true →
      (DrawRect GRAY (tile x y) 0 ∈ cmds ↔
         maze_get (<[1%nat := <[2%nat := 1]> (replicate 15%nat 0)]> empty_maze) x y = Some 1) ∧
      (DrawRect WHITE (tile x y) 0 ∈ cmds ↔
         maze_get (<[1%nat := <[2%nat := 1]> (replicate 15%nat 0)]> empty_maze) x y = Some 0).
Proof. apply draw_maze_walls. apply (bool_decide_unpack _). vm_compute. exact I. Defined.

Lemma render_on_screen_witness :
  ∃ cmds r, render empty_maze (new_tank 1 1 true) (new_tank 13 13 false) [mkBullet 5 5 UP true]
              (mkOutcome true "WIN") = Some (cmds, r) ∧
    r = Some button_rect ∧ ∀ cmd, cmd ∈ cmds → on_screen cmd.
Proof.
  apply render_on_screen; [apply empty_maze_wf|reflexivity|reflexivity|].
  intros b ->%list_elem_of_singleton. reflexivity.
Defined.

Lemma render_button_iff_witness :
  ∃ cmds r, render empty_maze (new_tank 1 1 true) (new_tank 13 13 false) [] (mkOutcome false "")
              = Some (cmds, r) ∧
    (DrawRect (0, 200, 0) button_rect 0 ∈ cmds ↔ game_over (mkOutcome false "") = true).
Proof.
  destruct (render empty_maze (new_tank 1 1 true) (new_tank 13 13 false) [] (mkOutcome false ""))
    as [[cmds r]|] eqn:E; [|vm_compute in E; discriminate E].
  exists cmds, r. split; [done|]. exact (render_button_iff _ _ _ _ _ _ _ empty_maze_wf E).
Defined.

End Render.
