(* ===== verification/Session.v ===== *)
(** * Session: the globals and the frame loop of src/TankGame.py

    The globals of the script are the fields of [Session]; the random
    generator's state is one more field, and [button] is the global
    [button_rect], which line 175 assigns the first time a game-over
    screen is drawn ([None] before).  [reset_game] is lines 126-134,
    [init_session] lines 136 and 159-161, [draw_phase] the drawing of
    lines 163-177, [handle_events] the event loop of lines 179-185,
    [player_turn_step] and [ai_turn_step] the two branches of lines
    190-213, [game_step] the block [if not game_over:] of lines
    187-229, and [frame] one iteration of [while running] (lines
    162-231; [clock.tick] produces no state).  [step] and [reachable]
    are the game as a transition system; [session_inv] is its
    invariant, and this file proves the lemmas that carry it through
    each part of a frame. *)

From stdpp Require Import base list gmap strings relations.
From Stdlib Require Import ZArith Lia.
From S2P Require Import Prelude Grid Tank Bullet Vision Resolver Render.
Import Grid Tank Bullet Vision Resolver Render.

Module Session.
Local Open Scope Z_scope.

(** [pygame.key.get_pressed()] on the five keys the script reads. *)
Record Keys := mkKeys {
  k_left : bool; k_right : bool; k_up : bool; k_down : bool; k_space : bool
}.

Definition no_keys : Keys := mkKeys false false false false false.

(** The events the loop distinguishes. *)
Inductive Event :=
  | QUIT
  | MOUSEBUTTONDOWN (pos : Z * Z)
  | OTHER_EVENT.

#[export] Instance Event_eq_dec : EqDecision Event.
Proof. solve_decision. Defined.

Section session.
Context `{RandomSource Rng} `{FontMetrics}.

Record Session := mkSession {
  maze : Maze;
  player_tank : Tank;
  ai_tank : Tank;
  bullets : Bullets;
  player_turn : bool;
  outcome : Outcome;
  running : bool;
  rng : Rng;
  button : option Rect
}.

Definition set_running (s : Session) (b : bool) : Session :=
  mkSession (maze s) (player_tank s) (ai_tank s) (bullets s) (player_turn s) (outcome s) b (rng s)
    (button s).

(** [button_rect = draw_restart_button()] (line 175). *)
Definition set_button (s : Session) (r : Rect) : Session :=
  mkSession (maze s) (player_tank s) (ai_tank s) (bullets s) (player_turn s) (outcome s)
    (running s) (rng s) (Some r).

(** [reset_game()]: a new maze, the tanks at their start cells, no
    bullets, the player's turn, no result. *)
Definition reset_game (s : Session) : option Session :=
  generate_maze (rng s) ≫= λ mr : Maze * Rng,
  Some (mkSession mr.1 (new_tank 1 1 true) (new_tank (COLS - 2) (ROWS - 2) false)
          (clear_bullets (bullets s)) true (mkOutcome false "") (running s) mr.2 (button s)).

(** Lines 136 and 159-161: [reset_game()] on fresh globals, then
    [game_over = False], [result_text = ""], [running = True]. *)
Definition init_session (r : Rng) : option Session :=
  generate_maze r ≫= λ mr : Maze * Rng,
  Some (mkSession mr.1 (new_tank 1 1 true) (new_tank (COLS - 2) (ROWS - 2) false)
          (mkBullets ∅ [] 0) true (mkOutcome false "") true mr.2 None).

(** One event: [QUIT] stops the loop after this frame; a click on the
    restart button while the game is over restarts it. *)
Definition handle_event (s : Session) (e : Event) : option Session :=
  let s1 := if e is QUIT then set_running s false else s in
  if game_over (outcome s1) then
    match e with
    | MOUSEBUTTONDOWN pos =>
        r ← button s1; if collidepoint r pos then reset_game s1 else Some s1
    | _ => Some s1
    end
  else Some s1.

Fixpoint handle_events (s : Session) (evs : list Event) : option Session :=
  match evs with
  | [] => Some s
  | e :: evs' => handle_event s e ≫= λ s1, handle_events s1 evs'
  end.

(** [if keys[k]: player_tank.move(dx, dy)] *)
Definition move_if (m : Maze) (pressed : bool) (t : Tank) (dx dy : Z) : option Tank :=
  if pressed then tank_move m t dx dy else Some t.

(** Lines 191-209: up to four moves, in the order LEFT, RIGHT, UP,
    DOWN, then the shot from where the tank ends; only a move ends
    the turn. *)
Definition player_turn_step (keys : Keys) (s : Session) : option Session :=
  let m := maze s in
  p1 ← move_if m (k_left keys) (player_tank s) (-1) 0;
  p2 ← move_if m (k_right keys) p1 1 0;
  p3 ← move_if m (k_up keys) p2 0 (-1);
  p4 ← move_if m (k_down keys) p3 0 1;
  let moved := k_left keys || k_right keys || k_up keys || k_down keys in
  let bs := if k_space keys
            then append_bullet (bullets s) (new_bullet (tank_x p4) (tank_y p4) (direction p4) p4)
            else bullets s in
  Some (mkSession m p4 (ai_tank s) bs (if moved then false else player_turn s)
          (outcome s) (running s) (rng s) (button s)).

(** Lines 211-213: [ai_move()], then the player's turn. *)
Definition ai_turn_step (s : Session) : option Session :=
  ai_move (maze s) (ai_tank s) (player_tank s) (bullets s) (rng s) ≫= λ r : Tank * Bullets * Rng,
  let '(ai, bs, r') := r in
  Some (mkSession (maze s) (player_tank s) ai bs true (outcome s) (running s) r' (button s)).

(** Lines 163-177: the frame's drawing, which assigns [button_rect]
    when the game is over; the display list and the session after. *)
Definition draw_phase (s : Session) : option (list DrawCmd * Session) :=
  render (maze s) (player_tank s) (ai_tank s) (live_bullets (bullets s)) (outcome s)
    ≫= λ r : list DrawCmd * option Rect,
  Some (r.1, from_option (set_button s) s r.2).

(** Lines 187-229: [if not game_over:] the turn, then the bullets. *)
Definition game_step (s1 : Session) (keys : Keys) : option Session :=
  if game_over (outcome s1) then Some s1
  else
    s2 ← (if player_turn s1 then player_turn_step keys s1 else ai_turn_step s1);
    resolve_bullets (maze s2) (player_tank s2) (ai_tank s2) (bullets s2) (outcome s2)
      ≫= λ r : Bullets * Outcome,
    Some (mkSession (maze s2) (player_tank s2) (ai_tank s2) r.1 (player_turn s2) r.2
            (running s2) (rng s2) (button s2)).

(** One iteration of [while running] (lines 162-231): draw, read the
    events, play. *)
Definition frame (s : Session) (evs : list Event) (keys : Keys) : option Session :=
  d ← draw_phase s;
  s1 ← handle_events d.2 evs;
  game_step s1 keys.

(** Several frames, each with its events and keys. *)
Fixpoint run_frames (s : Session) (inputs : list (list Event * Keys)) : option Session :=
  match inputs with
  | [] => Some s
  | (evs, keys) :: rest => frame s evs keys ≫= λ s', run_frames s' rest
  end.

(** ** The game as a transition system *)

Inductive step : Session → Session → Prop :=
  | step_frame s evs keys s' :
      running s = true → frame s evs keys = Some s' → step s s'.

Definition reachable (s : Session) : Prop :=
  ∃ r s0, init_session r = Some s0 ∧ rtc step s0 s.

(** The invariant between the moves of a frame: the maze is well
    formed, both tanks are on the board with their roles, and the
    bullet list is well formed. *)
Definition core_inv (s : Session) : Prop :=
  maze_wf (maze s) ∧
  on_board (player_tank s) ∧ is_player (player_tank s) = true ∧
  on_board (ai_tank s) ∧ is_player (ai_tank s) = false ∧
  bullets_wf (bullets s).

(** Between frames, moreover, every live bullet is on an open cell of
    the grid. *)
Definition bullets_open (s : Session) : Prop :=
  ∀ b, b ∈ live_bullets (bullets s) →
    in_bounds (bullet_x b) (bullet_y b) = true ∧
    maze_get (maze s) (bullet_x b) (bullet_y b) = Some 0.

Definition session_inv (s : Session) : Prop := core_inv s ∧ bullets_open s.

(** Between the drawing and the end of the event loop: when the game
    is over, [button_rect] holds the drawn button. *)
Definition button_ready (s : Session) : Prop :=
  game_over (outcome s) = true → button s = Some button_rect.

(** Both tanks on open cells of the maze: the spec's "a tank never
    coincides with a blocked cell". *)
Definition tanks_open (s : Session) : Prop :=
  maze_get (maze s) (tank_x (player_tank s)) (tank_y (player_tank s)) = Some 0 ∧
  maze_get (maze s) (tank_x (ai_tank s)) (tank_y (ai_tank s)) = Some 0.
End session.

(** ** Lemmas *)

Section session_lemmas.
Context `{RandomLaws Rng} `{FontMetrics}.
Implicit Types (s : Session (Rng := Rng)).

(** [reset_game] never raises: the new session has the generated
    maze, the tanks at their start cells, no live bullet, the player's
    turn and no result. *)
Lemma reset_game_spec s :
  bullets_wf (bullets s) →
  ∃ m, generate_maze (rng s) = Some (m, (wall_draws 20 (rng s)).2) ∧
    reset_game s = Some (mkSession m (new_tank 1 1 true) (new_tank 13 13 false)
                           (clear_bullets (bullets s)) true (mkOutcome false "") (running s)
                           (wall_draws 20 (rng s)).2 (button s)) ∧
    session_inv (mkSession m (new_tank 1 1 true) (new_tank 13 13 false)
                           (clear_bullets (bullets s)) true (mkOutcome false "") (running s)
                           (wall_draws 20 (rng s)).2 (button s)).
Proof.
  intros Hbs. destruct (generate_maze_wf (rng s)) as (m & Hg & Hwf).
  exists m. unfold reset_game. rewrite Hg. split_and!; [done|done|].
  unfold session_inv, core_inv, bullets_open. split_and!; simpl; auto with tank.
  1,2: reflexivity. intros b Hb. by apply not_elem_of_nil in Hb.
Qed.

Lemma handle_event_inv s e :
  session_inv s → button_ready s →
  ∃ s', handle_event s e = Some s' ∧ session_inv s' ∧ button_ready s'.
Proof.
  intros Hinv Hbr. unfold handle_event.
  assert (Hinv1 : session_inv (if e is QUIT then set_running s false else s) ∧
                  button_ready (if e is QUIT then set_running s false else s))
    by (destruct e; done).
  destruct (game_over _) eqn:Hgo; [|by eexists].
  destruct e as [|pos|]; try by eexists.
  rewrite (Hbr Hgo). cbn [mbind option_bind]. destruct (collidepoint button_rect pos); [|by eexists].
  destruct (reset_game_spec s) as (m & _ & -> & Hinv'); [apply Hinv|].
  eexists. split_and!; [done|done|]. by intros ?.
Qed.

Lemma handle_events_inv s evs :
  session_inv s → button_ready s →
  ∃ s', handle_events s evs = Some s' ∧ session_inv s' ∧ button_ready s'.
Proof.
  revert s. induction evs as [|e evs IH]; intros s Hinv Hbr; simpl; [by eexists|].
  destruct (handle_event_inv s e Hinv Hbr) as (s1 & -> & Hinv1 & Hbr1). simpl. by apply IH.
Qed.

Lemma move_if_spec m pressed t dx dy :
  maze_wf m → on_board t →
  ∃ t', move_if m pressed t dx dy = Some t' ∧ on_board t' ∧ is_player t' = is_player t.
Proof.
  intros Hwf Ht. unfold move_if. destruct pressed; [|by eexists].
  rewrite tank_move_spec by done. eexists. split; [done|].
  destruct (tank_move_keeps m t dx dy _ Hwf (tank_move_spec m t dx dy Hwf))
    as (? & Hb & _). auto.
Qed.

Lemma player_turn_step_inv keys s :
  core_inv s → ∃ s', player_turn_step keys s = Some s' ∧ core_inv s' ∧
    maze s' = maze s ∧ ai_tank s' = ai_tank s ∧ outcome s' = outcome s ∧ rng s' = rng s ∧
    player_turn s' = (if k_left keys || k_right keys || k_up keys || k_down keys
                      then false else player_turn s).
Proof.
  unfold core_inv. intros (Hwf & Hp & Hpr & Ha & Har & Hbs). unfold player_turn_step.
  destruct (move_if_spec (maze s) (k_left keys) (player_tank s) (-1) 0 Hwf Hp) as (p1 & -> & Hp1 & Hr1). simpl.
  destruct (move_if_spec (maze s) (k_right keys) p1 1 0 Hwf Hp1) as (p2 & -> & Hp2 & Hr2). simpl.
  destruct (move_if_spec (maze s) (k_up keys) p2 0 (-1) Hwf Hp2) as (p3 & -> & Hp3 & Hr3). simpl.
  destruct (move_if_spec (maze s) (k_down keys) p3 0 1 Hwf Hp3) as (p4 & -> & Hp4 & Hr4).
  simpl. eexists. split; [done|]. split_and!; simpl; try done; [congruence|].
  destruct (k_space keys); auto with tank.
Qed.

Lemma ai_turn_step_inv s :
  core_inv s → ∃ s', ai_turn_step s = Some s' ∧ core_inv s' ∧
    maze s' = maze s ∧ player_tank s' = player_tank s ∧ outcome s' = outcome s ∧
    player_turn s' = true.
Proof.
  unfold core_inv. intros (Hwf & Hp & Hpr & Ha & Har & Hbs). unfold ai_turn_step.
  pose proof (ai_move_spec (maze s) (ai_tank s) (player_tank s) (bullets s) (rng s) Hwf Ha Hp) as Hspec.
  destruct (ai_move (maze s) (ai_tank s) (player_tank s) (bullets s) (rng s))
    as [[[ai bs] r']|] eqn:E; [|by case_bool_decide].
  destruct (ai_move_keeps _ _ _ _ _ _ _ _ Hwf Ha Hp Hbs E) as (Hai & Hair & _ & Hbs' & _).
  simpl. eexists. split; [done|]. split_and!; simpl; congruence.
Qed.

(** The resolver step that ends a frame, on a session satisfying the
    core invariant: it never raises and re-establishes the bullets'
    invariant. *)
Lemma resolve_step_inv s2 :
  core_inv s2 →
  ∃ s', resolve_bullets (maze s2) (player_tank s2) (ai_tank s2) (bullets s2) (outcome s2)
          ≫= (λ r : Bullets * Outcome,
              Some (mkSession (maze s2) (player_tank s2) (ai_tank s2) r.1 (player_turn s2) r.2
                      (running s2) (rng s2) (button s2))) = Some s' ∧ session_inv s' ∧
    player_turn s' = player_turn s2 ∧ player_tank s' = player_tank s2 ∧
    ai_tank s' = ai_tank s2.
Proof.
  unfold core_inv. intros (Hwf & Hp & Hpr & Ha & Har & Hbs).
  destruct (resolve_bullets_spec (maze s2) (player_tank s2) (ai_tank s2) (bullets s2) (outcome s2) Hwf Hbs)
    as (bs' & Heq & _ & Hbs' & _).
  rewrite Heq. simpl. eexists. split; [done|]. split_and!; try done.
  split; [unfold core_inv; simpl; split_and!; done|].
  intros b Hb. eapply resolve_bullets_on_open; [exact Hwf|exact Hbs|exact Heq|exact Hb].
Qed.

Lemma session_core s : session_inv s → core_inv s.
Proof. by intros [? _]. Qed.


(** The drawing never raises on a well-formed maze; it assigns
    [button_rect] exactly when the game is over. *)
Lemma draw_phase_spec s :
  maze_wf (maze s) →
  ∃ cmds, draw_phase s = Some (cmds, if game_over (outcome s) then set_button s button_rect else s).
Proof.
  intros Hwf. destruct (render_spec (maze s) (player_tank s) (ai_tank s) (live_bullets (bullets s))
    (outcome s) Hwf) as [cmds Hr].
  unfold draw_phase. rewrite Hr. simpl. exists cmds. by destruct (game_over _).
Qed.

Lemma draw_phase_inv s :
  session_inv s →
  ∃ cmds s0, draw_phase s = Some (cmds, s0) ∧ session_inv s0 ∧ button_ready s0 ∧
    outcome s0 = outcome s.
Proof.
  intros Hinv. destruct (draw_phase_spec s) as [cmds Hd]; [apply Hinv|].
  eexists _, _. split; [exact Hd|].
  destruct (game_over _) eqn:Hgo; split_and!; first [done|exact Hinv|intros ?; congruence].
Qed.

(** The part of a frame after the events, on a session satisfying the
    invariant. *)
Lemma game_step_inv s1 keys :
  session_inv s1 → ∃ s', game_step s1 keys = Some s' ∧ session_inv s'.
Proof.
  intros Hinv1. unfold game_step. destruct (game_over (outcome s1)); [by eexists|].
  destruct (player_turn s1).
  - destruct (player_turn_step_inv keys s1) as (s2 & -> & Hc2 & _); [by apply session_core|].
    simpl. destruct (resolve_step_inv s2 Hc2) as (s' & -> & Hs' & _). by eexists.
  - destruct (ai_turn_step_inv s1) as (s2 & -> & Hc2 & _); [by apply session_core|].
    simpl. destruct (resolve_step_inv s2 Hc2) as (s' & -> & Hs' & _). by eexists.
Qed.

(** One frame from a session that satisfies the invariant. *)
Lemma frame_preserves s evs keys :
  session_inv s → ∃ s', frame s evs keys = Some s' ∧ session_inv s'.
Proof.
  intros Hinv. destruct (draw_phase_inv s Hinv) as (cmds & s0 & Hd & Hinv0 & Hbr0 & _).
  destruct (handle_events_inv s0 evs Hinv0 Hbr0) as (s1 & Hev & Hinv1 & _).
  unfold frame. rewrite Hd. simpl. rewrite Hev. simpl. by apply game_step_inv.
Qed.

Lemma run_frames_preserves s inputs :
  session_inv s → ∃ s', run_frames s inputs = Some s' ∧ session_inv s'.
Proof.
  revert s. induction inputs as [|[evs keys] inputs IH]; intros s Hinv; simpl; [by eexists|].
  destruct (frame_preserves s evs keys Hinv) as (s1 & -> & Hinv1). simpl. by apply IH.
Qed.

Lemma init_session_spec r :
  ∃ s, init_session r = Some s ∧ session_inv s ∧
    player_tank s = new_tank 1 1 true ∧ ai_tank s = new_tank 13 13 false ∧
    player_turn s = true ∧ outcome s = mkOutcome false "" ∧ running s = true.
Proof.
  destruct (generate_maze_wf r) as (m & Hg & Hwf).
  unfold init_session. rewrite Hg. simpl. eexists. split; [done|]. split_and!; try done.
  unfold session_inv, core_inv, bullets_open. simpl. split_and!; try done.
  - split_and!; [constructor|intros i Hi; by apply not_elem_of_nil in Hi|].
    intros i [b Hb]. simpl in Hb. by rewrite lookup_empty in Hb.
  - intros b Hb. by apply not_elem_of_nil in Hb.
Qed.

Lemma steps_inv s s' : rtc step s s' → session_inv s → session_inv s'.
Proof.
  induction 1 as [s|s s1 s2 Hstep _ IH]; intros Hinv; [done|].
  apply IH. destruct Hstep as [s evs keys s1 _ Hframe].
  destruct (frame_preserves s evs keys Hinv) as (s1' & Hf & Hinv1).
  rewrite Hframe in Hf. by injection Hf as ->.
Qed.

Lemma reachable_session_inv s : reachable s → session_inv s.
Proof.
  intros (r & s0 & Hinit & Hsteps).
  destruct (init_session_spec r) as (s0' & Hinit' & Hinv0 & _).
  rewrite Hinit in Hinit'. injection Hinit' as <-. by eapply steps_inv.
Qed.

Lemma handle_event_running s e s1 :
  handle_event s e = Some s1 → running s1 = if e is QUIT then false else running s.
Proof.
  unfold handle_event. set (s0 := if e is QUIT then set_running s false else s).
  assert (Hs0 : running s0 = if e is QUIT then false else running s) by (by destruct e).
  rewrite <- Hs0. clearbody s0. clear Hs0.
  destruct (game_over (outcome s0)); [|by intros [= <-]].
  destruct e as [|pos|]; [by intros [= <-]| |by intros [= <-]].
  destruct (button s0) as [r|]; cbn [mbind option_bind]; [|done].
  destruct (collidepoint r pos); [|by intros [= <-]].
  unfold reset_game. destruct (generate_maze (rng s0)); simpl; [|done]. by intros [= <-].
Qed.

Lemma handle_events_running s evs s1 :
  handle_events s evs = Some s1 → running s1 = running s && negb (bool_decide (QUIT ∈ evs)).
Proof.
  revert s. induction evs as [|e evs IH]; intros s; simpl.
  - intros [= <-]. by rewrite andb_true_r.
  - destruct (handle_event s e) as [s2|] eqn:E; simpl; [|done].
    intros Hs. rewrite (IH _ Hs), (handle_event_running _ _ _ E).
    destruct e; rewrite ?bool_decide_eq_true_2 by (by left); simpl; [by rewrite andb_false_r| |];
      (f_equal; f_equal; apply bool_decide_ext; rewrite elem_of_cons; naive_solver).
Qed.

Lemma turn_running keys s s2 :
  (if player_turn s then player_turn_step keys s else ai_turn_step s) = Some s2 →
  running s2 = running s.
Proof.
  destruct (player_turn s).
  - unfold player_turn_step.
    destruct (move_if _ _ _ _ _); simpl; [|done]. destruct (move_if _ _ _ _ _); simpl; [|done].
    destruct (move_if _ _ _ _ _); simpl; [|done]. destruct (move_if _ _ _ _ _); simpl; [|done].
    by intros [= <-].
  - unfold ai_turn_step. destruct (ai_move _ _ _ _ _) as [[[??]?]|]; simpl; [|done].
    by intros [= <-].
Qed.

Lemma game_step_running s1 keys s' :
  game_step s1 keys = Some s' → running s' = running s1.
Proof.
  unfold game_step. destruct (game_over (outcome s1)); [by intros [= <-]|].
  destruct (if player_turn s1 then _ else _) as [s2|] eqn:E2; simpl; [|done].
  rewrite <- (turn_running _ _ _ E2).
  destruct (resolve_bullets _ _ _ _ _); simpl; [|done]. by intros [= <-].
Qed.

Lemma handle_events_frozen s evs :
  game_over (outcome s) = true → button s = Some button_rect →
  (∀ pos, MOUSEBUTTONDOWN pos ∈ evs → collidepoint button_rect pos = false) →
  handle_events s evs = Some (set_running s (if bool_decide (QUIT ∈ evs) then false else running s)).
Proof.
  revert s. induction evs as [|e evs IH]; intros s Hgo Hb Hclick; cbn [handle_events].
  - by destruct s.
  - assert (Hclick' : ∀ pos, MOUSEBUTTONDOWN pos ∈ evs → collidepoint button_rect pos = false)
      by (intros pos Hp; apply Hclick; by right).
    assert (E : ∀ e', e' ≠ QUIT → bool_decide (QUIT ∈ e' :: evs) = bool_decide (QUIT ∈ evs))
      by (intros e' Hne; apply bool_decide_ext; rewrite elem_of_cons; naive_solver).
    unfold handle_event. destruct e as [|pos|]; cbn [set_running outcome button]; rewrite Hgo.
    + cbn [mbind option_bind]. rewrite IH by done.
      rewrite (bool_decide_eq_true_2 (QUIT ∈ QUIT :: evs)) by by left.
      cbn [set_running running]. by destruct (bool_decide (QUIT ∈ evs)).
    + rewrite Hb. cbn [mbind option_bind].
      rewrite (Hclick pos (list_elem_of_here _ _)). cbn [mbind option_bind].
      rewrite IH, E by done. done.
    + cbn [mbind option_bind]. rewrite IH, E by done. done.
Qed.

(** A move never takes a tank from an open cell onto a wall. *)
Lemma move_if_open m pressed t dx dy t' :
  maze_wf m → move_if m pressed t dx dy = Some t' →
  maze_get m (tank_x t) (tank_y t) = Some 0 → maze_get m (tank_x t') (tank_y t') = Some 0.
Proof.
  intros Hwf. unfold move_if. destruct pressed; [|by intros [= <-]].
  intros E. by destruct (tank_move_keeps m t dx dy t' Hwf E) as (_ & _ & ?).
Qed.

Lemma turn_tanks_open keys s s2 :
  core_inv s → tanks_open s →
  (if player_turn s then player_turn_step keys s else ai_turn_step s) = Some s2 → tanks_open s2.
Proof.
  intros (Hwf & Hp & _ & Ha & _ & Hbs) [Hpo Hao]. destruct (player_turn s).
  - unfold player_turn_step.
    destruct (move_if _ (k_left keys) _ _ _) as [p1|] eqn:E1; simpl; [|done].
    destruct (move_if _ (k_right keys) _ _ _) as [p2|] eqn:E2; simpl; [|done].
    destruct (move_if _ (k_up keys) _ _ _) as [p3|] eqn:E3; simpl; [|done].
    destruct (move_if _ (k_down keys) _ _ _) as [p4|] eqn:E4; simpl; [|done].
    intros [= <-]. split; [|done]. simpl.
    by do 4 (eapply move_if_open; [done|eassumption|]).
  - unfold ai_turn_step.
    destruct (ai_move _ _ _ _ _) as [[[ai bs] r']|] eqn:E; simpl; [|done]. intros [= <-].
    destruct (ai_move_keeps _ _ _ _ _ _ _ _ Hwf Ha Hp Hbs E) as (_ & _ & Hopen & _).
    split; [done|]. simpl. by apply Hopen.
Qed.

(** The turn and the bullet loop keep both tanks on open cells. *)
Lemma game_step_tanks_open s1 keys s' :
  session_inv s1 → tanks_open s1 → game_step s1 keys = Some s' → tanks_open s'.
Proof.
  intros Hinv Ho. unfold game_step. destruct (game_over _); [by intros [= <-]|].
  destruct (if player_turn s1 then _ else _) as [s2|] eqn:E2; simpl; [|done].
  pose proof (turn_tanks_open keys s1 s2 (session_core s1 Hinv) Ho E2) as Ho2.
  destruct (resolve_bullets _ _ _ _ _); simpl; [|done]. by intros [= <-].
Qed.

(** Events without a click only stop the loop on [QUIT]. *)
Lemma handle_events_noclick s evs :
  (∀ pos, MOUSEBUTTONDOWN pos ∉ evs) →
  handle_events s evs = Some (set_running s (running s && negb (bool_decide (QUIT ∈ evs)))).
Proof.
  revert s. induction evs as [|e evs IH]; intros s Hnc; cbn [handle_events].
  - rewrite andb_true_r. by destruct s.
  - assert (Hnc' : ∀ pos, MOUSEBUTTONDOWN pos ∉ evs)
      by (intros pos Hin; apply (Hnc pos); by right).
    destruct e as [|pos|].
    + assert (handle_event s QUIT = Some (set_running s false)) as ->
        by (unfold handle_event; by destruct (game_over _)).
      cbn [mbind option_bind]. rewrite IH by done.
      rewrite (bool_decide_eq_true_2 (QUIT ∈ QUIT :: evs)) by by left.
      cbn [set_running running negb andb]. rewrite andb_false_r. by destruct s.
    + exfalso. apply (Hnc pos). by left.
    + assert (handle_event s OTHER_EVENT = Some s) as ->
        by (unfold handle_event; by destruct (game_over _)).
      cbn [mbind option_bind]. rewrite IH by done.
      rewrite (bool_decide_ext (QUIT ∈ OTHER_EVENT :: evs) (QUIT ∈ evs)); [done|].
      rewrite elem_of_cons. naive_solver.
Qed.

End session_lemmas.

#[export] Hint Resolve session_core : tank.

End Session.
