(* ===== verification/Restart.v ===== *)
(** * Restart: a restart is a fresh start

    [reset_game] (lines 126-134) rebinds the globals of the game, but
    unlike the start of the program (line 136) it does not start from
    an empty heap: [bullets = []] drops the list, while the bullet
    objects of the old game stay allocated, and new bullets get new
    identities.  [session_equiv] identifies the sessions the script
    cannot tell apart: the same globals and generator state and the
    same live bullets as values, whatever their identities.  Each part
    of a frame respects it on sessions that satisfy the invariant, so
    [frame] and [run_frames] are [Proper] for the partial equivalence
    [session_sim]; hence a restart leads, frame by frame, to the same
    game as a fresh start of the program from the same generator
    state. *)

From stdpp Require Import base list gmap strings relations.
From Stdlib Require Import ZArith Lia.
From S2P Require Import Prelude Grid Tank Bullet Vision Resolver Render Session.
Import Grid Tank Bullet Vision Resolver Render Session.

Module Restart.

Section restart.
Context `{RandomLaws Rng} `{FontMetrics}.
Implicit Types (s : Session (Rng := Rng)).

(** Two sessions the script cannot tell apart. *)
Definition session_equiv (s1 s2 : Session (Rng := Rng)) : Prop :=
  maze s1 = maze s2 ∧ player_tank s1 = player_tank s2 ∧ ai_tank s1 = ai_tank s2 ∧
  live_bullets (bullets s1) = live_bullets (bullets s2) ∧ player_turn s1 = player_turn s2 ∧
  outcome s1 = outcome s2 ∧ running s1 = running s2 ∧ rng s1 = rng s2 ∧ button s1 = button s2.

(** The same, between sessions that satisfy the invariant. *)
Definition session_sim (s1 s2 : Session (Rng := Rng)) : Prop :=
  session_inv s1 ∧ session_inv s2 ∧ session_equiv s1 s2.

(** The session [s0] with the loop flag and [button_rect] of [s], the
    two globals [reset_game] does not rebind. *)
Definition with_globals (s0 s : Session (Rng := Rng)) : Session (Rng := Rng) :=
  mkSession (maze s0) (player_tank s0) (ai_tank s0) (bullets s0) (player_turn s0) (outcome s0)
    (running s) (rng s0) (button s).

(** ** The equivalence and the parts of a frame *)

#[export] Instance session_equiv_equivalence : Equivalence session_equiv.
Proof.
  unfold session_equiv. split.
  - intros s. done.
  - intros s1 s2 (? & ? & ? & ? & ? & ? & ? & ? & ?). by split_and!.
  - intros s1 s2 s3 (? & ? & ? & ? & ? & ? & ? & ? & ?) (? & ? & ? & ? & ? & ? & ? & ? & ?).
    split_and!; congruence.
Qed.

#[export] Instance session_sim_per : RelationClasses.PER session_sim.
Proof.
  split.
  - intros s1 s2 (? & ? & ?). split_and!; [done|done|by symmetry].
  - intros s1 s2 s3 (? & _ & ?) (_ & ? & ?). split_and!; [done|done|by etrans].
Qed.

#[export] Instance set_button_proper : Proper (session_equiv ==> (=) ==> session_equiv) set_button.
Proof. intros s1 s2 (? & ? & ? & ? & ? & ? & ? & ? & ?) r ? <-. by split_and!. Qed.

#[export] Instance set_running_proper : Proper (session_equiv ==> (=) ==> session_equiv) set_running.
Proof. intros s1 s2 (? & ? & ? & ? & ? & ? & ? & ? & ?) b ? <-. by split_and!. Qed.

Lemma draw_phase_equiv s1 s2 :
  session_equiv s1 s2 →
  option_Forall2 (λ d1 d2, d1.1 = d2.1 ∧ session_equiv d1.2 d2.2) (draw_phase s1) (draw_phase s2).
Proof.
  intros Heq. pose proof Heq as (Hm & Hp & Ha & Hb & _ & Ho & _).
  unfold draw_phase. rewrite Hm, Hp, Ha, Hb, Ho.
  destruct (render _ _ _ _ _) as [[cmds [r|]]|]; constructor; split; simpl; try done.
  by rewrite Heq.
Qed.

(** [reset_game] forgets the bullet objects: it depends on the live
    bullets only through the list it empties. *)
Lemma reset_game_equiv s1 s2 :
  session_equiv s1 s2 → option_Forall2 session_equiv (reset_game s1) (reset_game s2).
Proof.
  intros (? & ? & ? & ? & ? & ? & Hr & Hg & Hb). unfold reset_game. rewrite Hg.
  destruct (generate_maze _) as [[m r]|]; constructor. by split_and!.
Qed.

Lemma handle_events_equiv s1 s2 evs :
  session_equiv s1 s2 → option_Forall2 session_equiv (handle_events s1 evs) (handle_events s2 evs).
Proof.
  revert s1 s2. induction evs as [|e evs IH]; intros s1 s2 Heq; simpl; [by constructor|].
  assert (Heq1 : session_equiv (if e is QUIT then set_running s1 false else s1)
                               (if e is QUIT then set_running s2 false else s2))
    by (destruct e; by rewrite Heq).
  assert (Hh : option_Forall2 session_equiv (handle_event s1 e) (handle_event s2 e)).
  { unfold handle_event. pose proof Heq1 as (_ & _ & _ & _ & _ & -> & _ & _ & Hb).
    destruct (game_over _); [|by constructor]. destruct e as [|pos|]; try by constructor.
    rewrite Hb. destruct (button s2) as [r|]; simpl; [|constructor].
    destruct (collidepoint r pos); [by apply reset_game_equiv|by constructor]. }
  destruct Hh as [s1' s2' Hh|]; simpl; [by apply IH|constructor].
Qed.


Lemma with_globals_inv s0 s : session_inv s0 → session_inv (with_globals s0 s).
Proof. by destruct s0. Qed.

(** [reset_game] and the start of the program make the same game from
    the same generator state. *)
Lemma reset_fresh_equiv s s' s0 :
  reset_game s = Some s' → init_session (rng s) = Some s0 → session_equiv s' (with_globals s0 s).
Proof.
  unfold reset_game, init_session. destruct (generate_maze (rng s)) as [[m r]|]; [|done].
  intros [= <-] [= <-]. by split_and!.
Qed.

(** The turns and the resolver read the bullets only as values. *)
Lemma ai_move_equiv m ai p bs1 bs2 r :
  bullets_wf bs1 → bullets_wf bs2 → live_bullets bs1 = live_bullets bs2 →
  option_Forall2 (λ x1 x2 : Tank * Bullets * Rng,
                    x1.1.1 = x2.1.1 ∧ live_bullets x1.1.2 = live_bullets x2.1.2 ∧ x1.2 = x2.2)
    (ai_move m ai p bs1 r) (ai_move m ai p bs2 r).
Proof.
  intros Hw1 Hw2 Hl. unfold ai_move.
  destruct (ai_can_see_player m ai p) as [[[] ai1]|]; simpl; [| |constructor].
  - constructor. simpl. by rewrite !append_live_bullets, Hl.
  - destruct (shuffle ai_moves r) as [moves r']. by destruct (try_moves m ai1 moves); constructor.
Qed.

Lemma turn_step_equiv keys s1 s2 :
  bullets_wf (bullets s1) → bullets_wf (bullets s2) → session_equiv s1 s2 →
  option_Forall2 session_equiv (player_turn_step keys s1) (player_turn_step keys s2) ∧
  option_Forall2 session_equiv (ai_turn_step s1) (ai_turn_step s2).
Proof.
  intros Hw1 Hw2 (Hm & Hp & Ha & Hb & Ht & Ho & Hr & Hg & Hbt). split.
  - unfold player_turn_step. rewrite Hm, Hp.
    repeat (destruct (move_if _ _ _ _ _); simpl; [|constructor]).
    constructor. split_and!; simpl; try congruence; [|by rewrite Ht].
    destruct (k_space keys); [by rewrite !append_live_bullets, Hb|done].
  - unfold ai_turn_step. rewrite Hm, Ha, Hp, Hg.
    destruct (ai_move_equiv (maze s2) (ai_tank s2) (player_tank s2) _ _ (rng s2) Hw1 Hw2 Hb)
      as [[[ai1 bs1] r1] [[ai2 bs2] r2] (? & ? & ?)|]; simpl in *; subst; constructor.
    by split_and!.
Qed.

Lemma resolve_step_equiv t1 t2 :
  core_inv t1 → core_inv t2 → session_equiv t1 t2 →
  option_Forall2 session_equiv
    (resolve_bullets (maze t1) (player_tank t1) (ai_tank t1) (bullets t1) (outcome t1)
       ≫= λ r : Bullets * Outcome, Some (mkSession (maze t1) (player_tank t1) (ai_tank t1) r.1
                                          (player_turn t1) r.2 (running t1) (rng t1) (button t1)))
    (resolve_bullets (maze t2) (player_tank t2) (ai_tank t2) (bullets t2) (outcome t2)
       ≫= λ r : Bullets * Outcome, Some (mkSession (maze t2) (player_tank t2) (ai_tank t2) r.1
                                          (player_turn t2) r.2 (running t2) (rng t2) (button t2))).
Proof.
  intros (Hwf1 & _ & _ & _ & _ & Hw1) (Hwf2 & _ & _ & _ & _ & Hw2)
    (Hm & Hp & Ha & Hb & Ht & Ho & Hr & Hg & Hbt).
  destruct (resolve_bullets_spec _ (player_tank t1) (ai_tank t1) _ (outcome t1) Hwf1 Hw1)
    as (bs1 & -> & Hl1 & _).
  destruct (resolve_bullets_spec _ (player_tank t2) (ai_tank t2) _ (outcome t2) Hwf2 Hw2)
    as (bs2 & -> & Hl2 & _).
  simpl. constructor. rewrite Hm, Hp, Ha, Hb, Ho in *. by split_and!; simpl; try congruence.
Qed.

Lemma game_step_equiv s1 s2 keys :
  core_inv s1 → core_inv s2 → session_equiv s1 s2 →
  option_Forall2 session_equiv (game_step s1 keys) (game_step s2 keys).
Proof.
  intros Hc1 Hc2 Heq. pose proof Heq as (_ & _ & _ & _ & Ht & Ho & _).
  destruct (turn_step_equiv keys s1 s2) as [Hpe Hae]; [apply Hc1|apply Hc2|done|].
  unfold game_step. rewrite Ho. destruct (game_over _); [by constructor|]. rewrite Ht.
  destruct (player_turn s2).
  - destruct (player_turn_step_inv keys s1 Hc1) as (u1 & E1 & Hu1 & _).
    destruct (player_turn_step_inv keys s2 Hc2) as (u2 & E2 & Hu2 & _).
    rewrite E1, E2 in Hpe |- *. inversion Hpe; subst. simpl. by apply resolve_step_equiv.
  - destruct (ai_turn_step_inv s1 Hc1) as (u1 & E1 & Hu1 & _).
    destruct (ai_turn_step_inv s2 Hc2) as (u2 & E2 & Hu2 & _).
    rewrite E1, E2 in Hae |- *. inversion Hae; subst. simpl. by apply resolve_step_equiv.
Qed.

(** ** Frames and runs *)

(** A frame cannot tell equivalent sessions apart. *)
#[export] Instance frame_proper :
  Proper (session_sim ==> (=) ==> (=) ==> option_Forall2 session_sim) (frame (Rng := Rng)).
Proof.
  intros s1 s2 (Hi1 & Hi2 & Heq) evs ? <- keys ? <-.
  destruct (draw_phase_inv s1 Hi1) as (c1 & u1 & Ed1 & Hu1 & Hbr1 & _).
  destruct (draw_phase_inv s2 Hi2) as (c2 & u2 & Ed2 & Hu2 & Hbr2 & _).
  pose proof (draw_phase_equiv s1 s2 Heq) as Hd. rewrite Ed1, Ed2 in Hd.
  inversion Hd as [? ? [_ Hu]|]; subst.
  destruct (handle_events_inv u1 evs Hu1 Hbr1) as (v1 & Ev1 & Hv1 & _).
  destruct (handle_events_inv u2 evs Hu2 Hbr2) as (v2 & Ev2 & Hv2 & _).
  pose proof (handle_events_equiv u1 u2 evs Hu) as Hh. rewrite Ev1, Ev2 in Hh.
  inversion Hh as [? ? Hv|]; subst.
  destruct (game_step_inv v1 keys Hv1) as (w1 & Ew1 & Hw1).
  destruct (game_step_inv v2 keys Hv2) as (w2 & Ew2 & Hw2).
  pose proof (game_step_equiv v1 v2 keys (session_core _ Hv1) (session_core _ Hv2) Hv) as Hg.
  unfold frame. rewrite Ed1, Ed2. simpl. rewrite Ev1, Ev2. simpl. rewrite Ew1, Ew2 in Hg |- *.
  inversion Hg; subst. by constructor.
Qed.

#[export] Instance run_frames_proper :
  Proper (session_sim ==> (=) ==> option_Forall2 session_sim) (run_frames (Rng := Rng)).
Proof.
  intros s1 s2 Hs inputs ? <-. revert s1 s2 Hs.
  induction inputs as [|[evs keys] inputs IH]; intros s1 s2 Hs; simpl; [by constructor|].
  pose proof (frame_proper s1 s2 Hs evs evs eq_refl keys keys eq_refl) as Hf.
  destruct Hf as [u1 u2 Hu|]; simpl; [by apply IH|constructor].
Qed.

End restart.
End Restart.
