(* ===== verification/Game.v ===== *)
(** * Game: what the game loop of src/TankGame.py guarantees

    The theorems about whole frames and runs of [Session]: safety and
    the invariant of every reachable session, the tanks kept off the
    walls between restarts, the turn controller, the game-over screen
    and the restart (a fresh start, by the equivalence of [Restart]),
    the unchecked start cells, [QUIT], the [button_rect] global, and
    concrete runs from the start position with the scripted generator
    of [Prelude] and the fixed-width font of [Render]. *)

From stdpp Require Import base list gmap strings relations.
From Stdlib Require Import ZArith Lia.
From S2P Require Import Prelude Grid Tank Bullet Vision Resolver Render Session Restart.
Import Grid Tank Bullet Vision Resolver Render Session Restart.

Module Game.
Local Open Scope Z_scope.

Section game_claims.
Context `{RandomLaws Rng} `{FontMetrics}.
Implicit Types (s : Session (Rng := Rng)).

(** C1: a frame never raises (no [IndexError] on the maze, no
    [ValueError] from [remove]) and keeps the invariant: the maze well
    formed, both tanks on the board, the bullet list well formed, every
    live bullet on an open cell. *)
Theorem frame_safe s evs keys :
  session_inv s → ∃ s', frame s evs keys = Some s' ∧ session_inv s'.
Proof. apply frame_preserves. Qed.

(** C2: every reachable session satisfies the invariant; in
    particular no live bullet is ever on a wall or off the grid, and
    both tanks stay on the board. *)
Theorem reachable_inv s : reachable s → session_inv s.
Proof. apply reachable_session_inv. Qed.

(** C22: [QUIT] ends the loop: after a frame whose events hold a
    [QUIT], [running] is false (a restart in the same frame does not
    undo it), and the session has no further step. *)
Theorem quit_stops s evs keys s' :
  QUIT ∈ evs → frame s evs keys = Some s' →
  running s' = false ∧ ∀ s'', ¬ step s' s''.
Proof.
  intros Hq. unfold frame. destruct (draw_phase s) as [[cmds s0]|]; simpl; [|done].
  destruct (handle_events s0 evs) as [s1|] eqn:E; simpl; [|done].
  pose proof (handle_events_running _ _ _ E) as Hr.
  rewrite bool_decide_eq_true_2, andb_false_r in Hr by done.
  intros Hf. assert (Hrun : running s' = false) by by rewrite (game_step_running _ _ _ Hf).
  split; [done|]. intros s'' Hs. inversion Hs. congruence.
Qed.

(** C16: once the game is over, a frame without a click on the restart
    button changes nothing but [running] (a [QUIT] still ends the
    loop): the simulation is frozen until restart. *)
Theorem frame_frozen s evs keys :
  maze_wf (maze s) → game_over (outcome s) = true →
  (∀ pos, MOUSEBUTTONDOWN pos ∈ evs → collidepoint button_rect pos = false) →
  frame s evs keys =
    Some (set_running (set_button s button_rect) (if bool_decide (QUIT ∈ evs) then false else running s)).
Proof.
  intros Hwf Hgo Hclick. destruct (draw_phase_spec s Hwf) as [cmds Hd]. rewrite Hgo in Hd.
  unfold frame. rewrite Hd. cbn [mbind option_bind fst snd].
  rewrite handle_events_frozen by done. cbn [mbind option_bind]. unfold game_step. cbn [outcome set_running set_button]. by rewrite Hgo.
Qed.

(** C17: a click on the restart button while the game is over runs
    [reset_game], and the rest of the same frame (the player's keys and
    the resolver) already runs on the new session. *)
Theorem frame_restart s pos keys :
  maze_wf (maze s) → game_over (outcome s) = true → collidepoint button_rect pos = true →
  frame s [MOUSEBUTTONDOWN pos] keys =
    reset_game (set_button s button_rect) ≫= λ s1, game_step s1 keys.
Proof.
  intros Hwf Hgo Hcol. destruct (draw_phase_spec s Hwf) as [cmds Hd]. rewrite Hgo in Hd.
  unfold frame. rewrite Hd. cbn [mbind option_bind fst snd handle_events].
  unfold handle_event. cbn [outcome set_button button]. rewrite Hgo. cbn [mbind option_bind].
  rewrite Hcol. by destruct (reset_game _).
Qed.

(** C18: a restart is a fresh start: on a session satisfying the
    invariant [reset_game] never raises, and from the session it makes
    the game runs, for every input, as the program does when started
    anew from the same generator state (with the same loop flag and
    [button_rect]): after every frame the same globals and the same
    live bullets, although the old bullet objects stay allocated. *)
Theorem reset_game_restores s :
  session_inv s →
  ∃ s' s0, reset_game s = Some s' ∧ init_session (rng s) = Some s0 ∧
    ∀ inputs, option_Forall2 session_equiv (run_frames s' inputs) (run_frames (with_globals s0 s) inputs).
Proof.
  intros Hinv. destruct (reset_game_spec s) as (m & _ & Hr & Hi'); [apply Hinv|].
  destruct (init_session_spec (rng s)) as (s0 & Hs0 & Hi0 & _).
  eexists _, s0. split_and!; [exact Hr|exact Hs0|]. intros inputs.
  assert (Hsim : session_sim _ (with_globals s0 s))
    by (split_and!; [exact Hi'|by apply with_globals_inv|exact (reset_fresh_equiv _ _ _ Hr Hs0)]).
  destruct (run_frames_proper _ _ Hsim inputs inputs eq_refl) as [? ? (_ & _ & ?)|]; by constructor.
Qed.

(** C19: turns alternate: on the player's turn a frame with no events
    ends the turn exactly when an arrow key is pressed (a shot alone
    keeps it) and the opponent does not act; on the opponent's turn the
    opponent's tank and the generator are those [ai_move] returns, the
    turn goes back to the player and the player's tank is left alone. *)
Theorem turn_alternation s keys s' :
  session_inv s → game_over (outcome s) = false → frame s [] keys = Some s' →
  if player_turn s
  then player_turn s' = negb (k_left keys || k_right keys || k_up keys || k_down keys) ∧
       ai_tank s' = ai_tank s
  else player_turn s' = true ∧ player_tank s' = player_tank s ∧
       ∃ bs, ai_move (maze s) (ai_tank s) (player_tank s) (bullets s) (rng s) = Some (ai_tank s', bs, rng s').
Proof.
  intros Hinv Hgo. destruct (draw_phase_spec s) as [cmds Hd]; [apply Hinv|].
  rewrite Hgo in Hd. destruct Hinv as [Hc _].
  unfold frame. rewrite Hd. cbn [mbind option_bind fst snd handle_events].
  unfold game_step. rewrite Hgo. destruct (player_turn s) eqn:Hpt.
  - destruct (player_turn_step_inv keys s Hc) as (s2 & -> & Hc2 & _ & Hai & _ & _ & Hpt2).
    simpl. destruct (resolve_step_inv s2 Hc2) as (s3 & -> & _ & Hpt3 & _ & Hai3).
    intros [= <-]. rewrite Hpt3, Hpt2, Hpt, Hai3, Hai.
    split; [|done]. by destruct (_ || _).
  - destruct (ai_turn_step_inv s Hc) as (s2 & E2 & Hc2 & _ & Hp & _ & Hpt2).
    rewrite E2. simpl. destruct (resolve_step_inv s2 Hc2) as (s3 & E3 & _ & Hpt3 & Hp3 & Ha3).
    rewrite E3. intros [= <-]. rewrite Hpt3, Hpt2, Hp3, Hp, Ha3. split_and!; [done|done|].
    unfold ai_turn_step in E2.
    destruct (ai_move _ _ _ _ _) as [[[ai bs] r']|]; simpl in E2; [|done]. injection E2 as <-.
    revert E3. destruct (resolve_bullets _ _ _ _ _) as [[??]|]; simpl; [|done].
    intros [= <-]. by exists bs.
Qed.

(** C20: one turn can hold two moves: with LEFT and UP held, the
    player moves left and then up in the same frame, ending
    diagonally; the spec allows at most one move per turn. *)
Theorem player_two_moves s :
  maze_wf (maze s) →
  can_enter (maze s) (tank_x (player_tank s) - 1) (tank_y (player_tank s)) = true →
  can_enter (maze s) (tank_x (player_tank s) - 1) (tank_y (player_tank s) - 1) = true →
  ∃ s', player_turn_step (mkKeys true false true false false) s = Some s' ∧
    tank_x (player_tank s') = tank_x (player_tank s) - 1 ∧
    tank_y (player_tank s') = tank_y (player_tank s) - 1 ∧
    player_turn s' = false.
Proof.
  intros Hwf Hl Hu. unfold player_turn_step, move_if. simpl.
  rewrite tank_move_spec by done. rewrite Z.add_comm, (Z.add_0_r (tank_y _)).
  replace (-1 + tank_x (player_tank s)) with (tank_x (player_tank s) - 1) by lia.
  rewrite Hl. simpl. rewrite tank_move_spec by done. simpl.
  rewrite Z.add_0_r. replace (tank_y (player_tank s) + -1) with (tank_y (player_tank s) - 1) by lia.
  rewrite Hu. simpl. eexists. split; [done|]. done.
Qed.

(** C26: the restart click never meets an unbound [button_rect]: the
    drawing of a frame assigns it whenever the game is over, so after
    the draw phase of a session satisfying the invariant no sequence of
    events raises (no [NameError], no [IndexError] in [reset_game]). *)
Theorem events_after_draw_safe s :
  session_inv s →
  ∃ cmds s0, draw_phase s = Some (cmds, s0) ∧
    (game_over (outcome s) = true → button s0 = Some button_rect) ∧
    ∀ evs, is_Some (handle_events s0 evs).
Proof.
  intros Hinv. destruct (draw_phase_inv s Hinv) as (cmds & s0 & Hd & Hinv0 & Hbr0 & Ho).
  exists cmds, s0. split_and!; [done|by rewrite <- Ho|].
  intros evs. destruct (handle_events_inv s0 evs Hinv0 Hbr0) as (s1 & -> & _). by eexists.
Qed.

(** C21: the start cells are not checked against the maze: from any
    state of the generator the program starts with the player at
    (1, 1) and the opponent at (13, 13), facing up, and each start cell
    is a wall exactly when [generate_maze] drew it; so the player can
    start on a wall, while the spec states that a tank never coincides
    with a blocked cell. *)
Theorem init_player_on_wall r :
  ∃ s, init_session r = Some s ∧
    player_tank s = new_tank 1 1 true ∧ ai_tank s = new_tank (COLS - 2) (ROWS - 2) false ∧
    (maze_get (maze s) 1 1 = Some 1 ↔ (1, 1) ∈ (wall_draws 20 r).1) ∧
    (maze_get (maze s) (COLS - 2) (ROWS - 2) = Some 1 ↔ (COLS - 2, ROWS - 2) ∈ (wall_draws 20 r).1).
Proof.
  destruct (place_walls_spec 20 empty_maze r empty_maze_wf) as (m & Hpw & _ & Hget & _).
  unfold init_session, generate_maze. rewrite Hpw. simpl. eexists. split; [reflexivity|].
  split_and!; [done|done| |]; rewrite Hget, empty_maze_get by reflexivity;
    case_decide; split; intros; simplify_eq; done.
Qed.

(** C31: during a game the tanks never enter a wall: from a session
    that satisfies the invariant with both tanks on open cells, a frame
    without a click (so without a restart, which may place a tank on a
    wall) reaches a session where both tanks are still on open cells. *)
Theorem frame_tanks_open s evs keys :
  session_inv s → tanks_open s → (∀ pos, MOUSEBUTTONDOWN pos ∉ evs) →
  ∃ s', frame s evs keys = Some s' ∧ session_inv s' ∧ tanks_open s'.
Proof.
  intros Hinv Ho Hnc. destruct (frame_preserves s evs keys Hinv) as (s' & Hf & Hinv').
  exists s'. split_and!; [done|done|].
  destruct (draw_phase_spec s) as [cmds Hd]; [apply Hinv|].
  unfold frame in Hf. rewrite Hd in Hf. cbn [mbind option_bind fst snd] in Hf.
  rewrite handle_events_noclick in Hf by done. cbn [mbind option_bind] in Hf.
  eapply game_step_tanks_open in Hf; [exact Hf| |]; destruct (game_over _); assumption.
Qed.
End game_claims.

(** ** Concrete runs, with the scripted generator of [Prelude] and the
    fixed-width font of [Render] *)

#[local] Existing Instance fixed_metrics.

(** The end-to-end run: 20 walls drawn at (0, 14), then the opponent's
    shuffles put UP first.  The player steps right once and then
    wiggles (LEFT and RIGHT together, which ends the turn without moving)
    while the opponent climbs column 13 to row 1; the player, facing
    right on row 1, fires, keeps the turn, and the bullet crosses the
    open row. *)
Definition e2e_script : list Z := concat (replicate 20 [0; 14]) ++ replicate 12 2.

Definition e2e_inputs : list (list Event * Keys) :=
  [([], mkKeys false true false false false); ([], no_keys)] ++
  concat (replicate 11 [([], mkKeys true true false false false); ([], no_keys)]) ++
  [([], mkKeys false false false false true)] ++ replicate 10 ([], no_keys).

(** End to end, from the start position: the player's bullet
    travels the open row to the opponent's cell, the outcome is "WIN",
    the hitting bullet is still live on the opponent's cell; the next
    frame only draws the restart button (assigning [button_rect]), and
    frames without a click change nothing more. *)
Example e2e_win :
  ∃ s, (init_session (Rng := list Z) e2e_script ≫= λ s0, run_frames s0 e2e_inputs) = Some s ∧
    outcome s = mkOutcome true "WIN" ∧
    live_bullets (bullets s) = [mkBullet 13 1 RIGHT true] ∧
    ai_tank s = mkTank 13 1 false UP ∧
    frame s [] no_keys = Some (set_button s button_rect) ∧
    frame (set_button s button_rect) [] no_keys = Some (set_button s button_rect).
Proof.
  destruct (init_session (Rng := list Z) e2e_script ≫= λ s0, run_frames s0 e2e_inputs)
    as [s|] eqn:E; [|vm_compute in E; discriminate].
  exists s. split; [done|]. vm_compute in E. injection E as <-. split_and!; vm_compute; reflexivity.
Qed.

(** ** Witnesses *)

Lemma init_demo : ∃ s, init_session (Rng := list Z) [] = Some s ∧ session_inv s.
Proof.
  destruct (init_session_spec (Rng := list Z) []) as (s & Hs & Hinv & _).
  exists s. exact (conj Hs Hinv).
Qed.

Lemma frame_safe_witness :
  ∃ s, init_session (Rng := list Z) [] = Some s ∧
    ∃ s', frame s [] (mkKeys false true false false true) = Some s' ∧ session_inv s'.
Proof.
  destruct init_demo as (s & Hs & Hinv). exists s. split; [done|].
  exact (frame_safe s [] (mkKeys false true false false true) Hinv).
Defined.

Lemma reachable_inv_witness :
  ∃ s, init_session (Rng := list Z) [] = Some s ∧ session_inv s.
Proof.
  destruct (init_session (Rng := list Z) []) as [s|] eqn:E; [|vm_compute in E; discriminate].
  exists s. split; [done|]. apply reachable_inv. exists [], s. split; [done|]. constructor.
Defined.

Lemma e2e_final :
  ∃ s, (init_session (Rng := list Z) e2e_script ≫= λ s0, run_frames s0 e2e_inputs) = Some s ∧
    game_over (outcome s) = true ∧ maze_wf (maze s).
Proof.
  destruct (init_session (Rng := list Z) e2e_script ≫= λ s0, run_frames s0 e2e_inputs)
    as [s|] eqn:E; [|vm_compute in E; discriminate].
  exists s. split; [done|]. vm_compute in E. injection E as <-.
  split; [reflexivity|]. apply (bool_decide_unpack _). vm_compute. exact I.
Defined.

Lemma frame_frozen_witness :
  ∃ s, (init_session (Rng := list Z) e2e_script ≫= λ s0, run_frames s0 e2e_inputs) = Some s ∧
    frame s [MOUSEBUTTONDOWN (0, 0); QUIT] no_keys = Some (set_running (set_button s button_rect) false).
Proof.
  destruct e2e_final as (s & Hs & Hgo & Hwf). exists s. split; [exact Hs|]. clear Hs.
  rewrite (frame_frozen s [MOUSEBUTTONDOWN (0, 0); QUIT] no_keys Hwf Hgo); [reflexivity|].
  intros pos Hpos. apply elem_of_cons in Hpos as [[= ->]|Hpos]; [reflexivity|].
  apply elem_of_cons in Hpos as [Hpos|Hpos]; [discriminate Hpos|by apply not_elem_of_nil in Hpos].
Defined.

Lemma frame_restart_witness :
  ∃ s, (init_session (Rng := list Z) e2e_script ≫= λ s0, run_frames s0 e2e_inputs) = Some s ∧
    frame s [MOUSEBUTTONDOWN (300, 360)] no_keys =
      reset_game (set_button s button_rect) ≫= λ s1, game_step s1 no_keys.
Proof.
  destruct e2e_final as (s & Hs & Hgo & Hwf). exists s. split; [exact Hs|]. clear Hs.
  apply frame_restart; [exact Hwf|exact Hgo|reflexivity].
Defined.

(** The session at the end of the scripted run satisfies the
    invariant. *)
Lemma e2e_final_inv :
  ∃ s, (init_session (Rng := list Z) e2e_script ≫= λ s0, run_frames s0 e2e_inputs) = Some s ∧
    session_inv s.
Proof.
  destruct (init_session_spec (Rng := list Z) e2e_script) as (s0 & Hs0 & Hinv0 & _).
  destruct (run_frames_preserves s0 e2e_inputs Hinv0) as (s & Hr & Hinv).
  exists s. split; [|exact Hinv]. rewrite Hs0. cbn [mbind option_bind]. rewrite Hr. reflexivity.
Qed.

(** A restart after the scripted game, whose winning bullet object stays
    allocated. *)
Lemma reset_game_restores_witness :
  ∃ s, (init_session (Rng := list Z) e2e_script ≫= λ s0, run_frames s0 e2e_inputs) = Some s ∧
    ∃ s' s0, reset_game s = Some s' ∧ init_session (rng s) = Some s0 ∧
      option_Forall2 session_equiv (run_frames s' [([], mkKeys false true false false true)])
        (run_frames (with_globals s0 s) [([], mkKeys false true false false true)]).
Proof.
  destruct e2e_final_inv as (s & Hs & Hinv). exists s. split; [exact Hs|].
  destruct (reset_game_restores s Hinv) as (s' & s0 & Hr & Hi & Hrun).
  exists s', s0. split_and!; [exact Hr|exact Hi|apply Hrun].
Defined.

Lemma init_player_on_wall_witness :
  ∃ s, init_session (Rng := list Z) [1; 1] = Some s ∧ player_tank s = new_tank 1 1 true ∧
    maze_get (maze s) 1 1 = Some 1.
Proof.
  destruct (init_player_on_wall (Rng := list Z) [1; 1]) as (s & Hs & Hp & _ & Hiff & _).
  exists s. split_and!; [exact Hs|exact Hp|]. apply Hiff.
  apply (bool_decide_unpack _). vm_compute. exact I.
Defined.

Lemma turn_alternation_witness :
  ∃ s s', init_session (Rng := list Z) [] = Some s ∧
    frame s [] (mkKeys false false false false true) = Some s' ∧
    player_turn s' = true ∧ ai_tank s' = ai_tank s.
Proof.
  destruct init_demo as (s & Hs & Hinv).
  destruct (frame_preserves s [] (mkKeys false false false false true) Hinv) as (s' & Hf & _).
  assert (Hgo : game_over (outcome s) = false)
    by (vm_compute in Hs; injection Hs as <-; vm_compute; reflexivity).
  assert (Hpt : player_turn s = true)
    by (vm_compute in Hs; injection Hs as <-; vm_compute; reflexivity).
  pose proof (turn_alternation s _ s' Hinv Hgo Hf) as Halt. rewrite Hpt in Halt.
  destruct Halt as [H1 H2].
  exists s, s'. split_and!; [done|done| |done]. rewrite H1. reflexivity.
Defined.

Lemma player_two_moves_witness :
  ∃ s, init_session (Rng := list Z) e2e_script = Some s ∧
    ∃ s', player_turn_step (mkKeys true false true false false) s = Some s' ∧
      tank_x (player_tank s') = 0 ∧ tank_y (player_tank s') = 0 ∧ player_turn s' = false.
Proof.
  destruct (init_session (Rng := list Z) e2e_script) as [s|] eqn:E;
    [|vm_compute in E; discriminate].
  exists s. split; [done|]. vm_compute in E. injection E as Es.
  assert (Hwf : maze_wf (maze s)).
  { rewrite <- Es. apply (bool_decide_unpack _). vm_compute. exact I. }
  assert (H1 : can_enter (maze s) (tank_x (player_tank s) - 1) (tank_y (player_tank s)) = true).
  { rewrite <- Es. vm_compute. reflexivity. }
  assert (H2 : can_enter (maze s) (tank_x (player_tank s) - 1) (tank_y (player_tank s) - 1) = true).
  { rewrite <- Es. vm_compute. reflexivity. }
  destruct (player_two_moves s Hwf H1 H2) as (s' & Hs' & Hx & Hy & Hp).
  exists s'. split_and!; [exact Hs'|rewrite Hx, <- Es; reflexivity|rewrite Hy, <- Es; reflexivity|exact Hp].
Defined.

Lemma quit_stops_witness :
  ∃ s s', init_session (Rng := list Z) [] = Some s ∧ frame s [QUIT] no_keys = Some s' ∧
    running s' = false ∧ ∀ s'', ¬ step s' s''.
Proof.
  destruct init_demo as (s & Hs & Hinv).
  destruct (frame_preserves s [QUIT] no_keys Hinv) as (s' & Hf & _).
  exists s, s'. split_and!; [exact Hs|exact Hf|..];
    [exact (proj1 (quit_stops s [QUIT] no_keys s' (list_elem_of_here _ _) Hf))
    |exact (proj2 (quit_stops s [QUIT] no_keys s' (list_elem_of_here _ _) Hf))].
Defined.


Lemma events_after_draw_safe_witness :
  ∃ s, (init_session (Rng := list Z) e2e_script ≫= λ s0, run_frames s0 e2e_inputs) = Some s ∧
    ∃ cmds s0, draw_phase s = Some (cmds, s0) ∧
      (game_over (outcome s) = true → button s0 = Some button_rect) ∧
      ∀ evs, is_Some (handle_events s0 evs).
Proof.
  destruct e2e_final_inv as (s & Hs & Hinv). exists s. split; [exact Hs|].
  exact (events_after_draw_safe s Hinv).
Defined.

Lemma frame_tanks_open_witness :
  ∃ s, init_session (Rng := list Z) [] = Some s ∧
    ∃ s', frame s [OTHER_EVENT] (mkKeys false true false false false) = Some s' ∧ tanks_open s'.
Proof.
  destruct init_demo as (s & Hs & Hinv). exists s. split; [exact Hs|].
  destruct (frame_tanks_open s [OTHER_EVENT] (mkKeys false true false false false) Hinv)
    as (s' & Hf & _ & Ho).
  - vm_compute in Hs. injection Hs as <-. split; vm_compute; reflexivity.
  - intros pos Hpos. apply list_elem_of_singleton in Hpos. discriminate Hpos.
  - exists s'. split; [exact Hf|exact Ho].
Defined.

End Game.
