(* ===== verification/Program.v ===== *)
(** * Program: the whole script of src/TankGame.py as a program with
    effects (lines 1-29, 136, 159-162, 207-213, 231-234)

    Besides the game state, the script talks to the system: it sets up
    pygame and loads its two images (lines 20-29), draws each frame
    (lines 163-177), sleeps 0.1 s after a turn (lines 209 and 213),
    paces the loop with [clock.tick(30)] (line 231), and leaves through
    [pygame.quit()] and [sys.exit()] (lines 233-234) once [running] is
    false.  These calls are the [Effect]s of the program, appended to a
    trace in the order the script makes them; the system's answers
    are not part of the model, except the events and keys of each
    frame, which are its input.  [while running] reads one frame's
    input per iteration, so a run over a finite input stream is a
    structural recursion that ends either by the script's own exit
    ([Quit]) or when the given stream is used up ([Exhausted]). *)

From stdpp Require Import base list gmap strings.
From Stdlib Require Import ZArith Lia.
From S2P Require Import Prelude Grid Tank Bullet Vision Resolver Render Session.
Import Grid Tank Bullet Vision Resolver Render Session.

Module Program.
Local Open Scope Z_scope.

(** The calls that act on the system. *)
Inductive Effect :=
  | PygameInit                     (** [pygame.init()] *)
  | SetMode (w h : Z)              (** [pygame.display.set_mode((w, h))] *)
  | SetCaption (title : string)    (** [pygame.display.set_caption(title)] *)
  | MakeClock                      (** [pygame.time.Clock()] *)
  | LoadImage (file : string)      (** [pygame.image.load(file)] *)
  | ScaleImage (img : Image) (w h : Z)  (** [pygame.transform.scale(img, (w, h))] *)
  | Draw (cmds : list DrawCmd)     (** the drawing of one frame *)
  | Sleep (ms : Z)                 (** [time.sleep(ms / 1000)] *)
  | Tick (fps : Z)                 (** [clock.tick(fps)] *)
  | PygameQuit                     (** [pygame.quit()] *)
  | SysExit.                       (** [sys.exit()] *)

#[export] Instance Effect_eq_dec : EqDecision Effect.
Proof. solve_decision. Defined.

(** Lines 20-29, in order. *)
Definition setup_effects : list Effect :=
  [PygameInit; SetMode SCREEN_WIDTH SCREEN_HEIGHT; SetCaption "The Tank Game"; MakeClock;
   LoadImage "360_F_243103099_vsIDZgaQvobOKW8GGyIpQ0jxbfzmcJjO.jpg";
   ScaleImage PLAYER_IMG TILE_SIZE TILE_SIZE;
   LoadImage "360_F_484301605_l8x99s7uqY8D5N1h7ydt7a7ZSqqP1kcp.jpg";
   ScaleImage AI_IMG TILE_SIZE TILE_SIZE].

(** How a run of the loop ends: the script's [sys.exit()], or the end
    of the input stream the run was given. *)
Inductive Exit := Quit | Exhausted.

#[export] Instance Exit_eq_dec : EqDecision Exit.
Proof. solve_decision. Defined.

Section program.
Context `{RandomSource Rng} `{FontMetrics}.

(** The [time.sleep(0.1)] calls of lines 207-213, on the session after
    the events: after a move of the player, and after every turn of
    the opponent; none once the game is over. *)
Definition turn_sleeps (s1 : Session (Rng := Rng)) (keys : Keys) : list Effect :=
  if game_over (outcome s1) then []
  else if player_turn s1 then
    (if k_left keys || k_right keys || k_up keys || k_down keys then [Sleep 100] else [])
  else [Sleep 100].

(** One iteration of [while running] (lines 162-231) with its effects:
    the drawing, the sleep of the turn, the clock tick. *)
Definition frame_io (s : Session (Rng := Rng)) (evs : list Event) (keys : Keys)
    : option (Session (Rng := Rng) * list Effect) :=
  d ← draw_phase s;
  s1 ← handle_events d.2 evs;
  s2 ← game_step s1 keys;
  Some (s2, [Draw d.1] ++ turn_sleeps s1 keys ++ [Tick 30]).

(** [while running: ...] (line 162), then [pygame.quit()] and
    [sys.exit()] (lines 233-234), over a stream of frame inputs. *)
Fixpoint run_loop (s : Session (Rng := Rng)) (inputs : list (list Event * Keys))
    : option (Session (Rng := Rng) * list Effect * Exit) :=
  if running s then
    match inputs with
    | [] => Some (s, [], Exhausted)
    | (evs, keys) :: rest =>
        r ← frame_io s evs keys;
        r' ← run_loop r.1 rest;
        Some (r'.1.1, r.2 ++ r'.1.2, r'.2)
    end
  else Some (s, [PygameQuit; SysExit], Quit).

(** The script: set-up, [reset_game()] and the globals of lines 136
    and 159-161, then the loop. *)
Definition main (r : Rng) (inputs : list (list Event * Keys)) : option (list Effect * Exit) :=
  s ← init_session r;
  res ← run_loop s inputs;
  Some (setup_effects ++ res.1.2, res.2).
End program.

(** ** Observing a trace *)

(** The calls a frame makes: drawing, sleeping, ticking. *)
Definition frame_effect (e : Effect) : bool :=
  match e with Draw _ | Sleep _ | Tick _ => true | _ => false end.

(** The number of [clock.tick(30)] calls in a trace. *)
Definition ticks (out : list Effect) : nat := length (filter (λ e, e = Tick 30) out).

(** ** Lemmas *)

Section program_lemmas.
Context `{RandomLaws Rng} `{FontMetrics}.
Implicit Types (s : Session (Rng := Rng)).

Lemma ticks_app l1 l2 : ticks (l1 ++ l2) = (ticks l1 + ticks l2)%nat.
Proof. unfold ticks. by rewrite filter_app, length_app. Qed.

Lemma turn_sleeps_cases s keys : turn_sleeps s keys = [] ∨ turn_sleeps s keys = [Sleep 100].
Proof.
  unfold turn_sleeps. destruct (game_over _); [by left|].
  destruct (player_turn s); [|by right]. destruct (_ || _); auto.
Qed.

Lemma run_frames_app s l1 l2 :
  run_frames s (l1 ++ l2) = run_frames s l1 ≫= λ s1, run_frames s1 l2.
Proof.
  revert s. induction l1 as [|[evs keys] l1 IH]; intros s; simpl; [done|].
  destruct (frame s evs keys); simpl; [apply IH|done].
Qed.

(** The part of a frame after the events never raises; the sleep of
    the turn is there exactly when the turn passes. *)
Lemma game_step_turn s1 keys :
  session_inv s1 →
  ∃ s', game_step s1 keys = Some s' ∧ session_inv s' ∧ running s' = running s1 ∧
    turn_sleeps s1 keys = if bool_decide (player_turn s' = player_turn s1) then [] else [Sleep 100].
Proof.
  intros Hinv. destruct (game_step_inv s1 keys Hinv) as (s' & Hg & Hinv').
  exists s'. split_and!; [done|done|by eapply game_step_running|].
  revert Hg. unfold game_step, turn_sleeps.
  destruct (game_over _); [intros [= <-]; by rewrite bool_decide_eq_true_2|].
  destruct (player_turn s1) eqn:Ht.
  - destruct (player_turn_step_inv keys s1) as (s2 & -> & Hc2 & _ & _ & _ & _ & Ht2);
      [by apply session_core|].
    destruct (resolve_step_inv s2 Hc2) as (s'' & E & _ & Ht'' & _).
    simpl. rewrite E. intros [= <-]. rewrite Ht'', Ht2, Ht. by destruct (_ || _).
  - destruct (ai_turn_step_inv s1) as (s2 & -> & Hc2 & _ & _ & _ & Ht2); [by apply session_core|].
    destruct (resolve_step_inv s2 Hc2) as (s'' & E & _ & Ht'' & _).
    simpl. rewrite E. intros [= <-]. by rewrite Ht'', Ht2.
Qed.

(** A frame with its effects, taken apart: the drawing, the events,
    the turn; the state it reaches is the one of [frame]. *)
Lemma frame_io_spec s evs keys :
  session_inv s →
  ∃ cmds s0 s1 s', draw_phase s = Some (cmds, s0) ∧ handle_events s0 evs = Some s1 ∧
    game_step s1 keys = Some s' ∧ frame s evs keys = Some s' ∧
    frame_io s evs keys = Some (s', [Draw cmds] ++ turn_sleeps s1 keys ++ [Tick 30]) ∧
    session_inv s1 ∧ session_inv s' ∧ running s' = running s && negb (bool_decide (QUIT ∈ evs)).
Proof.
  intros Hinv. destruct (draw_phase_inv s Hinv) as (cmds & s0 & Hd & Hinv0 & Hbr0 & _).
  assert (Hr0 : running s0 = running s).
  { destruct (draw_phase_spec s) as [cmds' Hd']; [apply Hinv|].
    rewrite Hd in Hd'. injection Hd' as _ ->. by destruct (game_over _). }
  destruct (handle_events_inv s0 evs Hinv0 Hbr0) as (s1 & Hev & Hinv1 & _).
  destruct (game_step_turn s1 keys Hinv1) as (s' & Hg & Hinv' & Hr' & _).
  exists cmds, s0, s1, s'. unfold frame, frame_io. rewrite Hd. cbn [mbind option_bind fst snd].
  rewrite Hev. cbn [mbind option_bind]. rewrite Hg. split_and!; try done.
  by rewrite Hr', (handle_events_running _ _ _ Hev), Hr0.
Qed.

Lemma frame_io_inv s evs keys :
  session_inv s →
  ∃ s' out, frame_io s evs keys = Some (s', out) ∧ frame s evs keys = Some s' ∧
    session_inv s' ∧ running s' = running s && negb (bool_decide (QUIT ∈ evs)) ∧
    Forall frame_effect out ∧ ticks out = 1%nat.
Proof.
  intros Hinv.
  destruct (frame_io_spec s evs keys Hinv) as (cmds & s0 & s1 & s' & _ & _ & _ & Hf & Hio & _ & Hinv' & Hr).
  exists s', ([Draw cmds] ++ turn_sleeps s1 keys ++ [Tick 30]). split_and!; try done;
    destruct (turn_sleeps_cases s1 keys) as [->| ->]; repeat constructor.
Qed.

(** Frames without [QUIT] from a running session: the loop runs them
    all, reaching the state of [run_frames], with one tick each, and
    goes on with the rest of the input. *)
Lemma run_loop_prefix s pre :
  session_inv s → running s = true → (∀ evs keys, (evs, keys) ∈ pre → QUIT ∉ evs) →
  ∃ s1 out1, run_frames s pre = Some s1 ∧ session_inv s1 ∧ running s1 = true ∧
    Forall frame_effect out1 ∧ ticks out1 = length pre ∧
    ∀ rest, run_loop s (pre ++ rest) =
              run_loop s1 rest ≫= λ r, Some (r.1.1, out1 ++ r.1.2, r.2).
Proof.
  revert s. induction pre as [|[evs keys] pre IH]; intros s Hinv Hr Hq.
  - exists s, nil. split_and!; try done. intros rest. simpl.
    by destruct (run_loop s rest) as [[[??]?]|].
  - destruct (frame_io_inv s evs keys Hinv) as (s2 & out2 & Hio & Hf & Hinv2 & Hr2 & Hfe2 & Ht2).
    rewrite Hr, bool_decide_eq_false_2 in Hr2 by (apply (Hq evs keys); by left).
    destruct (IH s2 Hinv2 Hr2) as (s1 & out1 & Hrf & Hinv1 & Hr1 & Hfe1 & Ht1 & Hloop);
      [intros e k Hek; apply (Hq e k); by right|].
    exists s1, (out2 ++ out1). split_and!; try done.
    + simpl. by rewrite Hf.
    + by apply Forall_app.
    + by rewrite ticks_app, Ht2, Ht1.
    + intros rest. simpl. rewrite Hr, Hio. cbn [mbind option_bind fst snd]. rewrite Hloop.
      destruct (run_loop s1 rest) as [[[??]?]|]; simpl; [by rewrite app_assoc|done].
Qed.

(** The whole loop from a session satisfying the invariant: it never
    raises; it ends by [sys.exit()] exactly when the loop was already
    stopped or some frame received [QUIT], and then the trace ends with
    [pygame.quit()] and [sys.exit()], after frame effects only. *)
Lemma run_loop_spec s inputs :
  session_inv s →
  ∃ s' out e, run_loop s inputs = Some (s', out, e) ∧ session_inv s' ∧
    (e = Quit ↔ running s = false ∨ ∃ evs keys, (evs, keys) ∈ inputs ∧ QUIT ∈ evs) ∧
    (if e is Quit then ∃ out0, out = out0 ++ [PygameQuit; SysExit] ∧ Forall frame_effect out0
     else Forall frame_effect out).
Proof.
  revert s. induction inputs as [|[evs keys] inputs IH]; intros s Hinv; simpl.
  - destruct (running s) eqn:Hr.
    + exists s, nil, Exhausted. split_and!; try done.
      split; [done|]. intros [?|(? & ? & Hin & _)]; [done|]. by apply not_elem_of_nil in Hin.
    + exists s, [PygameQuit; SysExit], Quit. split_and!; [done|done|naive_solver|by exists nil].
  - destruct (running s) eqn:Hr.
    + destruct (frame_io_inv s evs keys Hinv) as (s1 & out1 & -> & _ & Hinv1 & Hr1 & Hfe1 & _).
      cbn [mbind option_bind fst snd]. destruct (IH s1 Hinv1) as (s' & out & e & -> & Hinv' & Hiff & Hout).
      exists s', (out1 ++ out), e. split_and!; try done.
      * rewrite Hiff, Hr1, Hr. cbn [andb]. split.
        -- intros [Hq|(e' & k' & Hin & Hq)].
           ++ right. exists evs, keys. split; [by left|].
              by apply negb_false_iff, bool_decide_eq_true in Hq.
           ++ right. exists e', k'. split; [by right|done].
        -- intros [[=]|(e' & k' & Hin & Hq)].
           apply elem_of_cons in Hin as [[= -> ->]|Hin].
           ++ left. rewrite (bool_decide_eq_true_2 (QUIT ∈ _)); [reflexivity|assumption].
           ++ right. eauto.
      * destruct e; [|by apply Forall_app].
        destruct Hout as (out0 & -> & Hfe0). exists (out1 ++ out0).
        rewrite app_assoc. split; [done|by apply Forall_app].
    + exists s, [PygameQuit; SysExit], Quit. split_and!; [done|done|naive_solver|by exists nil].
Qed.
End program_lemmas.

(** ** Properties of the program *)

Section program_claims.
Context `{RandomLaws Rng} `{FontMetrics}.
Implicit Types (s : Session (Rng := Rng)).

(** C28: the script never raises, on any generator and any input
    stream: it makes the set-up calls of lines 20-29 in order, then
    only frame calls (drawing, sleeping, ticking); it leaves through
    [sys.exit()] exactly when some frame received [QUIT], and then its
    last two calls are [pygame.quit()] and [sys.exit()]. *)
Theorem main_total r inputs :
  ∃ out e, main r inputs = Some (setup_effects ++ out, e) ∧
    (e = Quit ↔ ∃ evs keys, (evs, keys) ∈ inputs ∧ QUIT ∈ evs) ∧
    (if e is Quit then ∃ out0, out = out0 ++ [PygameQuit; SysExit] ∧ Forall frame_effect out0
     else Forall frame_effect out).
Proof.
  destruct (init_session_spec r) as (s & Hs & Hinv & _ & _ & _ & _ & Hr).
  destruct (run_loop_spec s inputs Hinv) as (s' & out & e & Hl & _ & Hiff & Hout).
  exists out, e. unfold main. rewrite Hs. cbn [mbind option_bind]. rewrite Hl.
  split_and!; [done| |done]. rewrite Hiff, Hr. naive_solver.
Qed.

(** C29: the loop stops at the first frame that receives [QUIT]: from
    a running session, with no [QUIT] before that frame, the run is the
    frames up to and including it, one [clock.tick] each, then
    [pygame.quit()] and [sys.exit()]; whatever input follows is never
    read. *)
Theorem run_loop_stops s pre evs keys :
  session_inv s → running s = true →
  (∀ e k, (e, k) ∈ pre → QUIT ∉ e) → QUIT ∈ evs →
  ∃ s' out, run_frames s (pre ++ [(evs, keys)]) = Some s' ∧
    ticks out = S (length pre) ∧ Forall frame_effect out ∧
    ∀ post, run_loop s (pre ++ (evs, keys) :: post) = Some (s', out ++ [PygameQuit; SysExit], Quit).
Proof.
  intros Hinv Hr Hpre Hq.
  destruct (run_loop_prefix s pre Hinv Hr Hpre) as (s1 & out1 & Hrf & Hinv1 & Hr1 & Hfe1 & Ht1 & Hloop).
  destruct (frame_io_inv s1 evs keys Hinv1) as (s2 & out2 & Hio & Hf & _ & Hr2 & Hfe2 & Ht2).
  rewrite Hr1, bool_decide_eq_true_2 in Hr2 by done.
  exists s2, (out1 ++ out2). split_and!.
  - rewrite run_frames_app, Hrf. simpl. by rewrite Hf.
  - rewrite ticks_app, Ht1, Ht2. lia.
  - by apply Forall_app.
  - intros post. rewrite Hloop. simpl. rewrite Hr1, Hio. cbn [mbind option_bind fst snd].
    replace (run_loop s2 post) with (Some (s2, [PygameQuit; SysExit], Quit))
      by (destruct post as [|[]]; simpl; by rewrite Hr2).
    simpl. by rewrite app_assoc.
Qed.

(** C30: one iteration of the loop with its calls: it draws the frame,
    reaches the state of [frame], sleeps 0.1 s exactly when the turn
    passes from the session after the events to the next, and ticks
    the clock once. *)
Theorem frame_io_turn_delay s evs keys :
  session_inv s →
  ∃ cmds s0 s1 s', draw_phase s = Some (cmds, s0) ∧ handle_events s0 evs = Some s1 ∧
    frame s evs keys = Some s' ∧
    frame_io s evs keys = Some (s', [Draw cmds] ++
      (if bool_decide (player_turn s' = player_turn s1) then [] else [Sleep 100]) ++ [Tick 30]).
Proof.
  intros Hinv.
  destruct (frame_io_spec s evs keys Hinv) as (cmds & s0 & s1 & s' & Hd & Hev & Hg & Hf & Hio & Hinv1 & _).
  destruct (game_step_turn s1 keys Hinv1) as (s'' & Hg' & _ & _ & Hsl).
  rewrite Hg in Hg'. injection Hg' as <-. rewrite Hsl in Hio. by exists cmds, s0, s1, s'.
Qed.

End program_claims.

(** ** Witnesses *)

#[local] Existing Instance fixed_metrics.

Definition step_right : Keys := mkKeys false true false false false.

Lemma init_program :
  ∃ s, init_session (Rng := list Z) [] = Some s ∧ session_inv s ∧ running s = true.
Proof.
  destruct (init_session_spec (Rng := list Z) []) as (s & Hs & Hinv & _ & _ & _ & _ & Hr).
  exists s. split_and!; [exact Hs|exact Hinv|exact Hr].
Qed.

Lemma main_total_witness :
  ∃ out, main (Rng := list Z) [] [([QUIT], no_keys)] =
    Some (setup_effects ++ out ++ [PygameQuit; SysExit], Quit).
Proof.
  destruct (main_total (Rng := list Z) [] [([QUIT], no_keys)]) as (out & e & Hm & Hiff & Hout).
  assert (e = Quit) as ->.
  { apply Hiff. exists [QUIT], no_keys. split; by left. }
  destruct Hout as (out0 & -> & _). exists out0. exact Hm.
Defined.

Lemma run_loop_stops_witness :
  ∃ s, init_session (Rng := list Z) [] = Some s ∧
    ∃ s' out, ticks out = 2%nat ∧
      run_loop s [([], step_right); ([QUIT], no_keys); ([], no_keys)] =
        Some (s', out ++ [PygameQuit; SysExit], Quit).
Proof.
  destruct init_program as (s & Hs & Hinv & Hr). exists s. split; [exact Hs|].
  destruct (run_loop_stops s [([], step_right)] [QUIT] no_keys Hinv Hr) as (s' & out & _ & Ht & _ & Hl).
  - intros e k Hek. apply list_elem_of_singleton in Hek. injection Hek as -> _.
    apply not_elem_of_nil.
  - by left.
  - exists s', out. split; [exact Ht|]. exact (Hl [([], no_keys)]).
Defined.

Lemma frame_io_turn_delay_witness :
  ∃ s, init_session (Rng := list Z) [] = Some s ∧
    ∃ s' out, frame_io s [] step_right = Some (s', out) ∧ frame s [] step_right = Some s'.
Proof.
  destruct init_program as (s & Hs & Hinv & _). exists s. split; [exact Hs|].
  destruct (frame_io_turn_delay s [] step_right Hinv) as (cmds & s0 & s1 & s' & _ & _ & Hf & Hio).
  eexists _, _. split; [exact Hio|exact Hf].
Defined.

End Program.
